(** * parse_bodymap.py: a shallow embedding and its properties

    The script reads a JSON log of touch events, flattens it into point
    records, tabulates them, bins coordinates into 2D histograms, draws three
    multi-panel figures and prints statistics.

    Modelling conventions.
    - A parsed JSON document is a value of [json]; a Python [dict] is the list
      of its items in insertion order (keys are distinct, as the parser leaves
      them).
    - A number is the rational it denotes ([Q]); comparisons on binary64
      values are exact, so they are comparisons on [Q], and an arithmetic
      operation returns the binary64 value nearest to the exact result
      ([fl64]).
    - Python exceptions are values of [exn]; code that can raise returns a
      [result].
    - Printing, the file system and the saved figures are fields of [world],
      threaded through the program by the monad [M]. *)

From Stdlib Require Import String List ZArith QArith Qabs Qpower Lia Bool Arith PeanoNat.
From Stdlib Require Import Sorted OrderedTypeEx Lqa.
Import ListNotations.
Open Scope string_scope.
Open Scope list_scope.
Open Scope nat_scope.

#[local] Set Warnings "-register-all".

(** ** Parsed JSON *)

Inductive json : Type :=
| JNull
| JBool (b : bool)
| JNum (q : Q)
| JStr (s : string)
| JArr (items : list json)
| JObj (members : list (string * json)).

(** ** Exceptions and results *)

Inductive exn : Type :=
| SystemExit (code : nat)
| IndexError
| KeyError (key : string)
| TypeError
| AttributeError
| ValueError
| FileNotFoundError (path : string)
| JSONDecodeError
| UnicodeDecodeError
| UnidentifiedImageError (path : string).

(** [OutOfFormat] marks rows that do not follow the input format (seven
    fields, four strings and three numbers); what the table library does with
    such rows is outside this model. *)
Inductive result (A : Type) : Type :=
| Ok (a : A)
| Raise (e : exn)
| OutOfFormat.

Arguments Ok {A} a.
Arguments Raise {A} e.
Arguments OutOfFormat {A}.

(** ** Flattener (lines 22-28) *)

(** [d[key]] on a dict. *)
Fixpoint dict_get (key : string) (members : list (string * json)) : option json :=
  match members with
  | [] => None
  | (k, v) :: rest => if String.eqb k key then Some v else dict_get key rest
  end.

(** [data['data']]: a dict is looked up, anything else cannot be indexed by a
    string. *)
Definition subscript_data (data : json) : result json :=
  match data with
  | JObj members =>
      match dict_get "data" members with
      | Some v => Ok v
      | None => Raise (KeyError "data")
      end
  | _ => Raise TypeError
  end.

(** The elements [enumerate(v)] iterates over: the items of a list, the keys
    of a dict, the characters of a string; other values are not iterable. *)
Definition iterate (v : json) : result (list json) :=
  match v with
  | JArr items => Ok items
  | JObj members => Ok (map (fun kv => JStr (fst kv)) members)
  | JStr s => Ok (map (fun c => JStr (String c EmptyString)) (list_ascii_of_string s))
  | _ => Raise TypeError
  end.

(** The inner loop [for timestamp, point in participant_data.items():
    points.append(point)]. *)
Definition append_points (points : list json) (members : list (string * json)) : list json :=
  fold_left (fun acc tp => acc ++ [snd tp]) members points.

(** The outer loop, with [points] as accumulator.  [None] is skipped, a dict
    is walked, every other value has no [items] attribute. *)
Fixpoint flatten_loop (entries : list json) (points : list json) : result (list json) :=
  match entries with
  | [] => Ok points
  | participant_data :: rest =>
      match participant_data with
      | JNull => flatten_loop rest points
      | JObj members => flatten_loop rest (append_points points members)
      | _ => Raise AttributeError
      end
  end.

Definition flatten (data : json) : result (list json) :=
  match subscript_data data with
  | Ok v =>
      match iterate v with
      | Ok entries => flatten_loop entries []
      | Raise e => Raise e
      | OutOfFormat => OutOfFormat
      end
  | Raise e => Raise e
  | OutOfFormat => OutOfFormat
  end.

(** An entry of a valid input: null or a map. *)
Definition valid_entry (j : json) : Prop :=
  j = JNull \/ exists members, j = JObj members.

(** Number of timestamp entries of a participant; a null participant has
    none. *)
Definition timestamp_count (j : json) : nat :=
  match j with
  | JObj members => length members
  | _ => 0
  end.

(** The points of a participant, in the order of its map. *)
Definition participant_points (j : json) : list json :=
  match j with
  | JObj members => map snd members
  | _ => []
  end.

Fixpoint sum_nat (l : list nat) : nat :=
  match l with
  | [] => 0
  | n :: rest => n + sum_nat rest
  end.


(** ** Tabulator (line 31) *)

(** A raw record.  The four categorical fields are strings, the three numeric
    fields are numbers. *)
Record point : Type := {
  participantId : string;
  figure : string;
  contactType : string;
  direction : string;
  xNorm : Q;
  yNorm : Q;
  confidence : Q
}.

Definition get_string (key : string) (members : list (string * json)) : option string :=
  match dict_get key members with
  | Some (JStr s) => Some s
  | _ => None
  end.

Definition get_number (key : string) (members : list (string * json)) : option Q :=
  match dict_get key members with
  | Some (JNum q) => Some q
  | _ => None
  end.

(** A point object that follows the input format, as a record. *)
Definition point_of_json (j : json) : option point :=
  match j with
  | JObj m =>
      match get_string "participantId" m, get_string "figure" m,
            get_string "contactType" m, get_string "direction" m,
            get_number "xNorm" m, get_number "yNorm" m, get_number "confidence" m with
      | Some p, Some f, Some c, Some d, Some x, Some y, Some k =>
          Some {| participantId := p; figure := f; contactType := c; direction := d;
                  xNorm := x; yNorm := y; confidence := k |}
      | _, _, _, _, _, _, _ => None
      end
  | _ => None
  end.

Fixpoint points_of_json (l : list json) : option (list point) :=
  match l with
  | [] => Some []
  | j :: rest =>
      match point_of_json j, points_of_json rest with
      | Some p, Some ps => Some (p :: ps)
      | _, _ => None
      end
  end.

(** A table: its column names and its rows.  A selection of rows keeps the
    columns, also when no row is left. *)
Record DataFrame : Type := {
  columns : list string;
  rows : list point
}.

Definition field_names : list string :=
  ["participantId"; "figure"; "contactType"; "direction"; "xNorm"; "yNorm"; "confidence"].

(** [pd.DataFrame(points)]: the columns are the keys of the records, so a
    table built from no record has no column. *)
Definition DataFrame_of (points : list json) : result DataFrame :=
  match points_of_json points with
  | Some [] => Ok {| columns := []; rows := [] |}
  | Some ps => Ok {| columns := field_names; rows := ps |}
  | None => OutOfFormat
  end.

(** [Series.unique()]: the distinct values in order of first occurrence. *)
Definition mem (x : string) (l : list string) : bool := existsb (String.eqb x) l.

Definition unique (l : list string) : list string :=
  fold_left (fun seen x => if mem x seen then seen else seen ++ [x]) l [].

(** ** Binary64 arithmetic

    The numbers of the script are binary64 values.  An operation on them
    returns the binary64 value nearest to the exact result, a tie going to
    the value with the even significand.  The exponent range is not bounded
    here: a result below [2^-1022] in magnitude (subnormal in binary64) or
    from [2^1024] on (an infinity in binary64) is outside the model. *)

(** Rounding to the nearest integer, ties to the even one. *)
Definition rint (q : Q) : Z :=
  let n := Qnum q in
  let d := Zpos (Qden q) in
  let lo := (n / d)%Z in
  match (2 * (n mod d) ?= d)%Z with
  | Lt => lo
  | Gt => (lo + 1)%Z
  | Eq => if Z.even lo then lo else (lo + 1)%Z
  end.

(** The exponent [e] of a positive rational [q]: [2^e <= q < 2^(e+1)]. *)
Definition floor_log2 (q : Q) : Z :=
  let e := (Z.log2 (Qnum q) - Z.log2 (Zpos (Qden q)))%Z in
  if Qle_bool (2 ^ e) q then e else (e - 1)%Z.

(** The binary64 value nearest to [q]: the multiple of the unit in the last
    place, for a significand of 53 bits, that is nearest to [q]. *)
Definition fl64 (q : Q) : Q :=
  if Qeq_bool q 0 then 0%Q
  else
    let ulp := (2 ^ (floor_log2 (Qabs q) - 52))%Q in
    Qred (inject_Z (rint (q / ulp)) * ulp).

(** [a + b], [a - b], [a * b] and [a / b] on binary64 values. *)
Definition fadd (a b : Q) : Q := fl64 (a + b).
Definition fsub (a b : Q) : Q := fl64 (a - b).
Definition fmul (a b : Q) : Q := fl64 (a * b).
Definition fdiv (a b : Q) : Q := fl64 (a / b).

(** ** Aggregator: [np.histogram2d(x, y, bins, range=[[0, 1], [0, 1]])] *)

Definition grid : Type := list (list nat).

(** [np.linspace(0, 1, bins + 1)]: the step [1 / bins] and the bin edges
    [k * step], computed in binary64, the last edge set to the stop value. *)
Definition linspace01 (bins : nat) : list Q :=
  let step := fdiv 1 (inject_Z (Z.of_nat bins)) in
  map (fun k => fmul (inject_Z (Z.of_nat k)) step) (seq 0 bins) ++ [1%Q].

(** [np.searchsorted(edges, v, side='right')] on increasing edges: the number
    of leading edges that are at most [v]. *)
Fixpoint searchsorted_right (edges : list Q) (v : Q) : nat :=
  match edges with
  | [] => 0
  | e :: rest => if Qle_bool e v then S (searchsorted_right rest v) else 0
  end.

(** Bin number of a value among [length edges + 1] bins: bin 0 and the last
    bin collect the values outside the range, and a value on the last edge is
    moved into the bin on its left. *)
Definition bin_index (edges : list Q) (v : Q) : nat :=
  let i := searchsorted_right edges v in
  if Qeq_bool v (last edges 0%Q) then i - 1 else i.

(** Number of samples in bin [(i, j)]. *)
Definition bincount2 (idx : list (nat * nat)) (i j : nat) : nat :=
  length (filter (fun p => (fst p =? i) && (snd p =? j)) idx).

(** The counts of the bins [1 .. bins] of both axes; the outlier bins are cut
    off.  Row [i] of the grid is the x-bin [i]. *)
Definition histogram2d (x y : list Q) (bins : nat) : result grid :=
  if negb (length x =? length y) then Raise ValueError
  else if bins =? 0 then Raise ValueError
  else
    let edges := linspace01 bins in
    let idx := combine (map (bin_index edges) x) (map (bin_index edges) y) in
    Ok (map (fun i => map (fun j => bincount2 idx i j) (seq 1 bins)) (seq 1 bins)).

Definition sum_grid (g : grid) : nat := sum_nat (map sum_nat g).

(** A coordinate pair inside the range [[0,1] x [0,1]]. *)
Definition in_unit_square (r : point) : bool :=
  Qle_bool 0 (xNorm r) && Qle_bool (xNorm r) 1 &&
  Qle_bool 0 (yNorm r) && Qle_bool (yNorm r) 1.

(** ** The world of a run *)

Inductive stage : Type := Loader | Flattener | Tabulator | Reporter | Renderer.

(** What a file holds: text, with the document it parses to if it is JSON, or
    an image. *)
Inductive content : Type :=
| Text (parsed : option json)
| Image.

Inductive background : Type :=
| Gray
| Picture (path : string).

(** The three title formats; [str.capitalize] and the formatting of the
    number are left to the reader of the title. *)
Inductive title : Type :=
| FigureTitle (figure_value : string) (n : nat)
| ContactTitle (contact_type : string) (n : nat)
| DirectionTitle (label : string) (n : nat).

Inductive colouring : Type :=
| ByConfidence (c : list Q)
| Fixed (colour : string).

(** What has been drawn on one axes. *)
Record panel : Type := {
  backdrop : background;
  heat : grid;
  scatter_x : list Q;
  scatter_y : list Q;
  scatter_c : colouring;
  caption : title
}.

(** The axes of a figure, each blank or drawn. *)
Definition axes : Type := list (option panel).

Inductive line : Type :=
| Usage (prog : string)
| SummaryHeader
| TotalPoints (n : nat)
| Participants (values : list string)
| Figures (values : list string)
| ContactTypes (values : list string)
| Directions (values : list string)
| Loaded (path : string)
| NotFound (path : string)
| SavedOnFigures
| SavedByContactType
| SavedByDirection
| StatisticsHeader
| ContactTypesHeader
| ValueCounts (counts : list (string * nat))
| DirectionsHeader
| DirectionCount (label : string) (n : nat)
| AverageHeader
| AverageConfidence (means : list (string * Q))
| Complete.

Record world : Type := {
  disk : list (string * content);
  accessed : list string;
  stdout : list line;
  saved : list (string * axes);
  current : stage
}.

Fixpoint lookup (path : string) (d : list (string * content)) : option content :=
  match d with
  | [] => None
  | (p, c) :: rest => if String.eqb p path then Some c else lookup path rest
  end.

(** ** The monad of the script: state and exceptions *)

Definition M (A : Type) : Type := world -> result A * world.

Definition ret {A : Type} (a : A) : M A := fun w => (Ok a, w).

Definition bind {A B : Type} (m : M A) (k : A -> M B) : M B :=
  fun w =>
    match m w with
    | (Ok a, w') => k a w'
    | (Raise e, w') => (Raise e, w')
    | (OutOfFormat, w') => (OutOfFormat, w')
    end.

Notation "x <- m ;; k" := (bind m (fun x => k))
  (at level 61, m at next level, right associativity).
Notation "m ;; k" := (bind m (fun _ => k))
  (at level 61, right associativity).

Definition raise {A : Type} (e : exn) : M A := fun w => (Raise e, w).

Definition lift {A : Type} (r : result A) : M A := fun w => (r, w).

Definition enter (s : stage) : M unit :=
  fun w => (Ok tt, {| disk := disk w; accessed := accessed w; stdout := stdout w;
                      saved := saved w; current := s |}).

Definition print (l : line) : M unit :=
  fun w => (Ok tt, {| disk := disk w; accessed := accessed w; stdout := stdout w ++ [l];
                      saved := saved w; current := current w |}).

Definition touch (path : string) (w : world) : world :=
  {| disk := disk w; accessed := accessed w ++ [path]; stdout := stdout w;
     saved := saved w; current := current w |}.

(** [with open(path, 'r') as f: json.load(f)]. *)
Definition open_json (path : string) : M json :=
  fun w =>
    match lookup path (disk w) with
    | None => (Raise (FileNotFoundError path), touch path w)
    | Some (Text (Some j)) => (Ok j, touch path w)
    | Some (Text None) => (Raise JSONDecodeError, touch path w)
    | Some Image => (Raise UnicodeDecodeError, touch path w)
    end.

Definition os_path_exists (path : string) : M bool :=
  fun w =>
    match lookup path (disk w) with
    | Some _ => (Ok true, touch path w)
    | None => (Ok false, touch path w)
    end.

(** [Image.open(path)] followed by the decoding [imshow] asks for. *)
Definition Image_open (path : string) : M unit :=
  fun w =>
    match lookup path (disk w) with
    | Some Image => (Ok tt, touch path w)
    | Some (Text _) => (Raise (UnidentifiedImageError path), touch path w)
    | None => (Raise (FileNotFoundError path), touch path w)
    end.

(** The side of an image, in pixels, of a figure side given in inches, at
    the resolution [dpi=300] of the script. *)
Definition pixels (inches : nat) : Z := (Z.of_nat inches * 300)%Z.

(** The renderer of [savefig] (Agg) draws the figure at its full size and
    refuses an image of [2^16] pixels or more in a direction.  (Matplotlib
    from 3.10 on accepts larger images; a figure that fits here fits there
    as well.) *)
Definition renders (figsize : nat * nat) : bool :=
  (pixels (fst figsize) <? 2 ^ 16)%Z && (pixels (snd figsize) <? 2 ^ 16)%Z.

(** [plt.savefig(name, dpi=300, bbox_inches='tight')] on the figure that
    [plt.subplots(..., figsize=figsize)] created: the figure becomes an image
    file of that name, or the renderer raises [ValueError] because the image
    is too large. *)
Definition savefig (name : string) (figsize : nat * nat) (a : axes) : M unit :=
  fun w =>
    if renders figsize then
      (Ok tt, {| disk := (name, Image) :: disk w; accessed := accessed w ++ [name];
                 stdout := stdout w; saved := saved w ++ [(name, a)];
                 current := current w |})
    else (Raise ValueError, w).

(** ** Table operations used by the script *)

(** [df[name]]: the column, or [KeyError] when the table has no such
    column. *)
Definition getitem {A : Type} (df : DataFrame) (name : string) (field : point -> A) : M (list A) :=
  if mem name (columns df) then ret (map field (rows df)) else raise (KeyError name).

(** [l[mask]]: the elements whose mask entry is true. *)
Fixpoint take_masked {A : Type} (mask : list bool) (l : list A) : list A :=
  match mask, l with
  | b :: m, x :: t => if b then x :: take_masked m t else take_masked m t
  | _, _ => []
  end.

(** [df[df[name] == value]]. *)
Definition select (df : DataFrame) (name : string) (field : point -> string) (value : string)
  : M DataFrame :=
  col <- getitem df name field ;;
  ret {| columns := columns df;
         rows := take_masked (map (fun v => String.eqb v value) col) (rows df) |}.

(** [df.iloc[0][name]]. *)
Definition iloc0 {A : Type} (df : DataFrame) (name : string) (field : point -> A) : M A :=
  match rows df with
  | [] => raise IndexError
  | r :: _ => if mem name (columns df) then ret (field r) else raise (KeyError name)
  end.

(** ** Reporter, first part: the data summary (lines 33-38) *)

Definition summary (df : DataFrame) : M unit :=
  enter Reporter ;;
  print SummaryHeader ;;
  print (TotalPoints (length (rows df))) ;;
  ps <- getitem df "participantId" participantId ;;
  print (Participants (unique ps)) ;;
  fs <- getitem df "figure" figure ;;
  print (Figures (unique fs)) ;;
  cs <- getitem df "contactType" contactType ;;
  print (ContactTypes (unique cs)) ;;
  ds <- getitem df "direction" direction ;;
  print (Directions (unique ds)).

(** ** Renderer (lines 40-217) *)

(** [plt.subplots(1, ncols, figsize=...)]: [ncols] blank axes.  One axes and
    an array of axes are both a list here, as after [axes = [axes]]; the size
    of the figure matters when it is saved, and is passed to [savefig]. *)
Definition subplots (ncols : nat) : M axes :=
  if ncols =? 0 then raise ValueError else ret (repeat None ncols).

(** Evaluation of [axes[idx]]. *)
Definition axes_at (a : axes) (idx : nat) : M unit :=
  if idx <? length a then ret tt else raise IndexError.

(** The drawing calls on [axes[idx]] of one loop round, taken together: the
    figure is observed only when it is saved. *)
Fixpoint put (a : axes) (idx : nat) (p : panel) : axes :=
  match a, idx with
  | [], _ => []
  | _ :: t, 0 => Some p :: t
  | x :: t, S i => x :: put t i p
  end.

(** [for idx, value in enumerate(values): body], the axes being the state of
    the loop. *)
Fixpoint for_enumerate (body : axes -> nat -> string -> M axes)
    (idx : nat) (values : list string) (a : axes) : M axes :=
  match values with
  | [] => ret a
  | v :: rest => a' <- body a idx v ;; for_enumerate body (S idx) rest a'
  end.

Definition png (name : string) : string := String.append name ".png".

(** Lines 52-61. *)
Definition figure_background (a : axes) (idx : nat) (image_path : string) : M background :=
  found <- os_path_exists image_path ;;
  if found then
    Image_open image_path ;;
    axes_at a idx ;;
    print (Loaded image_path) ;;
    ret (Picture image_path)
  else
    print (NotFound image_path) ;;
    axes_at a idx ;;
    ret Gray.

(** Lines 118-122 and 176-180. *)
Definition panel_background (a : axes) (idx : nat) (image_path : string) : M background :=
  found <- os_path_exists image_path ;;
  if found then
    Image_open image_path ;;
    axes_at a idx ;;
    ret (Picture image_path)
  else
    axes_at a idx ;;
    ret Gray.

(** Body of the loop of lines 48-102. *)
Definition figure_panel (df : DataFrame) (a : axes) (idx : nat) (fig : string) : M axes :=
  figure_data <- select df "figure" figure fig ;;
  let image_path := png fig in
  bg <- figure_background a idx image_path ;;
  hx <- getitem figure_data "xNorm" xNorm ;;
  hy <- getitem figure_data "yNorm" yNorm ;;
  heatmap <- lift (histogram2d hx hy 15) ;;
  sx <- getitem figure_data "xNorm" xNorm ;;
  sy <- getitem figure_data "yNorm" yNorm ;;
  sc <- getitem figure_data "confidence" confidence ;;
  ret (put a idx {| backdrop := bg; heat := heatmap; scatter_x := sx; scatter_y := sy;
                    scatter_c := ByConfidence sc;
                    caption := FigureTitle fig (length (rows figure_data)) |}).

Definition render_on_figures (df : DataFrame) : M unit :=
  col <- getitem df "figure" figure ;;
  let figures := unique col in
  let num_figures := length figures in
  a <- subplots num_figures ;;
  a' <- for_enumerate (figure_panel df) 0 figures a ;;
  savefig "heatmaps_on_figures.png" (6 * num_figures, 8) a' ;;
  print SavedOnFigures.

(** Body of the loop of lines 112-155. *)
Definition contact_panel (df : DataFrame) (a : axes) (idx : nat) (contact_type : string) : M axes :=
  contact_data <- select df "contactType" contactType contact_type ;;
  first_figure <- iloc0 contact_data "figure" figure ;;
  let image_path := png first_figure in
  bg <- panel_background a idx image_path ;;
  hx <- getitem contact_data "xNorm" xNorm ;;
  hy <- getitem contact_data "yNorm" yNorm ;;
  heatmap <- lift (histogram2d hx hy 12) ;;
  sx <- getitem contact_data "xNorm" xNorm ;;
  sy <- getitem contact_data "yNorm" yNorm ;;
  ret (put a idx {| backdrop := bg; heat := heatmap; scatter_x := sx; scatter_y := sy;
                    scatter_c := Fixed "blue";
                    caption := ContactTitle contact_type (length (rows contact_data)) |}).

Definition render_by_contacttype (df : DataFrame) : M unit :=
  a <- subplots 2 ;;
  col <- getitem df "contactType" contactType ;;
  let contact_types := unique col in
  a' <- for_enumerate (contact_panel df) 0 contact_types a ;;
  savefig "heatmaps_by_contacttype.png" (14, 8) a' ;;
  print SavedByContactType.

(** The fixed vocabulary of lines 165-168. *)
Definition direction_labels : list (string * string) :=
  [("touched_by", "I was touched"); ("touched", "I touched")].

Fixpoint labels_get (d : list (string * string)) (key : string) : option string :=
  match d with
  | [] => None
  | (k, v) :: rest => if String.eqb k key then Some v else labels_get rest key
  end.

(** [direction_labels[direction]]. *)
Definition direction_label (dir : string) : M string :=
  match labels_get direction_labels dir with
  | Some label => ret label
  | None => raise (KeyError dir)
  end.

(** Body of the loop of lines 170-213. *)
Definition direction_panel (df : DataFrame) (a : axes) (idx : nat) (dir : string) : M axes :=
  direction_data <- select df "direction" direction dir ;;
  first_figure <- iloc0 direction_data "figure" figure ;;
  let image_path := png first_figure in
  bg <- panel_background a idx image_path ;;
  hx <- getitem direction_data "xNorm" xNorm ;;
  hy <- getitem direction_data "yNorm" yNorm ;;
  heatmap <- lift (histogram2d hx hy 12) ;;
  sx <- getitem direction_data "xNorm" xNorm ;;
  sy <- getitem direction_data "yNorm" yNorm ;;
  label <- direction_label dir ;;
  ret (put a idx {| backdrop := bg; heat := heatmap; scatter_x := sx; scatter_y := sy;
                    scatter_c := Fixed "red";
                    caption := DirectionTitle label (length (rows direction_data)) |}).

Definition render_by_direction (df : DataFrame) : M unit :=
  a <- subplots 2 ;;
  col <- getitem df "direction" direction ;;
  let directions := unique col in
  a' <- for_enumerate (direction_panel df) 0 directions a ;;
  savefig "heatmaps_by_direction.png" (14, 8) a' ;;
  print SavedByDirection.

Definition render (df : DataFrame) : M unit :=
  enter Renderer ;;
  render_on_figures df ;;
  render_by_contacttype df ;;
  render_by_direction df.

(** ** Reporter, second part: the statistics (lines 219-232) *)

(** [Series.value_counts()], as the number of rows of each distinct value;
    the order in which the counts are displayed is not part of the model. *)
Definition value_counts (col : list string) : list (string * nat) :=
  map (fun v => (v, length (filter (String.eqb v) col))) (unique col).

(** One step of the grouping pass: the row joins the group of its key, a new
    key opens a group at its place in increasing key order. *)
Fixpoint group_insert (key : string) (r : point) (groups : list (string * list point))
  : list (string * list point) :=
  match groups with
  | [] => [(key, [r])]
  | (k, g) :: rest =>
      if String.eqb k key then (k, g ++ [r]) :: rest
      else if String.ltb key k then (key, [r]) :: (k, g) :: rest
      else (k, g) :: group_insert key r rest
  end.

(** [df.groupby(name)]: the groups keyed by the distinct values, in sorted
    key order, each with its rows in table order. *)
Definition groupby (field : point -> string) (rs : list point) : list (string * list point) :=
  fold_left (fun groups r => group_insert (field r) r groups) rs [].

(** One round of the loop of [group_mean] (pandas, [_libs/groupby.pyx]),
    which [mean()] runs over the values of a group in table order: the
    running sum and its compensation (Kahan summation), in binary64.  (Old
    versions of pandas add the values without the compensation.)

    [y = val - compensation; t = sumx + y;
     compensation = t - sumx - y; sumx = t]. *)
Definition group_mean_step (acc : Q * Q) (val : Q) : Q * Q :=
  let sumx := fst acc in
  let compensation := snd acc in
  let y := fsub val compensation in
  let t := fadd sumx y in
  (t, fsub (fsub t sumx) y).

(** [mean()] of the values of a group: [sumx / count] after the loop. *)
Definition mean (l : list Q) : Q :=
  fdiv (fst (fold_left group_mean_step l (0%Q, 0%Q))) (inject_Z (Z.of_nat (length l))).

(** [round(2)] of numpy: the value times 100, rounded to an integer, divided
    by 100, each step in binary64. *)
Definition round2 (q : Q) : Q := fdiv (inject_Z (rint (fmul q 100))) 100.

(** [df.groupby('contactType')['confidence'].mean().round(2)]. *)
Definition mean_confidence_by_contacttype (df : DataFrame) : M (list (string * Q)) :=
  if mem "contactType" (columns df) then
    if mem "confidence" (columns df) then
      ret (map (fun kg => (fst kg, round2 (mean (map confidence (snd kg)))))
               (groupby contactType (rows df)))
    else raise (KeyError "confidence")
  else raise (KeyError "contactType").

Fixpoint for_each (body : string -> M unit) (values : list string) : M unit :=
  match values with
  | [] => ret tt
  | v :: rest => body v ;; for_each body rest
  end.

(** Body of the loop of lines 224-227. *)
Definition report_direction (df : DataFrame) (dir : string) : M unit :=
  label <- direction_label dir ;;
  sub <- select df "direction" direction dir ;;
  print (DirectionCount label (length (rows sub))).

Definition statistics (df : DataFrame) : M unit :=
  enter Reporter ;;
  print StatisticsHeader ;;
  print ContactTypesHeader ;;
  cs <- getitem df "contactType" contactType ;;
  print (ValueCounts (value_counts cs)) ;;
  print DirectionsHeader ;;
  ds <- getitem df "direction" direction ;;
  for_each (report_direction df) (unique ds) ;;
  print AverageHeader ;;
  means <- mean_confidence_by_contacttype df ;;
  print (AverageConfidence means) ;;
  print Complete.

(** ** The script *)

(** Lines 12-16: the argument check. *)
Definition json_file_argument (argv : list string) : M string :=
  if length argv <? 2 then
    match argv with
    | [] => raise IndexError
    | prog :: _ => print (Usage prog) ;; raise (SystemExit 1)
    end
  else
    match nth_error argv 1 with
    | Some path => ret path
    | None => raise IndexError
    end.

Definition main (argv : list string) : M unit :=
  enter Loader ;;
  json_file <- json_file_argument argv ;;
  data <- open_json json_file ;;
  enter Flattener ;;
  points <- lift (flatten data) ;;
  enter Tabulator ;;
  df <- lift (DataFrame_of points) ;;
  summary df ;;
  render df ;;
  statistics df.

(** Exit status of the process: 0 at the end of the script, the code of
    [sys.exit], 1 after an exception that nothing handles. *)
Definition exit_status (r : result unit) : option nat :=
  match r with
  | Ok _ => Some 0
  | Raise (SystemExit code) => Some code
  | Raise _ => Some 1
  | OutOfFormat => None
  end.

(** A world in which nothing has happened yet. *)
Definition fresh (d : list (string * content)) : world :=
  {| disk := d; accessed := []; stdout := []; saved := []; current := Loader |}.

(** ** Reading the report *)

(** The value reported for a key. *)
Fixpoint reported {A : Type} (key : string) (l : list (string * A)) : option A :=
  match l with
  | [] => None
  | (k, v) :: rest => if String.eqb k key then Some v else reported key rest
  end.

(** The mean confidence of a contact type in the words of the specification:
    the arithmetic mean of the confidence of the rows that share the contact
    type, rounded to two decimal places; both in exact arithmetic. *)
Definition rows_sharing (contact_type : string) (rs : list point) : list point :=
  filter (fun r => String.eqb (contactType r) contact_type) rs.

Definition arithmetic_mean (l : list Q) : Q :=
  (fold_right Qplus 0 l / inject_Z (Z.of_nat (length l)))%Q.

Definition rounded_to_2_decimals (q : Q) : Q := (inject_Z (rint (q * 100)) / 100)%Q.

Definition mean_confidence_spec (contact_type : string) (rs : list point) : Q :=
  rounded_to_2_decimals (arithmetic_mean (map confidence (rows_sharing contact_type rs))).

(** ** What a rendering is expected to draw *)

(** The background of a panel for a given state of the disk. *)
Definition backdrop_in (d : list (string * content)) (path : string) : background :=
  match lookup path d with
  | Some _ => Picture path
  | None => Gray
  end.

(** The file accesses of a background: the existence test, and the opening of
    a file that exists. *)
Definition probes (d : list (string * content)) (path : string) : list string :=
  match lookup path d with
  | Some _ => [path; path]
  | None => [path]
  end.

(** A background file is usable when it is absent or an image. *)
Definition usable (d : list (string * content)) (path : string) : bool :=
  match lookup path d with
  | Some (Text _) => false
  | _ => true
  end.

Definition heat_of (sub : list point) (bins : nat) : grid :=
  match histogram2d (map xNorm sub) (map yNorm sub) bins with
  | Ok g => g
  | _ => []
  end.

Definition rows_with (field : point -> string) (value : string) (rs : list point) : list point :=
  filter (fun r => String.eqb (field r) value) rs.

Definition figure_drawing (d : list (string * content)) (rs : list point) (fig : string)
  : option panel :=
  let sub := rows_with figure fig rs in
  Some {| backdrop := backdrop_in d (png fig); heat := heat_of sub 15;
          scatter_x := map xNorm sub; scatter_y := map yNorm sub;
          scatter_c := ByConfidence (map confidence sub);
          caption := FigureTitle fig (length sub) |}.

Definition contact_drawing (d : list (string * content)) (rs : list point) (contact_type : string)
  : option panel :=
  match rows_with contactType contact_type rs with
  | [] => None
  | first_row :: more =>
      let sub := first_row :: more in
      Some {| backdrop := backdrop_in d (png (figure first_row)); heat := heat_of sub 12;
              scatter_x := map xNorm sub; scatter_y := map yNorm sub;
              scatter_c := Fixed "blue";
              caption := ContactTitle contact_type (length sub) |}
  end.

Definition direction_drawing (d : list (string * content)) (rs : list point) (dir : string)
  : option panel :=
  match rows_with direction dir rs, labels_get direction_labels dir with
  | first_row :: more, Some label =>
      let sub := first_row :: more in
      Some {| backdrop := backdrop_in d (png (figure first_row)); heat := heat_of sub 12;
              scatter_x := map xNorm sub; scatter_y := map yNorm sub;
              scatter_c := Fixed "red";
              caption := DirectionTitle label (length sub) |}
  | _, _ => None
  end.

(** The distinct values in order of first occurrence, value by value. *)
Fixpoint first_occurrences (l : list string) : list string :=
  match l with
  | [] => []
  | x :: rest => x :: filter (fun y => negb (String.eqb x y)) (first_occurrences rest)
  end.

(** The parts of the world that drawing a panel leaves alone. *)
Definition quiet (w w' : world) : Prop :=
  disk w' = disk w /\ saved w' = saved w /\ current w' = current w.

(** ** The scenario of the specification

    [{"data": [{"t0": {...}}, null]}]; 0.5 is a binary64 value, and 0.9 is
    read as the binary64 value nearest to it. *)

Definition scenario_point : json :=
  JObj [("participantId", JStr "p1"); ("figure", JStr "arm");
        ("contactType", JStr "pat"); ("direction", JStr "touched");
        ("xNorm", JNum (1 # 2)); ("yNorm", JNum (1 # 2));
        ("confidence", JNum (8106479329266893 # 9007199254740992))].

Definition scenario : json :=
  JObj [("data", JArr [JObj [("t0", scenario_point)]; JNull])].

Definition scenario_row : point :=
  {| participantId := "p1"; figure := "arm"; contactType := "pat"; direction := "touched";
     xNorm := 1 # 2; yNorm := 1 # 2;
     confidence := 8106479329266893 # 9007199254740992 |}.

Definition scenario_table : DataFrame :=
  {| columns := field_names; rows := [scenario_row] |}.

(** Two touches of the same contact type on two figures, the leg first. *)
Definition leg_row : point :=
  {| participantId := "p1"; figure := "leg"; contactType := "pat"; direction := "touched";
     xNorm := 1 # 4; yNorm := 3 # 4; confidence := 1 # 2 |}.

Definition two_figures : DataFrame :=
  {| columns := field_names; rows := [leg_row; scenario_row] |}.

(** Two touches of the same contact type with the confidences 0.25 and 0.9
    (as binary64 values). *)
Definition faint_row : point :=
  {| participantId := "p1"; figure := "arm"; contactType := "pat"; direction := "touched";
     xNorm := 1 # 4; yNorm := 3 # 4; confidence := 1 # 4 |}.

Definition faint_and_firm : DataFrame :=
  {| columns := field_names; rows := [faint_row; scenario_row] |}.

(** A touch whose direction is outside the vocabulary. *)
Definition sideways_point : json :=
  JObj [("participantId", JStr "p1"); ("figure", JStr "arm");
        ("contactType", JStr "pat"); ("direction", JStr "sideways");
        ("xNorm", JNum (1 # 2)); ("yNorm", JNum (1 # 2));
        ("confidence", JNum (1 # 2))].

Definition sideways_row : point :=
  {| participantId := "p1"; figure := "arm"; contactType := "pat"; direction := "sideways";
     xNorm := 1 # 2; yNorm := 1 # 2; confidence := 1 # 2 |}.


Definition sideways_log : json :=
  JObj [("data", JArr [JObj [("t0", sideways_point)]])].

(** A direction of the vocabulary. *)
Definition known_direction (dir : string) : Prop :=
  dir = "touched" \/ dir = "touched_by".

(** ** Where a run can stop *)

(** A computation that stays in the model and leaves the stage and the saved
    figures as they are. *)
Definition sound {A : Type} (m : M A) : Prop :=
  forall w,
    match m w with
    | (OutOfFormat, _) => False
    | (_, w') => current w' = current w /\ saved w' = saved w
    end.

(** A computation that always ends in an exception. *)
Definition stops {A : Type} (m : M A) : Prop :=
  forall w, exists e w',
    m w = (Raise e, w') /\ current w' = current w /\ saved w' = saved w.

(** A computation that saves one figure under [name], at its end. *)
Definition saves (name : string) (m : M unit) : Prop :=
  forall w,
    match m w with
    | (OutOfFormat, _) => False
    | (Ok _, w') => current w' = current w /\ exists a, saved w' = saved w ++ [(name, a)]
    | (Raise _, w') => current w' = current w /\ saved w' = saved w
    end.

(** ** Auxiliary notions of the proofs *)

(** The world after the usage message. *)
Definition with_usage (prog : string) (w : world) : world :=
  {| disk := disk w; accessed := accessed w; stdout := stdout w ++ [Usage prog];
     saved := saved w; current := Loader |}.

(** A bin number of the grid proper, not an outlier bin. *)
Definition in_bins (n i : nat) : bool := (1 <=? i) && (i <=? n).

(** Groups in increasing key order. *)
Definition key_lt (a b : string * list point) : Prop :=
  String_as_OT.lt (fst a) (fst b).

(** The rows of the group of a key, none when the key has no group. *)
Definition group_of (key : string) (groups : list (string * list point)) : list point :=
  match reported key groups with
  | Some g => g
  | None => []
  end.

(** ** Notions used by the further properties *)

(** The world after some more lines have been printed. *)
Definition printed (ls : list line) (w : world) : world :=
  {| disk := disk w; accessed := accessed w; stdout := stdout w ++ ls;
     saved := saved w; current := current w |}.

(** The world in a given stage. *)
Definition at_stage (s : stage) (w : world) : world :=
  {| disk := disk w; accessed := accessed w; stdout := stdout w;
     saved := saved w; current := s |}.

(** The three output files, in the order in which they are written. *)
Definition output_names : list string :=
  ["heatmaps_on_figures.png"; "heatmaps_by_contacttype.png"; "heatmaps_by_direction.png"].

(** The label of a direction of the vocabulary. *)
Definition label_of (dir : string) : string :=
  match labels_get direction_labels dir with
  | Some label => label
  | None => ""
  end.

(** The line of the statistics for one direction. *)
Definition direction_line (rs : list point) (dir : string) : line :=
  DirectionCount (label_of dir) (length (rows_with direction dir rs)).

(** Edge [k] of the [bins] bins of [[0,1]], as [linspace01] computes it. *)
Definition edge (bins k : nat) : Q := nth k (linspace01 bins) 1%Q.

(** The value [v] lies in the bin [i] (counted from 0) of the [bins] bins of
    [[0,1]]: from edge [i] on and below edge [i + 1], the last bin holding
    the value 1 as well. *)
Definition in_cell (bins i : nat) (v : Q) : bool :=
  (Qle_bool (edge bins i) v && negb (Qle_bool (edge bins (S i)) v))
  || ((S i =? bins) && Qeq_bool v 1).

(** Cell [(i, j)] of a grid, counted from 0. *)
Definition cell (g : grid) (i j : nat) : nat := nth j (nth i g []) 0.

(** The means of the report, as a value. *)
Definition confidence_means (rs : list point) : list (string * Q) :=
  map (fun kg => (fst kg, round2 (mean (map confidence (snd kg))))) (groupby contactType rs).

(** The lines of the statistics up to the directions. *)
Definition statistics_head (rs : list point) : list line :=
  [StatisticsHeader; ContactTypesHeader; ValueCounts (value_counts (map contactType rs));
   DirectionsHeader].

(** A table in which a touch "touched" is followed by one "sideways". *)
Definition mixed_directions : DataFrame :=
  {| columns := field_names; rows := [scenario_row; sideways_row] |}.

(** A computation that saves no figure and leaves the disk as it is. *)
Definition inert {A : Type} (m : M A) : Prop :=
  forall w, saved (snd (m w)) = saved w /\ disk (snd (m w)) = disk w.

(** The files of some figures, the last written first. *)
Definition files_of (figs : list (string * axes)) : list (string * content) :=
  rev (map (fun f => (fst f, Image)) figs).

(** A computation that writes figures under the given names, in their
    order, and nothing else: all of them when it returns, the first ones when
    it stops. *)
Definition writes {A : Type} (names : list string) (m : M A) : Prop :=
  forall w, exists figs,
    saved (snd (m w)) = saved w ++ figs /\
    disk (snd (m w)) = files_of figs ++ disk w /\
    (exists rest, map fst figs ++ rest = names) /\
    (forall a, fst (m w) = Ok a -> map fst figs = names).




(** A computation that only adds lines to the output. *)
Definition grows {A : Type} (m : M A) : Prop :=
  forall w, exists ls, stdout (snd (m w)) = stdout w ++ ls.

(** Three touches of three contact types. *)
Definition touch_of_type (c : string) : point :=
  {| participantId := "p1"; figure := "arm"; contactType := c; direction := "touched";
     xNorm := 1 # 2; yNorm := 1 # 2; confidence := 1 # 2 |}.

Definition three_contacts : DataFrame :=
  {| columns := field_names;
     rows := [touch_of_type "pat"; touch_of_type "stroke"; touch_of_type "grab"] |}.

(** * Properties *)

(** ** Flattener *)

Lemma append_points_spec (members : list (string * json)) :
  forall points, append_points points members = points ++ map snd members.
Proof.
  unfold append_points.
  induction members as [|[k v] ms IH]; intro points; simpl.
  - now rewrite app_nil_r.
  - rewrite IH. now rewrite <- app_assoc.
Qed.

Lemma flatten_loop_valid (entries : list json) :
  Forall valid_entry entries ->
  forall points,
    flatten_loop entries points = Ok (points ++ flat_map participant_points entries).
Proof.
  induction 1 as [|j js Hj _ IH]; intro points; simpl.
  - now rewrite app_nil_r.
  - destruct Hj as [-> | [ms ->]]; simpl.
    + apply IH.
    + rewrite IH, append_points_spec. now rewrite <- app_assoc.
Qed.

Lemma length_flat_map_points (entries : list json) :
  length (flat_map participant_points entries) = sum_nat (map timestamp_count entries).
Proof.
  induction entries as [|j js IH]; simpl; [reflexivity|].
  rewrite length_app, IH. f_equal.
  destruct j; simpl; try reflexivity. apply length_map.
Qed.

(** C1. For an input whose ['data'] value is a sequence of entries, each null
    or a map from timestamps to points, the Flattener raises nothing, skips
    the null entries and emits one record per (timestamp, point) pair of the
    other entries, in order; so the number of records is the sum over the
    participants of the number of their timestamp entries. *)
Theorem flatten_record_count (members : list (string * json)) (entries : list json) :
  dict_get "data" members = Some (JArr entries) ->
  Forall valid_entry entries ->
  exists points,
    flatten (JObj members) = Ok points /\
    points = flat_map participant_points entries /\
    length points = sum_nat (map timestamp_count entries).
Proof.
  intros Hdata Hvalid.
  exists (flat_map participant_points entries).
  split; [|split]; [|reflexivity|apply length_flat_map_points].
  unfold flatten, subscript_data. rewrite Hdata. simpl.
  now rewrite (flatten_loop_valid entries Hvalid []).
Qed.

Lemma flatten_record_count_witness :
  exists points,
    flatten scenario = Ok points /\
    points = flat_map participant_points [JObj [("t0", scenario_point)]; JNull] /\
    length points = sum_nat (map timestamp_count [JObj [("t0", scenario_point)]; JNull]).
Proof.
  apply (flatten_record_count
           [("data", JArr [JObj [("t0", scenario_point)]; JNull])]
           [JObj [("t0", scenario_point)]; JNull]).
  - reflexivity.
  - apply Forall_cons.
    + right. now exists [("t0", scenario_point)].
    + apply Forall_cons; [now left | apply Forall_nil].
Defined.

(** An entry that is neither null nor a map stops the Flattener. *)
Example flatten_rejects_number :
  flatten (JObj [("data", JArr [JNull; JNum 1])]) = Raise AttributeError.
Proof. reflexivity. Qed.

(** ** The scenario, end to end *)

(** C5. On the scenario the Flattener yields exactly one record, the
    Tabulator makes a one-row table of it whose [figure] column has the
    unique values ["arm"], and the Aggregator with one bin yields the 1x1
    grid holding 1. *)
Theorem scenario_end_to_end :
  flatten scenario = Ok [scenario_point] /\
  DataFrame_of [scenario_point] = Ok scenario_table /\
  (forall w, (col <- getitem scenario_table "figure" figure ;; ret (unique col)) w
             = (Ok ["arm"], w)) /\
  histogram2d (map xNorm (rows scenario_table)) (map yNorm (rows scenario_table)) 1
    = Ok [[1]].
Proof.
  split; [reflexivity|]. split; [reflexivity|]. split; [|reflexivity].
  intro w. reflexivity.
Qed.

(** ** Loader and argument check *)

Lemma main_no_argument (prog : string) (w : world) :
  main [prog] w = (Raise (SystemExit 1), with_usage prog w).
Proof. reflexivity. Qed.

Lemma main_opens_argument (prog path : string) (rest : list string) (w : world) :
  main (prog :: path :: rest) w =
  (data <- open_json path ;;
   enter Flattener ;;
   points <- lift (flatten data) ;;
   enter Tabulator ;;
   df <- lift (DataFrame_of points) ;;
   summary df ;;
   render df ;;
   statistics df)
    {| disk := disk w; accessed := accessed w; stdout := stdout w;
       saved := saved w; current := Loader |}.
Proof. reflexivity. Qed.

Lemma main_file_missing (prog path : string) (rest : list string) (w : world) :
  lookup path (disk w) = None ->
  main (prog :: path :: rest) w =
  (Raise (FileNotFoundError path),
   {| disk := disk w; accessed := accessed w ++ [path]; stdout := stdout w;
      saved := saved w; current := Loader |}).
Proof.
  intro H. rewrite main_opens_argument.
  unfold bind at 1. unfold open_json. simpl. now rewrite H.
Qed.

Lemma main_file_malformed (prog path : string) (rest : list string) (w : world) :
  lookup path (disk w) = Some (Text None) ->
  main (prog :: path :: rest) w =
  (Raise JSONDecodeError,
   {| disk := disk w; accessed := accessed w ++ [path]; stdout := stdout w;
      saved := saved w; current := Loader |}).
Proof.
  intro H. rewrite main_opens_argument.
  unfold bind at 1. unfold open_json. simpl. now rewrite H.
Qed.

(** C8. Without a file-path argument the script prints the usage message and
    exits with code 1, and no file has been touched; with the argument, a
    missing file or a file that is not well-formed JSON raises an exception
    in the Loader that nothing handles: the run ends there with a failure
    status, nothing more printed and no figure saved. *)
Theorem usage_or_unhandled_load_error (prog path : string) (rest : list string) (w : world) :
  (let (r, w') := main [prog] w in
   r = Raise (SystemExit 1) /\ exit_status r = Some 1 /\
   stdout w' = stdout w ++ [Usage prog] /\
   accessed w' = accessed w /\ disk w' = disk w /\ saved w' = saved w) /\
  (lookup path (disk w) = None ->
   let (r, w') := main (prog :: path :: rest) w in
   r = Raise (FileNotFoundError path) /\ exit_status r = Some 1 /\
   current w' = Loader /\ stdout w' = stdout w /\ saved w' = saved w) /\
  (lookup path (disk w) = Some (Text None) ->
   let (r, w') := main (prog :: path :: rest) w in
   r = Raise JSONDecodeError /\ exit_status r = Some 1 /\
   current w' = Loader /\ stdout w' = stdout w /\ saved w' = saved w).
Proof.
  split; [|split].
  - rewrite main_no_argument. simpl. repeat split.
  - intro H. rewrite (main_file_missing _ _ _ _ H). simpl. repeat split.
  - intro H. rewrite (main_file_malformed _ _ _ _ H). simpl. repeat split.
Qed.

Lemma usage_or_unhandled_load_error_witness :
  (let (r, w') := main ["parse_bodymap.py"; "log.json"] (fresh []) in
   r = Raise (FileNotFoundError "log.json") /\ exit_status r = Some 1 /\
   current w' = Loader /\ stdout w' = [] /\ saved w' = []) /\
  (let (r, w') := main ["parse_bodymap.py"; "log.json"] (fresh [("log.json", Text None)]) in
   r = Raise JSONDecodeError /\ exit_status r = Some 1 /\
   current w' = Loader /\ stdout w' = [] /\ saved w' = []).
Proof.
  split.
  - apply (usage_or_unhandled_load_error "parse_bodymap.py" "log.json" [] (fresh [])).
    reflexivity.
  - apply (usage_or_unhandled_load_error "parse_bodymap.py" "log.json" []
             (fresh [("log.json", Text None)])).
    reflexivity.
Defined.

(** ** The empty table *)

Lemma flatten_loop_all_null (entries : list json) (points : list json) :
  Forall (eq JNull) entries -> flatten_loop entries points = Ok points.
Proof.
  induction 1 as [|j js Hj _ IH]; simpl; [reflexivity|].
  now subst j.
Qed.

(** C9. When every participant entry is null, or there is none, the run stops
    with a [KeyError] on the [participantId] column in the data summary of
    the Reporter, after the header and the total of 0 points; no figure has
    been saved and no file written. *)
Theorem empty_table_aborts (prog path : string) (rest : list string) (w : world)
    (members : list (string * json)) (entries : list json) :
  lookup path (disk w) = Some (Text (Some (JObj members))) ->
  dict_get "data" members = Some (JArr entries) ->
  Forall (eq JNull) entries ->
  exists w',
    main (prog :: path :: rest) w = (Raise (KeyError "participantId"), w') /\
    current w' = Reporter /\
    stdout w' = stdout w ++ [SummaryHeader; TotalPoints 0] /\
    saved w' = saved w /\ disk w' = disk w.
Proof.
  intros Hfile Hdata Hnull.
  rewrite main_opens_argument.
  unfold bind at 1. unfold open_json. simpl. rewrite Hfile.
  unfold bind at 1. simpl.
  unfold bind at 1. unfold lift, flatten, subscript_data. rewrite Hdata. simpl.
  rewrite (flatten_loop_all_null entries [] Hnull).
  eexists. split; [reflexivity|]. simpl.
  rewrite <- app_assoc. repeat split.
Qed.

Lemma empty_table_aborts_witness :
  exists w',
    main ["parse_bodymap.py"; "log.json"]
         (fresh [("log.json", Text (Some (JObj [("data", JArr [JNull; JNull])])))])
    = (Raise (KeyError "participantId"), w') /\
    current w' = Reporter /\
    stdout w' = [] ++ [SummaryHeader; TotalPoints 0] /\
    saved w' = [] /\
    disk w' = [("log.json", Text (Some (JObj [("data", JArr [JNull; JNull])])))].
Proof.
  apply (empty_table_aborts "parse_bodymap.py" "log.json" []
           (fresh [("log.json", Text (Some (JObj [("data", JArr [JNull; JNull])])))])
           [("data", JArr [JNull; JNull])] [JNull; JNull]).
  - reflexivity.
  - reflexivity.
  - repeat constructor.
Defined.

(** ** Binary64 rounding *)

Section Binary64.

Local Open Scope Q_scope.

(** [rint] is one of the two integers next to its argument, at distance at
    most one half. *)
Lemma rint_near (q : Q) :
  (inject_Z (rint q) - (1 # 2) <= q) /\ (q <= inject_Z (rint q) + (1 # 2)).
Proof.
  destruct q as [n d]. unfold rint. cbn [Qnum Qden].
  pose proof (Z.div_mod n (Zpos d) ltac:(discriminate)) as Hdm.
  pose proof (Z.mod_pos_bound n (Zpos d) ltac:(reflexivity)) as Hr.
  set (lo := (n / Zpos d)%Z) in *. set (r := (n mod Zpos d)%Z) in *.
  clearbody lo r.
  assert (Hlo : forall z : Z,
             ((2 * z - 1) * Zpos d <= 2 * n)%Z -> (2 * n <= (2 * z + 1) * Zpos d)%Z ->
             (inject_Z z - (1 # 2) <= n # d) /\ (n # d <= inject_Z z + (1 # 2))).
  { intros z H1 H2. unfold Qle, Qminus, Qplus, Qopp, inject_Z. cbn [Qnum Qden].
    split; lia. }
  destruct (2 * r ?= Zpos d)%Z eqn:E.
  - apply Z.compare_eq in E.
    destruct (Z.even lo); apply Hlo; nia.
  - rewrite Z.compare_lt_iff in E. apply Hlo; nia.
  - rewrite Z.compare_gt_iff in E. apply Hlo; nia.
Qed.

Lemma rint_between (a b : Z) (q : Q) :
  (inject_Z a <= q) -> (q <= inject_Z b) -> (a <= rint q <= b)%Z.
Proof.
  destruct q as [n d]. unfold Qle, inject_Z. cbn [Qnum Qden]. intros Ha Hb.
  unfold rint. cbn [Qnum Qden].
  pose proof (Z.div_mod n (Zpos d) ltac:(discriminate)) as Hdm.
  pose proof (Z.mod_pos_bound n (Zpos d) ltac:(reflexivity)) as Hr.
  set (lo := (n / Zpos d)%Z) in *. set (r := (n mod Zpos d)%Z) in *.
  clearbody lo r.
  assert (Hlo : (a <= lo)%Z) by nia.
  assert (Hhi : (lo <= b)%Z) by nia.
  assert (Htop : (lo = b -> r = 0)%Z) by nia.
  destruct (2 * r ?= Zpos d)%Z eqn:E.
  - apply Z.compare_eq in E. destruct (Z.even lo); [lia|].
    assert (lo <> b) by (intro H; specialize (Htop H); lia). lia.
  - rewrite Z.compare_lt_iff in E. lia.
  - rewrite Z.compare_gt_iff in E.
    assert (lo <> b) by (intro H; specialize (Htop H); lia). lia.
Qed.

Lemma two_neq_0 : ~ 2 == 0.
Proof. discriminate. Qed.

Lemma pow2_pos (e : Z) : 0 < 2 ^ e.
Proof. apply Qpower_0_lt. reflexivity. Qed.

Lemma pow2_succ (e : Z) : 2 ^ (e + 1) == 2 * 2 ^ e.
Proof. rewrite Qpower_plus by exact two_neq_0. change (2 ^ 1) with 2. ring. Qed.

Lemma pow2_pred (e : Z) : 2 ^ (e - 1) == 2 ^ e / 2.
Proof. rewrite Qpower_minus by exact two_neq_0. reflexivity. Qed.

Lemma pow2_Z (a : Z) : (0 <= a)%Z -> 2 ^ a == inject_Z (2 ^ a).
Proof. intro H. rewrite Zpower_Qpower by exact H. reflexivity. Qed.

(** [floor_log2] is the exponent of a positive rational. *)
Lemma floor_log2_spec (q : Q) :
  0 < q -> 2 ^ floor_log2 q <= q /\ q < 2 ^ (floor_log2 q + 1).
Proof.
  intro Hq. unfold floor_log2.
  destruct q as [n d]. cbn [Qnum Qden].
  assert (Hn : (0 < n)%Z) by (unfold Qlt in Hq; cbn in Hq; lia).
  pose proof (Z.log2_spec n Hn) as [Hn1 Hn2].
  pose proof (Z.log2_spec (Zpos d) ltac:(reflexivity)) as [Hd1 Hd2].
  pose proof (Z.log2_nonneg n) as Hln. pose proof (Z.log2_nonneg (Zpos d)) as Hld.
  rewrite Z.pow_succ_r in Hn2, Hd2 by assumption.
  set (ln := Z.log2 n) in *. set (ld := Z.log2 (Zpos d)) in *.
  assert (HA : (0 < 2 ^ ln)%Z) by (apply Z.pow_pos_nonneg; lia).
  assert (HB : (0 < 2 ^ ld)%Z) by (apply Z.pow_pos_nonneg; lia).
  assert (Hp : 2 ^ (ln - ld) == inject_Z (2 ^ ln) / inject_Z (2 ^ ld)).
  { rewrite Qpower_minus by exact two_neq_0. now rewrite !pow2_Z by assumption. }
  set (A := (2 ^ ln)%Z) in *. set (B := (2 ^ ld)%Z) in *. clearbody A B.
  assert (HBq : 0 < inject_Z B) by (rewrite <- (Zlt_Qlt 0); exact HB).
  assert (Hdq : 0 < inject_Z (Zpos d)) by reflexivity.
  assert (Hq' : n # d == inject_Z n / inject_Z (Zpos d)) by apply Qmake_Qdiv.
  destruct (Qle_bool (2 ^ (ln - ld)) (n # d)) eqn:E.
  - apply Qle_bool_iff in E. split; [exact E|].
    rewrite pow2_succ, Hp, Hq'.
    apply Qlt_shift_div_r; [exact Hdq|].
    setoid_replace (2 * (inject_Z A / inject_Z B) * inject_Z (Zpos d))
      with ((2 * inject_Z A * inject_Z (Zpos d)) / inject_Z B)
      by (field; intro H; rewrite H in HBq; discriminate).
    apply Qlt_shift_div_l; [exact HBq|].
    change 2 with (inject_Z 2). rewrite <- !inject_Z_mult. rewrite <- Zlt_Qlt. nia.
  - split.
    + rewrite pow2_pred, Hp, Hq'.
      apply Qle_shift_div_l; [exact Hdq|].
      setoid_replace (inject_Z A / inject_Z B / 2 * inject_Z (Zpos d))
        with ((inject_Z A * inject_Z (Zpos d)) / (2 * inject_Z B))
        by (field; intro H; rewrite H in HBq; discriminate).
      apply Qle_shift_div_r; [lra|].
      change 2 with (inject_Z 2). rewrite <- !inject_Z_mult. rewrite <- Zle_Qle. nia.
    + replace (ln - ld - 1 + 1)%Z with (ln - ld)%Z by lia.
      apply Qnot_le_lt. intro H. apply Qle_bool_iff in H. congruence.
Qed.

Lemma fl64_zero (q : Q) : q == 0 -> fl64 q = 0.
Proof. intro H. unfold fl64. apply Qeq_bool_iff in H. now rewrite H. Qed.

Lemma fl64_rounds (q : Q) :
  ~ q == 0 ->
  fl64 q == inject_Z (rint (q / 2 ^ (floor_log2 (Qabs q) - 52))) * 2 ^ (floor_log2 (Qabs q) - 52).
Proof.
  intro H. unfold fl64.
  destruct (Qeq_bool q 0) eqn:E; [apply Qeq_bool_iff in E; contradiction|].
  apply Qred_correct.
Qed.

Lemma fl64_nonneg (q : Q) : 0 <= q -> 0 <= fl64 q.
Proof.
  intro Hq. destruct (Qeq_dec q 0) as [H0|H0].
  - rewrite (fl64_zero q H0). apply Qle_refl.
  - rewrite (fl64_rounds q H0).
    set (u := 2 ^ (floor_log2 (Qabs q) - 52)).
    assert (Hu : 0 < u) by apply pow2_pos.
    apply Qmult_le_0_compat; [|now apply Qlt_le_weak].
    change 0 with (inject_Z 0). rewrite <- Zle_Qle.
    assert (Hz : 0 <= q / u).
    { apply Qle_shift_div_l; [exact Hu|]. lra. }
    assert (Hbig : q / u <= inject_Z (rint (q / u) + 1)).
    { destruct (rint_near (q / u)) as [_ H2]. rewrite inject_Z_plus.
      change (inject_Z 1) with 1. lra. }
    destruct (rint_between 0 (rint (q / u) + 1) (q / u) Hz Hbig) as [H _]. exact H.
Qed.

(** Rounding raises a positive value by one part in [2^53] at most. *)
Lemma fl64_upper (q : Q) : 0 < q -> fl64 q <= q * (1 + 2 ^ (-53)).
Proof.
  intro Hq.
  assert (H0 : ~ q == 0) by (intro H; rewrite H in Hq; discriminate).
  rewrite (fl64_rounds q H0).
  assert (Habs : Qabs q == q) by (apply Qabs_pos; now apply Qlt_le_weak).
  destruct (floor_log2_spec (Qabs q)) as [He _]; [now rewrite Habs|].
  rewrite Habs in He at 2.
  set (e := floor_log2 (Qabs q)) in *.
  assert (Hu : 0 < 2 ^ (e - 52)) by apply pow2_pos.
  assert (Hsplit : 2 ^ e == 2 ^ (e - 52) * 2 ^ 52).
  { rewrite <- Qpower_plus by exact two_neq_0. now replace (e - 52 + 52)%Z with e by lia. }
  set (u := 2 ^ (e - 52)) in *.
  destruct (rint_near (q / u)) as [H2 _].
  assert (H3 : inject_Z (rint (q / u)) * u <= q + u * (1 # 2)).
  { setoid_replace (q + u * (1 # 2)) with ((q / u + (1 # 2)) * u)
      by (field; intro H; rewrite H in Hu; discriminate).
    apply Qmult_le_compat_r; [lra | now apply Qlt_le_weak]. }
  assert (H4 : u * 2 ^ 52 <= q) by (rewrite <- Hsplit; exact He).
  change (2 ^ 52) with (inject_Z 4503599627370496) in H4.
  change (2 ^ (-53)) with (1 # 9007199254740992).
  unfold inject_Z in H4. lra.
Qed.

(** A value below the midpoint of 1 and the next binary64 value rounds to 1
    at most. *)
Lemma fl64_below_one (q : Q) : 0 <= q -> q < 1 + 2 ^ (-53) -> fl64 q <= 1.
Proof.
  intros Hq Hlt. destruct (Qeq_dec q 0) as [H0|H0].
  - rewrite (fl64_zero q H0). discriminate.
  - assert (Hpos : 0 < q).
    { apply Qnot_le_lt. intro H. apply H0. now apply Qle_antisym. }
    rewrite (fl64_rounds q H0).
    assert (Habs : Qabs q == q) by (apply Qabs_pos; exact Hq).
    destruct (floor_log2_spec (Qabs q)) as [He1 He2]; [now rewrite Habs|].
    rewrite Habs in He1 at 2. rewrite Habs in He2 at 1.
    set (e := floor_log2 (Qabs q)) in *.
    assert (Hu : 0 < 2 ^ (e - 52)) by apply pow2_pos.
    assert (Hsplit : 2 ^ (e + 1) == 2 ^ (e - 52) * 2 ^ 53).
    { rewrite <- Qpower_plus by exact two_neq_0.
      now replace (e - 52 + 53)%Z with (e + 1)%Z by lia. }
    assert (Hle : (e <= 0)%Z).
    { assert (H : 2 ^ e < 2 ^ 1).
      { eapply Qle_lt_trans; [exact He1|].
        change (2 ^ (-53)) with (1 # 9007199254740992) in Hlt.
        change (2 ^ 1) with 2. lra. }
      apply Qpower_lt_compat_l_inv in H; [lia | reflexivity]. }
    destruct (Z.eq_dec e 0) as [E|E].
    + rewrite E in *. change (2 ^ (0 - 52)) with (1 # 4503599627370496) in *.
      change (2 ^ (-53)) with (1 # 9007199254740992) in Hlt.
      set (y := q / (1 # 4503599627370496)).
      assert (Hy : y == q * 4503599627370496) by (unfold y; field).
      destruct (rint_near y) as [H1 _].
      assert (Hz : (rint y < 4503599627370496 + 1)%Z).
      { rewrite Zlt_Qlt. rewrite inject_Z_plus.
        change (inject_Z 4503599627370496) with 4503599627370496.
        change (inject_Z 1) with 1. lra. }
      assert (Hz' : inject_Z (rint y) <= 4503599627370496).
      { change 4503599627370496 with (inject_Z 4503599627370496). rewrite <- Zle_Qle. lia. }
      lra.
    + set (u := 2 ^ (e - 52)) in *.
      assert (Hy : q / u <= inject_Z 9007199254740992).
      { apply Qle_shift_div_r; [exact Hu|].
        change (inject_Z 9007199254740992) with (2 ^ 53).
        rewrite Qmult_comm, <- Hsplit. now apply Qlt_le_weak. }
      assert (Hy0 : inject_Z 0 <= q / u).
      { apply Qle_shift_div_l; [exact Hu|]. change (inject_Z 0) with 0. lra. }
      destruct (rint_between 0 9007199254740992 (q / u) Hy0 Hy) as [_ Hz].
      rewrite Zle_Qle in Hz.
      assert (Hpow : 2 ^ (e + 1) <= 2 ^ 0).
      { apply Qpower_le_compat_l; [lia | discriminate]. }
      change (2 ^ 0) with 1 in Hpow.
      apply Qle_trans with (inject_Z 9007199254740992 * u).
      * apply Qmult_le_compat_r; [exact Hz | now apply Qlt_le_weak].
      * change (inject_Z 9007199254740992) with (2 ^ 53).
        rewrite Qmult_comm, <- Hsplit. exact Hpow.
Qed.

(** On a tie [rint] takes the even integer. *)
Lemma rint_tie_even (q : Q) :
  q == inject_Z (rint q) + (1 # 2) \/ q == inject_Z (rint q) - (1 # 2) ->
  Z.even (rint q) = true.
Proof.
  destruct q as [n d]. unfold rint. cbn [Qnum Qden].
  pose proof (Z.div_mod n (Zpos d) ltac:(discriminate)) as Hdm.
  pose proof (Z.mod_pos_bound n (Zpos d) ltac:(reflexivity)) as Hr.
  set (lo := (n / Zpos d)%Z) in *. set (r := (n mod Zpos d)%Z) in *.
  clearbody lo r.
  assert (Hq : forall z : Z,
             n # d == inject_Z z + (1 # 2) \/ n # d == inject_Z z - (1 # 2) ->
             (2 * n = (2 * z + 1) * Zpos d \/ 2 * n = (2 * z - 1) * Zpos d)%Z).
  { intros z [H | H]; unfold Qeq, Qminus, Qplus, Qopp, inject_Z in H; cbn [Qnum Qden] in H;
      [left | right]; lia. }
  destruct (2 * r ?= Zpos d)%Z eqn:E.
  - apply Z.compare_eq in E. intros _.
    destruct (Z.even lo) eqn:Ev; [exact Ev|].
    rewrite Z.even_add, Ev. reflexivity.
  - rewrite Z.compare_lt_iff in E. intro H. apply Hq in H. exfalso. nia.
  - rewrite Z.compare_gt_iff in E. intro H. apply Hq in H. exfalso. nia.
Qed.

Lemma rint_mono (a b : Q) : a <= b -> (rint a <= rint b)%Z.
Proof.
  intro Hab.
  destruct (rint_near a) as [Ha1 Ha2], (rint_near b) as [Hb1 Hb2].
  destruct (Z_le_gt_dec (rint a) (rint b)) as [H | H]; [exact H | exfalso].
  assert (Hz : (rint b + 1 <= rint a)%Z) by lia.
  rewrite Zle_Qle, inject_Z_plus in Hz. change (inject_Z 1) with 1 in Hz.
  assert (Ea : a == inject_Z (rint a) - (1 # 2)) by lra.
  assert (Eb : b == inject_Z (rint b) + (1 # 2)) by lra.
  assert (Ez : inject_Z (rint a) == inject_Z (rint b) + 1) by lra.
  pose proof (rint_tie_even a (or_intror Ea)) as Eva.
  pose proof (rint_tie_even b (or_introl Eb)) as Evb.
  change 1 with (inject_Z 1) in Ez. rewrite <- inject_Z_plus in Ez.
  apply (proj1 (inject_Z_injective _ _)) in Ez. rewrite Ez in Eva.
  rewrite Z.even_add, Evb in Eva. discriminate.
Qed.

(** A positive value rounds into the closed binade it lies in. *)
Lemma fl64_binade (q : Q) :
  0 < q ->
  2 ^ floor_log2 (Qabs q) <= fl64 q /\ fl64 q <= 2 ^ (floor_log2 (Qabs q) + 1).
Proof.
  intro Hq.
  assert (H0 : ~ q == 0) by (intro H; rewrite H in Hq; discriminate).
  rewrite (fl64_rounds q H0).
  assert (Habs : Qabs q == q) by (apply Qabs_pos; now apply Qlt_le_weak).
  destruct (floor_log2_spec (Qabs q)) as [He1 He2]; [now rewrite Habs|].
  rewrite Habs in He1 at 2. rewrite Habs in He2 at 1.
  set (e := floor_log2 (Qabs q)) in *.
  assert (Hu : 0 < 2 ^ (e - 52)) by apply pow2_pos.
  assert (Hlo : 2 ^ e == 2 ^ (e - 52) * 2 ^ 52).
  { rewrite <- Qpower_plus by exact two_neq_0. now replace (e - 52 + 52)%Z with e by lia. }
  assert (Hhi : 2 ^ (e + 1) == 2 ^ (e - 52) * 2 ^ 53).
  { rewrite <- Qpower_plus by exact two_neq_0.
    now replace (e - 52 + 53)%Z with (e + 1)%Z by lia. }
  set (u := 2 ^ (e - 52)) in *.
  assert (Hy1 : inject_Z 4503599627370496 <= q / u).
  { apply Qle_shift_div_l; [exact Hu|].
    change (inject_Z 4503599627370496) with (2 ^ 52).
    rewrite Qmult_comm, <- Hlo. exact He1. }
  assert (Hy2 : q / u <= inject_Z 9007199254740992).
  { apply Qle_shift_div_r; [exact Hu|].
    change (inject_Z 9007199254740992) with (2 ^ 53).
    rewrite Qmult_comm, <- Hhi. now apply Qlt_le_weak. }
  destruct (rint_between _ _ _ Hy1 Hy2) as [Hz1 Hz2].
  rewrite Zle_Qle in Hz1, Hz2. split.
  - rewrite Hlo, (Qmult_comm u). apply Qmult_le_compat_r; [exact Hz1 | now apply Qlt_le_weak].
  - rewrite Hhi, (Qmult_comm u). apply Qmult_le_compat_r; [exact Hz2 | now apply Qlt_le_weak].
Qed.

(** Rounding keeps the order of non-negative values. *)
Lemma fl64_mono (a b : Q) : 0 <= a -> a <= b -> fl64 a <= fl64 b.
Proof.
  intros Ha Hab.
  destruct (Qeq_dec a 0) as [Ea | Ea].
  - rewrite (fl64_zero a Ea). apply fl64_nonneg. lra.
  - assert (Hapos : 0 < a).
    { apply Qnot_le_lt. intro H. apply Ea. now apply Qle_antisym. }
    assert (Hbpos : 0 < b) by lra.
    assert (Eb : ~ b == 0) by (intro H; rewrite H in Hbpos; discriminate).
    assert (Haabs : Qabs a == a) by (apply Qabs_pos; lra).
    assert (Hbabs : Qabs b == b) by (apply Qabs_pos; lra).
    destruct (floor_log2_spec (Qabs a)) as [Ha1 Ha2]; [now rewrite Haabs|].
    destruct (floor_log2_spec (Qabs b)) as [Hb1 Hb2]; [now rewrite Hbabs|].
    rewrite Haabs in Ha1 at 2. rewrite Haabs in Ha2 at 1.
    rewrite Hbabs in Hb1 at 2. rewrite Hbabs in Hb2 at 1.
    assert (Hle : (floor_log2 (Qabs a) <= floor_log2 (Qabs b))%Z).
    { assert (H : 2 ^ floor_log2 (Qabs a) < 2 ^ (floor_log2 (Qabs b) + 1)) by lra.
      apply Qpower_lt_compat_l_inv in H; [lia | reflexivity]. }
    destruct (Z.eq_dec (floor_log2 (Qabs a)) (floor_log2 (Qabs b))) as [E | E].
    + rewrite (fl64_rounds a Ea), (fl64_rounds b Eb), E.
      set (u := 2 ^ (floor_log2 (Qabs b) - 52)).
      assert (Hu : 0 < u) by apply pow2_pos.
      apply Qmult_le_compat_r; [|now apply Qlt_le_weak].
      rewrite <- Zle_Qle. apply rint_mono.
      apply Qmult_le_compat_r; [exact Hab|].
      apply Qlt_le_weak, Qinv_lt_0_compat, Hu.
    + destruct (fl64_binade a Hapos) as [_ H1], (fl64_binade b Hbpos) as [H2 _].
      assert (Hpow : 2 ^ (floor_log2 (Qabs a) + 1) <= 2 ^ floor_log2 (Qabs b)).
      { apply Qpower_le_compat_l; [lia | discriminate]. }
      lra.
Qed.

(** Rounding moves a value by at most one part in [2^53]. *)
Lemma fl64_error (q : Q) :
  q - Qabs q * (1 # 9007199254740992) <= fl64 q /\
  fl64 q <= q + Qabs q * (1 # 9007199254740992).
Proof.
  pose proof (Qabs_nonneg q) as Hnn.
  destruct (Qeq_dec q 0) as [H0|H0].
  - rewrite (fl64_zero q H0). rewrite H0. split; discriminate.
  - rewrite (fl64_rounds q H0).
    assert (Hpos : 0 < Qabs q).
    { apply Qnot_le_lt. intro H. apply H0.
      assert (E : Qabs q == 0) by now apply Qle_antisym.
      destruct (Qabs_Qle_condition q 0) as [Hc _].
      destruct Hc as [H1 H2]; [rewrite E; apply Qle_refl|].
      apply Qle_antisym; [exact H2 | exact H1]. }
    destruct (floor_log2_spec (Qabs q) Hpos) as [He _].
    set (e := floor_log2 (Qabs q)) in *.
    assert (Hu : 0 < 2 ^ (e - 52)) by apply pow2_pos.
    assert (Hsplit : 2 ^ e == 2 ^ (e - 52) * 2 ^ 52).
    { rewrite <- Qpower_plus by exact two_neq_0. now replace (e - 52 + 52)%Z with e by lia. }
    set (u := 2 ^ (e - 52)) in *.
    destruct (rint_near (q / u)) as [H1 H2].
    assert (H4 : u * 2 ^ 52 <= Qabs q) by (rewrite <- Hsplit; exact He).
    change (2 ^ 52) with (4503599627370496 # 1) in H4.
    set (z := inject_Z (rint (q / u))) in *.
    assert (Hq : q == (q / u) * u) by (field; intro H; rewrite H in Hu; discriminate).
    assert (Hlo : (z - (1 # 2)) * u <= q / u * u).
    { apply Qmult_le_compat_r; [exact H1 | now apply Qlt_le_weak]. }
    assert (Hhi : q / u * u <= (z + (1 # 2)) * u).
    { apply Qmult_le_compat_r; [exact H2 | now apply Qlt_le_weak]. }
    rewrite <- Hq in Hlo, Hhi.
    split; lra.
Qed.

Lemma fl64_one : fl64 1 = 1.
Proof. reflexivity. Qed.

(** Rounding moves a value of magnitude at most [b] by at most [b / 2^53]. *)
Lemma fl64_within (q b : Q) :
  - b <= q -> q <= b ->
  q - b * (1 # 9007199254740992) <= fl64 q /\ fl64 q <= q + b * (1 # 9007199254740992).
Proof.
  intros H1 H2.
  assert (Habs : Qabs q <= b) by (apply Qabs_Qle_condition; now split).
  destruct (fl64_error q) as [H3 H4]. split; lra.
Qed.

(** An edge [k * step] before the last one does not exceed the stop value:
    [step] is [1 / bins] up to one part in [2^53], and [k < bins]. *)
Lemma edge_below_stop (bins k : nat) :
  (k < bins)%nat ->
  fmul (inject_Z (Z.of_nat k)) (fdiv 1 (inject_Z (Z.of_nat bins))) <= 1.
Proof.
  intro Hk. unfold fmul, fdiv.
  set (b := inject_Z (Z.of_nat bins)).
  assert (Hb : 1 <= b).
  { unfold b. change 1 with (inject_Z 1). rewrite <- Zle_Qle. lia. }
  assert (Hkb : inject_Z (Z.of_nat k) + 1 <= b).
  { unfold b. change 1 with (inject_Z 1). rewrite <- inject_Z_plus, <- Zle_Qle. lia. }
  assert (Hk0 : 0 <= inject_Z (Z.of_nat k)).
  { change 0 with (inject_Z 0). rewrite <- Zle_Qle. lia. }
  set (c := inject_Z (Z.of_nat k)) in *.
  assert (Hinv : 0 < 1 / b) by (apply Qlt_shift_div_l; lra).
  pose proof (fl64_upper (1 / b) Hinv) as Hs.
  pose proof (fl64_nonneg (1 / b) (Qlt_le_weak _ _ Hinv)) as Hs0.
  set (s := fl64 (1 / b)) in *.
  change (2 ^ (-53)) with (1 # 9007199254740992) in Hs.
  apply fl64_below_one.
  - now apply Qmult_le_0_compat.
  - change (2 ^ (-53)) with (1 # 9007199254740992).
    assert (Hcb : c * (1 / b) <= 1 - 1 / b).
    { setoid_replace (1 - 1 / b) with ((b - 1) * (1 / b)) by (field; lra).
      apply Qmult_le_compat_r; [lra | now apply Qlt_le_weak]. }
    assert (Hcs : c * s <= c * (1 / b * (1 + (1 # 9007199254740992)))).
    { rewrite !(Qmult_comm c). apply Qmult_le_compat_r; assumption. }
    assert (Hexp : c * (1 / b * (1 + (1 # 9007199254740992)))
                   == c * (1 / b) * (1 + (1 # 9007199254740992))) by ring.
    assert (Hfin : c * (1 / b) * (1 + (1 # 9007199254740992))
                   <= (1 - 1 / b) * (1 + (1 # 9007199254740992))).
    { apply Qmult_le_compat_r; [exact Hcb | lra]. }
    assert (Hlast : (1 - 1 / b) * (1 + (1 # 9007199254740992)) < 1 + (1 # 9007199254740992)).
    { setoid_replace ((1 - 1 / b) * (1 + (1 # 9007199254740992)))
        with (1 + (1 # 9007199254740992) - (1 / b) * (1 + (1 # 9007199254740992))) by ring.
      assert (0 < 1 / b * (1 + (1 # 9007199254740992))).
      { apply Qmult_lt_0_compat; lra. }
      lra. }
    lra.
Qed.

End Binary64.

(** ** Aggregator *)

Section Binning.

(** Edges [first :: middle ++ [1]] that start at 0 and do not exceed the
    stop value; the edges of [linspace01] are of this form
    ([edge_below_stop]). *)
Variables (first : Q) (middle : list Q).
Hypothesis first_is_zero : (first == 0)%Q.
Hypothesis middle_below_stop : Forall (fun e => (e <= 1)%Q) middle.

Lemma searchsorted_all (l : list Q) (v : Q) :
  Forall (fun e => (e <= v)%Q) l -> searchsorted_right l v = length l.
Proof.
  induction 1 as [|e l He _ IH]; simpl; [reflexivity|].
  apply Qle_bool_iff in He. now rewrite He, IH.
Qed.

Lemma searchsorted_stops (l : list Q) (e v : Q) :
  Qle_bool e v = false -> searchsorted_right (l ++ [e]) v <= length l.
Proof.
  intro He. induction l as [|x l IH]; simpl.
  - now rewrite He.
  - destruct (Qle_bool x v); lia.
Qed.

Lemma bin_index_in_range (v : Q) :
  let edges := first :: middle ++ [1%Q] in
  let b := bin_index edges v in
  (1 <=? b) && (b <=? S (length middle)) = Qle_bool 0 v && Qle_bool v 1.
Proof.
  cbv zeta. unfold bin_index.
  replace (last (first :: middle ++ [1%Q]) 0%Q) with 1%Q
    by (symmetry; apply (last_last (first :: middle) 1%Q 0%Q)).
  simpl searchsorted_right.
  assert (Hfirst : Qle_bool first v = Qle_bool 0 v).
  { destruct (Qle_bool first v) eqn:E1, (Qle_bool 0 v) eqn:E2; try reflexivity.
    - apply Qle_bool_iff in E1. rewrite first_is_zero in E1.
      apply Qle_bool_iff in E1. congruence.
    - apply Qle_bool_iff in E2. rewrite <- first_is_zero in E2.
      apply Qle_bool_iff in E2. congruence. }
  rewrite Hfirst. destruct (Qle_bool 0 v) eqn:E0.
  - destruct (Qeq_bool v 1) eqn:E1.
    + apply Qeq_bool_iff in E1.
      rewrite searchsorted_all.
      * rewrite length_app. simpl.
        assert (Hv : Qle_bool v 1 = true) by (apply Qle_bool_iff; rewrite E1; apply Qle_refl).
        rewrite Hv. simpl.
        replace (length middle + 1 - 0) with (S (length middle)) by lia.
        now rewrite Nat.leb_refl.
      * apply Forall_app. split.
        -- eapply Forall_impl; [|exact middle_below_stop].
           intros e He. simpl in He. now rewrite E1.
        -- constructor; [|constructor]. rewrite E1. apply Qle_refl.
    + destruct (Qle_bool v 1) eqn:E2.
      * assert (Hstop : Qle_bool 1 v = false).
        { destruct (Qle_bool 1 v) eqn:E3; [|reflexivity].
          apply Qle_bool_iff in E2, E3.
          assert (Heq : (v == 1)%Q) by (apply Qle_antisym; assumption).
          apply Qeq_bool_iff in Heq. congruence. }
        pose proof (searchsorted_stops middle 1%Q v Hstop) as Hle.
        simpl. apply Nat.leb_le. lia.
      * assert (Hgt : (1 < v)%Q).
        { apply Qnot_le_lt. intro H. apply Qle_bool_iff in H. congruence. }
        rewrite searchsorted_all.
        -- rewrite length_app. simpl.
           replace (length middle + 1) with (S (length middle)) by lia.
           apply Nat.leb_gt. lia.
        -- apply Forall_app. split.
           ++ eapply Forall_impl; [|exact middle_below_stop].
              intros e He. simpl in He. apply Qlt_le_weak.
              eapply Qle_lt_trans; eassumption.
           ++ constructor; [|constructor]. now apply Qlt_le_weak.
  - destruct (Qeq_bool v 1) eqn:E1; [|reflexivity].
    exfalso. apply Qeq_bool_iff in E1.
    assert (H : (0 <= v)%Q) by (rewrite E1; discriminate).
    apply Qle_bool_iff in H. congruence.
Qed.

End Binning.

(** The computed edge [k * step] of [bins] bins. *)
Lemma linspace01_shape (n : nat) :
  linspace01 (S n) =
  fmul (inject_Z (Z.of_nat 0)) (fdiv 1 (inject_Z (Z.of_nat (S n))))
  :: map (fun k => fmul (inject_Z (Z.of_nat k)) (fdiv 1 (inject_Z (Z.of_nat (S n)))))
         (seq 1 n) ++ [1%Q].
Proof. reflexivity. Qed.

Lemma linspace01_first (bins : nat) :
  fmul (inject_Z (Z.of_nat 0)) (fdiv 1 (inject_Z (Z.of_nat bins))) = 0%Q.
Proof. unfold fmul. apply fl64_zero. change (inject_Z (Z.of_nat 0)) with 0%Q. ring. Qed.

Lemma linspace01_middle (n : nat) :
  Forall (fun e => (e <= 1)%Q)
         (map (fun k => fmul (inject_Z (Z.of_nat k)) (fdiv 1 (inject_Z (Z.of_nat (S n)))))
              (seq 1 n)).
Proof.
  apply Forall_forall. intros e He.
  apply in_map_iff in He. destruct He as [k [<- Hk]].
  apply in_seq in Hk. apply edge_below_stop. lia.
Qed.

Lemma bin_index_linspace (n : nat) (v : Q) :
  let b := bin_index (linspace01 (S n)) v in
  (1 <=? b) && (b <=? S n) = Qle_bool 0 v && Qle_bool v 1.
Proof.
  cbv zeta. rewrite linspace01_shape, linspace01_first.
  pose proof (bin_index_in_range 0%Q _ (Qeq_refl 0) (linspace01_middle n) v) as H.
  cbv zeta in H. rewrite length_map, length_seq in H. exact H.
Qed.

(** Sums over the bins. *)

Lemma sum_nat_map_plus {A : Type} (f g : A -> nat) (l : list A) :
  sum_nat (map (fun a => f a + g a) l) = sum_nat (map f l) + sum_nat (map g l).
Proof. induction l as [|a l IH]; simpl; lia. Qed.

Lemma sum_nat_map_zero {A : Type} (l : list A) :
  sum_nat (map (fun _ => 0) l) = 0.
Proof. induction l as [|a l IH]; simpl; lia. Qed.

Lemma sum_nat_map_ext {A : Type} (f g : A -> nat) (l : list A) :
  (forall a, f a = g a) -> sum_nat (map f l) = sum_nat (map g l).
Proof. intro H. induction l as [|a l IH]; simpl; [reflexivity|]. now rewrite H, IH. Qed.

Lemma sum_indicator (x s n : nat) :
  sum_nat (map (fun j => if x =? j then 1 else 0) (seq s n)) =
  if (s <=? x) && (x <? s + n) then 1 else 0.
Proof.
  revert s. induction n as [|n IH]; intro s; simpl.
  - destruct (s <=? x) eqn:E; simpl; [|reflexivity].
    replace (s + 0) with s by lia.
    destruct (x <? s) eqn:E'; [|reflexivity].
    apply Nat.leb_le in E. apply Nat.ltb_lt in E'. lia.
  - rewrite IH.
    destruct (x =? s) eqn:Exs, (S s <=? x) eqn:E1, (x <? S s + n) eqn:E2,
             (s <=? x) eqn:E3, (x <? s + S n) eqn:E4; simpl; try reflexivity;
      repeat match goal with
             | H : (_ =? _) = true |- _ => apply Nat.eqb_eq in H
             | H : (_ =? _) = false |- _ => apply Nat.eqb_neq in H
             | H : (_ <=? _) = true |- _ => apply Nat.leb_le in H
             | H : (_ <=? _) = false |- _ => apply Nat.leb_gt in H
             | H : (_ <? _) = true |- _ => apply Nat.ltb_lt in H
             | H : (_ <? _) = false |- _ => apply Nat.ltb_ge in H
             end; lia.
Qed.

Lemma sum_cell_indicator (n a b : nat) :
  sum_nat (map (fun i => sum_nat (map (fun j => if (a =? i) && (b =? j) then 1 else 0)
                                      (seq 1 n))) (seq 1 n)) =
  if in_bins n a && in_bins n b then 1 else 0.
Proof.
  rewrite (sum_nat_map_ext _
             (fun i => if a =? i then (if in_bins n b then 1 else 0) else 0)).
  - destruct (in_bins n b) eqn:Eb.
    + rewrite sum_indicator. unfold in_bins.
      replace (a <? 1 + n) with (a <=? n); [now rewrite andb_true_r|].
      destruct (a <=? n) eqn:E; symmetry;
        [apply Nat.ltb_lt; apply Nat.leb_le in E | apply Nat.ltb_ge; apply Nat.leb_gt in E]; lia.
    + rewrite andb_false_r.
      rewrite (sum_nat_map_ext _ (fun _ => 0)); [apply sum_nat_map_zero|].
      intro i. now destruct (a =? i).
  - intro i. destruct (a =? i); simpl.
    + rewrite sum_indicator. unfold in_bins.
      replace (b <? 1 + n) with (b <=? n); [reflexivity|].
      destruct (b <=? n) eqn:E; symmetry;
        [apply Nat.ltb_lt; apply Nat.leb_le in E | apply Nat.ltb_ge; apply Nat.leb_gt in E]; lia.
    + apply sum_nat_map_zero.
Qed.

Lemma sum_bincount2 (n : nat) (idx : list (nat * nat)) :
  sum_grid (map (fun i => map (fun j => bincount2 idx i j) (seq 1 n)) (seq 1 n)) =
  length (filter (fun p => in_bins n (fst p) && in_bins n (snd p)) idx).
Proof.
  unfold sum_grid. rewrite map_map.
  induction idx as [|[a b] idx IH].
  - unfold bincount2. simpl.
    rewrite (sum_nat_map_ext _ (fun _ => 0)); [apply sum_nat_map_zero|].
    intro i. apply sum_nat_map_zero.
  - rewrite (sum_nat_map_ext _
               (fun i => sum_nat (map (fun j => if (a =? i) && (b =? j) then 1 else 0) (seq 1 n))
                         + sum_nat (map (fun j => bincount2 idx i j) (seq 1 n)))).
    + rewrite sum_nat_map_plus, IH, sum_cell_indicator. simpl.
      destruct (in_bins n a && in_bins n b); reflexivity.
    + intro i. rewrite <- sum_nat_map_plus. apply sum_nat_map_ext.
      intro j. unfold bincount2. simpl.
      destruct ((a =? i) && (b =? j)); reflexivity.
Qed.

Lemma combine_map_fields {A B : Type} (f : point -> A) (g : point -> B) (l : list point) :
  combine (map f l) (map g l) = map (fun r => (f r, g r)) l.
Proof. induction l as [|r l IH]; simpl; [reflexivity|]. now rewrite IH. Qed.

Lemma length_filter_map {A B : Type} (f : A -> B) (p : B -> bool) (l : list A) :
  length (filter p (map f l)) = length (filter (fun a => p (f a)) l).
Proof.
  induction l as [|a l IH]; simpl; [reflexivity|].
  destruct (p (f a)); simpl; now rewrite IH.
Qed.

(** C2. For every row subset and every positive bin count, the histogram over
    [[0,1] x [0,1]] is a function of the subset and the bin count alone: it
    is computed without reading or changing the world, so every run returns
    the same [bins] x [bins] grid; and the counts of the grid add up to the
    number of rows with both coordinates in [[0,1]]. *)
Theorem histogram_counts_rows_in_range (subset : list point) (bins : nat) :
  0 < bins ->
  exists g,
    histogram2d (map xNorm subset) (map yNorm subset) bins = Ok g /\
    (forall w, lift (histogram2d (map xNorm subset) (map yNorm subset) bins) w = (Ok g, w)) /\
    length g = bins /\
    Forall (fun row => length row = bins) g /\
    sum_grid g = length (filter in_unit_square subset).
Proof.
  intro Hbins. destruct bins as [|n]; [lia|].
  unfold histogram2d, lift.
  rewrite !length_map, Nat.eqb_refl. simpl negb. cbv iota.
  change (S n =? 0) with false. cbv iota zeta.
  eexists. split; [reflexivity|]. split; [reflexivity|].
  split; [now rewrite length_map, length_seq|].
  split.
  - apply Forall_forall. intros row Hrow.
    apply in_map_iff in Hrow. destruct Hrow as [i [<- _]].
    now rewrite length_map, length_seq.
  - rewrite sum_bincount2, !map_map, combine_map_fields, length_filter_map.
    f_equal. apply filter_ext. intro r. simpl. unfold in_bins.
    pose proof (bin_index_linspace n (xNorm r)) as Hx.
    pose proof (bin_index_linspace n (yNorm r)) as Hy.
    cbv zeta in Hx, Hy. rewrite Hx, Hy.
    unfold in_unit_square. now rewrite !andb_assoc.
Qed.

Lemma histogram_counts_rows_in_range_witness :
  exists g,
    histogram2d (map xNorm [scenario_row]) (map yNorm [scenario_row]) 15 = Ok g /\
    (forall w, lift (histogram2d (map xNorm [scenario_row]) (map yNorm [scenario_row]) 15) w
               = (Ok g, w)) /\
    length g = 15 /\
    Forall (fun row => length row = 15) g /\
    sum_grid g = length (filter in_unit_square [scenario_row]).
Proof.
  apply (histogram_counts_rows_in_range [scenario_row] 15). lia.
Defined.

(** A row outside the unit square is in no bin; a row on the upper edge is in
    the last bin. *)
Example histogram_clips :
  histogram2d [3 # 2; 1; 0; 1 # 3]%Q [1 # 2; 1; 0; 2 # 3]%Q 3 =
  Ok [[1; 0; 0]; [0; 0; 1]; [0; 0; 1]].
Proof. reflexivity. Qed.

(** No bins is an error. *)
Example histogram_needs_bins : histogram2d [] [] 0 = Raise ValueError.
Proof. reflexivity. Qed.

(** ** Grouping *)

Section GroupBy.

Variable field : point -> string.

Lemma ltb_lt (a b : string) : String.ltb a b = true <-> String_as_OT.lt a b.
Proof.
  unfold String.ltb. rewrite <- String_as_OT.cmp_lt. unfold String_as_OT.cmp.
  destruct (String.compare a b); split; congruence.
Qed.

Lemma ltb_total (a b : string) :
  String.eqb b a = false -> String.ltb a b = false -> String_as_OT.lt b a.
Proof.
  intros Hne Hlt. apply String.eqb_neq in Hne.
  apply String_as_OT.cmp_lt. unfold String_as_OT.cmp.
  unfold String.ltb in Hlt. rewrite String.compare_antisym.
  destruct (String.compare a b) eqn:E; try reflexivity; try discriminate.
  apply String.compare_eq_iff in E. congruence.
Qed.

Lemma group_insert_keys (P : string -> Prop) (key : string) (r : point)
    (groups : list (string * list point)) :
  P key -> Forall (fun kg => P (fst kg)) groups ->
  Forall (fun kg => P (fst kg)) (group_insert key r groups).
Proof.
  intros Hkey. induction 1 as [|[k g] rest Hk Hrest IH]; simpl.
  - now repeat constructor.
  - destruct (String.eqb k key); [now constructor|].
    destruct (String.ltb key k); repeat constructor; assumption.
Qed.

(** The keys of the groups stay in increasing order. *)
Lemma group_insert_sorted (key : string) (r : point) (groups : list (string * list point)) :
  StronglySorted key_lt groups -> StronglySorted key_lt (group_insert key r groups).
Proof.
  induction 1 as [|[k g] rest Hsorted IH Hall]; simpl.
  - repeat constructor.
  - destruct (String.eqb k key) eqn:Eeq.
    + constructor; assumption.
    + destruct (String.ltb key k) eqn:Elt.
      * apply ltb_lt in Elt. constructor.
        -- now constructor.
        -- constructor; [exact Elt|].
           eapply Forall_impl; [|exact Hall].
           intros kg Hkg. unfold key_lt in *. simpl in *.
           eapply String_as_OT.lt_trans; eassumption.
      * constructor; [exact IH|].
        apply (group_insert_keys (fun s => String_as_OT.lt k s)).
        -- now apply ltb_total.
        -- exact Hall.
Qed.

Lemma reported_above (key : string) (groups : list (string * list point)) :
  Forall (fun kg => String_as_OT.lt key (fst kg)) groups -> reported key groups = None.
Proof.
  induction 1 as [|[k g] rest Hk _ IH]; simpl; [reflexivity|].
  destruct (String.eqb k key) eqn:E; [|exact IH].
  apply String.eqb_eq in E. simpl in Hk.
  exfalso. now apply (String_as_OT.lt_not_eq _ _ Hk).
Qed.

Lemma reported_group_insert (c key : string) (r : point) (groups : list (string * list point)) :
  StronglySorted key_lt groups ->
  reported c (group_insert key r groups) =
  if String.eqb key c then Some (group_of c groups ++ [r]) else reported c groups.
Proof.
  unfold group_of.
  induction 1 as [|[k g] rest Hsorted IH Hall]; simpl.
  - reflexivity.
  - destruct (String.eqb k key) eqn:Eeq.
    + apply String.eqb_eq in Eeq. subst k. simpl.
      destruct (String.eqb key c); reflexivity.
    + destruct (String.ltb key k) eqn:Elt.
      * simpl. destruct (String.eqb key c) eqn:Ec; [|reflexivity].
        apply String.eqb_eq in Ec. subst c. rewrite Eeq.
        rewrite reported_above; [reflexivity|].
        apply ltb_lt in Elt.
        eapply Forall_impl; [|exact Hall].
        intros kg Hkg. unfold key_lt in Hkg. simpl in Hkg.
        eapply String_as_OT.lt_trans; eassumption.
      * simpl. destruct (String.eqb k c) eqn:Ekc.
        -- apply String.eqb_eq in Ekc. subst c.
           rewrite String.eqb_sym, Eeq. reflexivity.
        -- exact IH.
Qed.

Lemma groupby_from (rs : list point) :
  forall groups,
    StronglySorted key_lt groups ->
    StronglySorted key_lt (fold_left (fun gs r => group_insert (field r) r gs) rs groups) /\
    forall c,
      reported c (fold_left (fun gs r => group_insert (field r) r gs) rs groups) =
      match reported c groups, filter (fun r => String.eqb (field r) c) rs with
      | None, [] => None
      | _, l => Some (group_of c groups ++ l)
      end.
Proof.
  induction rs as [|r rs IH]; intros groups Hsorted; simpl.
  - split; [assumption|]. intro c. unfold group_of.
    destruct (reported c groups); [now rewrite app_nil_r | reflexivity].
  - destruct (IH _ (group_insert_sorted (field r) r groups Hsorted)) as [Hs Hrep].
    split; [exact Hs|]. intro c. rewrite Hrep. unfold group_of.
    rewrite (reported_group_insert c (field r) r groups Hsorted). unfold group_of.
    destruct (String.eqb (field r) c) eqn:E.
    + destruct (reported c groups); now rewrite <- app_assoc.
    + reflexivity.
Qed.

(** The groups are keyed in increasing order, and the group of a value is
    made of the rows that carry it, in table order. *)
Lemma groupby_spec (rs : list point) :
  StronglySorted key_lt (groupby field rs) /\
  forall c,
    reported c (groupby field rs) =
    match filter (fun r => String.eqb (field r) c) rs with
    | [] => None
    | l => Some l
    end.
Proof.
  destruct (groupby_from rs [] (SSorted_nil _)) as [Hs Hrep].
  split; [exact Hs|]. intro c. unfold groupby. now rewrite Hrep.
Qed.

Lemma reported_map {A B : Type} (f : A -> B) (c : string) (l : list (string * A)) :
  reported c (map (fun kv => (fst kv, f (snd kv))) l) = option_map f (reported c l).
Proof.
  induction l as [|[k v] l IH]; simpl; [reflexivity|].
  destruct (String.eqb k c); [reflexivity | exact IH].
Qed.

(** Whatever is computed of each group is computed of the rows that carry
    the value, in table order. *)
Lemma groupby_aggregate (agg : list point -> Q) (rs : list point) (c : string) :
  In c (map field rs) ->
  reported c (map (fun kg => (fst kg, agg (snd kg))) (groupby field rs)) =
  Some (agg (filter (fun r => String.eqb (field r) c) rs)).
Proof.
  intro Hin. rewrite reported_map.
  destruct (groupby_spec rs) as [_ Hrep]. rewrite Hrep.
  destruct (filter (fun r => String.eqb (field r) c) rs) eqn:E; [|reflexivity].
  exfalso. apply in_map_iff in Hin. destruct Hin as [r [Hr Hin]].
  assert (H : In r (filter (fun r => String.eqb (field r) c) rs)).
  { apply filter_In. split; [exact Hin|]. now apply String.eqb_eq. }
  rewrite E in H. exact H.
Qed.

End GroupBy.

(** ** The mean of a group *)

Section MeanBounds.

Local Open Scope Q_scope.

(** One round of the summation loop on a value of [[0,1]], the sum being at
    most [2^32 + 2^15] in magnitude: the compensation stays small, and the sum
    grows by the value up to a small error. *)
Lemma group_mean_step_bounds (s c v : Q) :
  0 <= v -> v <= 1 ->
  - 4295000000 <= s -> s <= 4295000000 ->
  - (1 # 524288) <= c -> c <= 1 # 524288 ->
  let acc := group_mean_step (s, c) v in
  - (1 # 524288) <= snd acc /\ snd acc <= 1 # 524288 /\
  s + v - (1 # 262144) <= fst acc /\ fst acc <= s + v + (1 # 262144).
Proof.
  intros Hv0 Hv1 Hs0 Hs1 Hc0 Hc1.
  unfold group_mean_step, fsub, fadd. cbn [fst snd]. cbv zeta.
  destruct (fl64_within (v - c) 2) as [Hy0 Hy1]; [lra | lra |].
  set (y := fl64 (v - c)) in *.
  destruct (fl64_within (s + y) 4295000002) as [Ht0 Ht1]; [lra | lra |].
  set (t := fl64 (s + y)) in *.
  destruct (fl64_within (t - s) 2) as [Hd0 Hd1]; [lra | lra |].
  set (d := fl64 (t - s)) in *.
  destruct (fl64_within (d - y) 1) as [He0 He1]; [lra | lra |].
  set (c' := fl64 (d - y)) in *.
  repeat split; lra.
Qed.

(** The sum of the loop over up to [2^32] values of [[0,1]] differs from
    their sum by at most [2^-18] for each value. *)
Lemma group_mean_loop_bounds (l : list Q) :
  Forall (fun v => 0 <= v /\ v <= 1) l ->
  forall (s c total : Q) (k : nat),
    (Z.of_nat (k + length l) <= 4294967296)%Z ->
    - (1 # 524288) <= c -> c <= 1 # 524288 ->
    0 <= total -> total <= inject_Z (Z.of_nat k) ->
    total - inject_Z (Z.of_nat k) * (1 # 262144) <= s ->
    s <= total + inject_Z (Z.of_nat k) * (1 # 262144) ->
    let sumx := fst (fold_left group_mean_step l (s, c)) in
    total + fold_right Qplus 0 l - inject_Z (Z.of_nat (k + length l)) * (1 # 262144) <= sumx /\
    sumx <= total + fold_right Qplus 0 l + inject_Z (Z.of_nat (k + length l)) * (1 # 262144) /\
    0 <= fold_right Qplus 0 l /\
    fold_right Qplus 0 l <= inject_Z (Z.of_nat (length l)).
Proof.
  induction 1 as [|v l [Hv0 Hv1] _ IH]; intros s c total k Hlen Hc0 Hc1 Ht0 Ht1 Hs0 Hs1;
    cbv zeta.
  - cbn [fold_left fold_right fst length]. rewrite Nat.add_0_r.
    change (inject_Z (Z.of_nat 0)) with 0. repeat split; lra.
  - cbn [fold_left fold_right length].
    assert (Hk0 : 0 <= inject_Z (Z.of_nat k)).
    { change 0 with (inject_Z 0). rewrite <- Zle_Qle. lia. }
    assert (Hk1 : inject_Z (Z.of_nat k) <= 4294967296).
    { change 4294967296 with (inject_Z 4294967296). rewrite <- Zle_Qle.
      cbn [length] in Hlen. lia. }
    destruct (group_mean_step_bounds s c v Hv0 Hv1) as [Ha [Hb [Hc Hd]]]; try lra.
    destruct (group_mean_step (s, c) v) as [s' c']. cbn [fst snd] in *.
    assert (Hk : inject_Z (Z.of_nat (S k)) == inject_Z (Z.of_nat k) + 1).
    { rewrite Nat2Z.inj_succ, <- Z.add_1_r, inject_Z_plus. reflexivity. }
    assert (Hn : inject_Z (Z.of_nat (S (length l))) == inject_Z (Z.of_nat (length l)) + 1).
    { rewrite Nat2Z.inj_succ, <- Z.add_1_r, inject_Z_plus. reflexivity. }
    replace (k + S (length l))%nat with (S k + length l)%nat by lia.
    assert (Hlen' : (Z.of_nat (S k + length l) <= 4294967296)%Z).
    { cbn [length] in Hlen. lia. }
    assert (HT0 : 0 <= total + v) by lra.
    assert (HT1 : total + v <= inject_Z (Z.of_nat (S k))) by (rewrite Hk; lra).
    assert (HS0 : total + v - inject_Z (Z.of_nat (S k)) * (1 # 262144) <= s')
      by (rewrite Hk; lra).
    assert (HS1 : s' <= total + v + inject_Z (Z.of_nat (S k)) * (1 # 262144))
      by (rewrite Hk; lra).
    destruct (IH s' c' (total + v) (S k) Hlen' Ha Hb HT0 HT1 HS0 HS1) as [H1 [H2 [H3 H4]]].
    rewrite Hn. repeat split; lra.
Qed.

(** The binary64 mean of up to [2^32] values of [[0,1]] is within [2^-17] of
    their arithmetic mean, which is in [[0,1]]. *)
Lemma mean_close (l : list Q) :
  l <> [] ->
  (Z.of_nat (length l) <= 4294967296)%Z ->
  Forall (fun v => 0 <= v /\ v <= 1) l ->
  arithmetic_mean l - (1 # 131072) <= mean l /\
  mean l <= arithmetic_mean l + (1 # 131072) /\
  0 <= arithmetic_mean l /\ arithmetic_mean l <= 1.
Proof.
  intros Hne Hlen Hall. unfold mean, arithmetic_mean, fdiv.
  destruct (group_mean_loop_bounds l Hall 0 0 0 0%nat Hlen) as [H0 [H1 [H2 H3]]];
    try (change (inject_Z (Z.of_nat 0)) with 0; lra); try lra.
  cbn [Nat.add] in H0, H1.
  set (s := fst (fold_left group_mean_step l (0, 0))) in *.
  set (total := fold_right Qplus 0 l) in *.
  set (n := inject_Z (Z.of_nat (length l))) in *.
  assert (Hn : 1 <= n).
  { unfold n. change 1 with (inject_Z 1). rewrite <- Zle_Qle.
    destruct l; [contradiction | cbn [length]; lia]. }
  assert (Ha0 : 0 <= total / n) by (apply Qle_shift_div_l; lra).
  assert (Ha1 : total / n <= 1) by (apply Qle_shift_div_r; lra).
  assert (Hq0 : total / n - (1 # 262144) <= s / n).
  { apply Qle_shift_div_l; [lra|].
    setoid_replace ((total / n - (1 # 262144)) * n) with (total - n * (1 # 262144))
      by (field; lra). lra. }
  assert (Hq1 : s / n <= total / n + (1 # 262144)).
  { apply Qle_shift_div_r; [lra|].
    setoid_replace ((total / n + (1 # 262144)) * n) with (total + n * (1 # 262144))
      by (field; lra). lra. }
  destruct (fl64_within (s / n) 2) as [Hm0 Hm1]; [lra | lra |].
  repeat split; lra.
Qed.

(** [round(2)] of a value that is in [[0,1]] up to a thousandth. *)
Lemma round2_close (q : Q) :
  - (1 # 1000) <= q -> q <= 1 + (1 # 1000) ->
  0 <= round2 q /\ round2 q <= 1 /\
  q - (1 # 200) - (1 # 1000000000000) <= round2 q /\
  round2 q <= q + (1 # 200) + (1 # 1000000000000) /\
  (0 <= rint (fl64 (q * 100)) <= 100)%Z.
Proof.
  intros Hq0 Hq1. unfold round2, fmul, fdiv.
  destruct (fl64_within (q * 100) 101) as [Hp0 Hp1]; [lra | lra |].
  set (p := fl64 (q * 100)) in *.
  destruct (rint_near p) as [Hz1 Hz2].
  set (z := rint p) in *.
  assert (Hza : (0 <= z)%Z).
  { assert (H : (-1 < z)%Z); [|lia].
    rewrite Zlt_Qlt. change (inject_Z (-1)) with (-1). lra. }
  assert (Hzb : (z <= 100)%Z).
  { assert (H : (z < 101)%Z); [|lia].
    rewrite Zlt_Qlt. change (inject_Z 101) with 101. lra. }
  assert (Hza' : 0 <= inject_Z z) by (change 0 with (inject_Z 0); now rewrite <- Zle_Qle).
  assert (Hzb' : inject_Z z <= 100) by (change 100 with (inject_Z 100); now rewrite <- Zle_Qle).
  set (h := inject_Z z / 100).
  assert (Hh : h == inject_Z z * (1 # 100)) by (unfold h; field).
  assert (Hh0 : 0 <= h) by lra.
  assert (Hh1 : h <= 1) by lra.
  destruct (fl64_within h 1) as [Hr0 Hr1]; [lra | lra |].
  pose proof (fl64_nonneg h Hh0) as Hnn.
  pose proof (fl64_mono h 1 Hh0 Hh1) as Hle. rewrite fl64_one in Hle.
  repeat split; try assumption; lra.
Qed.

End MeanBounds.

(** C6, as the code has it.  For a table of at most [2^32] rows whose
    confidences lie in [[0,1]], and a contact type that occurs in it, the
    mean confidence reported for the contact type is computed in binary64
    from the confidence of exactly the rows that share the contact type,
    taken in table order: the sum that the loop of [group_mean] accumulates,
    divided by the number of these rows, then multiplied by 100, rounded to
    the nearest integer [z] (ties to even) and divided by 100.  The reported
    value is the binary64 value nearest to [z / 100], a whole number of
    hundredths from 0 to 100, and it differs from the arithmetic mean of
    these confidences by at most 0.00501: by the 0.005 of a rounding to two
    decimal places, and by the rounding errors of the operations.  It is not
    always the arithmetic mean rounded to two decimal places. *)
Theorem mean_confidence_in_binary64 (df : DataFrame) (c : string) :
  columns df = field_names ->
  In c (map contactType (rows df)) ->
  (Z.of_nat (length (rows df)) <= 2 ^ 32)%Z ->
  (forall r, In r (rows df) -> (0 <= confidence r)%Q /\ (confidence r <= 1)%Q) ->
  let group := map confidence (rows_sharing c (rows df)) in
  let sumx := fst (fold_left group_mean_step group (0%Q, 0%Q)) in
  let m := fl64 (sumx / inject_Z (Z.of_nat (length group))) in
  let z := rint (fl64 (m * 100)) in
  exists means value,
    (forall w, mean_confidence_by_contacttype df w = (Ok means, w)) /\
    reported c means = Some value /\
    value = fl64 (inject_Z z / 100) /\
    (0 <= z <= 100)%Z /\
    (inject_Z z - (1 # 2) <= fl64 (m * 100))%Q /\
    (fl64 (m * 100) <= inject_Z z + (1 # 2))%Q /\
    (arithmetic_mean group - (501 # 100000) <= value)%Q /\
    (value <= arithmetic_mean group + (501 # 100000))%Q.
Proof.
  intros Hcols Hin Hsize Hconf. cbv zeta.
  unfold mean_confidence_by_contacttype. rewrite Hcols. simpl.
  eexists. eexists. split; [reflexivity|]. split.
  { apply (groupby_aggregate contactType (fun g => round2 (mean (map confidence g))) _ _ Hin). }
  fold (rows_sharing c (rows df)).
  set (group := map confidence (rows_sharing c (rows df))).
  assert (Hne : group <> []).
  { apply in_map_iff in Hin. destruct Hin as [r [Hr Hin]].
    assert (H : In (confidence r) group).
    { apply in_map. apply filter_In. split; [exact Hin | now apply String.eqb_eq]. }
    intro E. rewrite E in H. exact H. }
  assert (Hlen : (Z.of_nat (length group) <= 4294967296)%Z).
  { unfold group, rows_sharing. rewrite length_map.
    pose proof (filter_length_le (fun r => String.eqb (contactType r) c) (rows df)).
    change (2 ^ 32)%Z with 4294967296%Z in Hsize. lia. }
  assert (Hall : Forall (fun v => (0 <= v)%Q /\ (v <= 1)%Q) group).
  { apply Forall_map, Forall_forall. intros r Hr.
    apply filter_In in Hr. apply Hconf. tauto. }
  destruct (mean_close group Hne Hlen Hall) as [Hm0 [Hm1 [Ha0 Ha1]]].
  destruct (round2_close (mean group)) as [_ [_ [Hr0 [Hr1 Hz]]]]; [lra | lra |].
  split; [reflexivity|]. split; [exact Hz|].
  split; [apply rint_near|]. split; [apply rint_near|].
  change (fl64 (inject_Z (rint (fl64 (fl64 (fst (fold_left group_mean_step group (0%Q, 0%Q))
                                               / inject_Z (Z.of_nat (length group))) * 100)))
                / 100)) with (round2 (mean group)).
  split; lra.
Qed.

Lemma mean_confidence_in_binary64_witness :
  let group := map confidence (rows_sharing "pat" (rows faint_and_firm)) in
  let sumx := fst (fold_left group_mean_step group (0%Q, 0%Q)) in
  let m := fl64 (sumx / inject_Z (Z.of_nat (length group))) in
  let z := rint (fl64 (m * 100)) in
  exists means value,
    (forall w, mean_confidence_by_contacttype faint_and_firm w = (Ok means, w)) /\
    reported "pat" means = Some value /\
    value = fl64 (inject_Z z / 100) /\
    (0 <= z <= 100)%Z /\
    (inject_Z z - (1 # 2) <= fl64 (m * 100))%Q /\
    (fl64 (m * 100) <= inject_Z z + (1 # 2))%Q /\
    (arithmetic_mean group - (501 # 100000) <= value)%Q /\
    (value <= arithmetic_mean group + (501 # 100000))%Q.
Proof.
  apply (mean_confidence_in_binary64 faint_and_firm "pat" eq_refl (or_introl eq_refl)).
  - discriminate.
  - intros r [<- | [<- | []]]; split; discriminate.
Defined.

(** Read in exact arithmetic, the sentence of the specification fails.  For
    the confidences 0.25 and 0.9 the binary64 sum is a tie and rounds down to
    1.15 (as a binary64 value, below 1.15), the mean is 0.57499999999999996,
    and the report holds 0.57 (as a binary64 value); the arithmetic mean of
    the two confidences is above 0.575 and rounds to 0.58. *)
Lemma mean_confidence_rounds_down :
  exists means,
    (forall w, mean_confidence_by_contacttype faint_and_firm w = (Ok means, w)) /\
    reported "pat" means = Some (5134103575202365 # 9007199254740992)%Q /\
    (5134103575202365 # 9007199254740992 == fl64 (57 # 100))%Q /\
    (mean_confidence_spec "pat" (rows faint_and_firm) == 58 # 100)%Q /\
    ~ (5134103575202365 # 9007199254740992
       == mean_confidence_spec "pat" (rows faint_and_firm))%Q.
Proof.
  eexists. split; [intro w; reflexivity|].
  split; [vm_compute; reflexivity|].
  split; [vm_compute; reflexivity|].
  split; [vm_compute; reflexivity|].
  vm_compute. discriminate.
Qed.

(** ** Running the monad *)

Lemma bind_ok {A B : Type} (m : M A) (k : A -> M B) (w w' : world) (a : A) :
  m w = (Ok a, w') -> bind m k w = k a w'.
Proof. intro H. unfold bind. now rewrite H. Qed.

Lemma bind_raise {A B : Type} (m : M A) (k : A -> M B) (w w' : world) (e : exn) :
  m w = (Raise e, w') -> bind m k w = (Raise e, w').
Proof. intro H. unfold bind. now rewrite H. Qed.

Lemma quiet_refl (w : world) : quiet w w.
Proof. now repeat split. Qed.

Lemma quiet_trans (w1 w2 w3 : world) : quiet w1 w2 -> quiet w2 w3 -> quiet w1 w3.
Proof.
  intros [Hd [Hs Hc]] [Hd' [Hs' Hc']].
  repeat split; congruence.
Qed.

Lemma quiet_touch (path : string) (w : world) : quiet w (touch path w).
Proof. now repeat split. Qed.

Lemma getitem_ok {A : Type} (df : DataFrame) (name : string) (field : point -> A) (w : world) :
  mem name (columns df) = true ->
  getitem df name field w = (Ok (map field (rows df)), w).
Proof. intro H. unfold getitem. now rewrite H. Qed.

Lemma iloc0_ok {A : Type} (df : DataFrame) (name : string) (field : point -> A) (w : world)
    (r : point) (rest : list point) :
  rows df = r :: rest ->
  mem name (columns df) = true ->
  iloc0 df name field w = (Ok (field r), w).
Proof. intros Hrows Hmem. unfold iloc0. now rewrite Hrows, Hmem. Qed.

Lemma take_masked_filter (field : point -> string) (value : string) (rs : list point) :
  take_masked (map (fun v => String.eqb v value) (map field rs)) rs = rows_with field value rs.
Proof.
  induction rs as [|r rs IH]; simpl; [reflexivity|].
  destruct (String.eqb (field r) value); now rewrite IH.
Qed.

Lemma select_ok (df : DataFrame) (name : string) (field : point -> string) (value : string)
    (w : world) :
  mem name (columns df) = true ->
  select df name field value w =
  (Ok {| columns := columns df; rows := rows_with field value (rows df) |}, w).
Proof.
  intro H. unfold select.
  rewrite (bind_ok _ _ _ _ _ (getitem_ok df name field w H)).
  unfold ret. now rewrite take_masked_filter.
Qed.

Lemma histogram2d_defined (sub : list point) (bins : nat) :
  0 < bins ->
  histogram2d (map xNorm sub) (map yNorm sub) bins = Ok (heat_of sub bins).
Proof.
  intro H. unfold heat_of, histogram2d.
  rewrite !length_map, Nat.eqb_refl. simpl negb. cbv iota.
  destruct bins; [lia|]. reflexivity.
Qed.

Lemma lift_histogram2d (sub : list point) (bins : nat) (w : world) :
  0 < bins ->
  lift (histogram2d (map xNorm sub) (map yNorm sub) bins) w = (Ok (heat_of sub bins), w).
Proof. intro H. unfold lift. now rewrite histogram2d_defined. Qed.

(** One [df[name]] of a table that has the seven columns. *)
Ltac step_getitem Hcols :=
  erewrite bind_ok by (apply getitem_ok; simpl; try rewrite Hcols; reflexivity).

(** ** Backgrounds *)

Lemma panel_background_usable (a : axes) (idx : nat) (path : string) (w : world) :
  idx < length a ->
  usable (disk w) path = true ->
  exists w',
    panel_background a idx path w = (Ok (backdrop_in (disk w) path), w') /\ quiet w w' /\
    accessed w' = accessed w ++ probes (disk w) path.
Proof.
  intros Hidx Huse. apply Nat.ltb_lt in Hidx.
  unfold panel_background, usable, backdrop_in, probes in *.
  unfold bind, os_path_exists, Image_open, axes_at, ret.
  destruct (lookup path (disk w)) as [[t|]|] eqn:E; [discriminate| |].
  - simpl. rewrite E, Hidx. eexists. split; [reflexivity|].
    split; [now repeat split|]. simpl. now rewrite <- app_assoc.
  - rewrite Hidx. eexists. split; [reflexivity|]. split; [now repeat split|reflexivity].
Qed.

Lemma figure_background_usable (a : axes) (idx : nat) (path : string) (w : world) :
  idx < length a ->
  usable (disk w) path = true ->
  exists w',
    figure_background a idx path w = (Ok (backdrop_in (disk w) path), w') /\ quiet w w' /\
    accessed w' = accessed w ++ probes (disk w) path.
Proof.
  intros Hidx Huse. apply Nat.ltb_lt in Hidx.
  unfold figure_background, usable, backdrop_in, probes in *.
  unfold bind, os_path_exists, Image_open, axes_at, print, ret.
  destruct (lookup path (disk w)) as [[t|]|] eqn:E; [discriminate| |].
  - simpl. rewrite E, Hidx. eexists. split; [reflexivity|].
    split; [now repeat split|]. simpl. now rewrite <- app_assoc.
  - simpl. rewrite Hidx. eexists. split; [reflexivity|]. split; [now repeat split|reflexivity].
Qed.

(** ** Panels *)

Lemma figure_panel_draws (df : DataFrame) (a : axes) (idx : nat) (fig : string) (w : world) :
  columns df = field_names ->
  idx < length a ->
  usable (disk w) (png fig) = true ->
  exists p w',
    figure_drawing (disk w) (rows df) fig = Some p /\
    figure_panel df a idx fig w = (Ok (put a idx p), w') /\ quiet w w' /\
    accessed w' = accessed w ++ probes (disk w) (png fig).
Proof.
  intros Hcols Hidx Huse.
  destruct (figure_background_usable a idx (png fig) w Hidx Huse) as [w' [Hbg [Hq Hacc]]].
  eexists. exists w'. split; [reflexivity|]. split; [|exact (conj Hq Hacc)].
  unfold figure_panel.
  rewrite (bind_ok _ _ _ _ _ (select_ok df "figure" figure fig w ltac:(now rewrite Hcols))).
  rewrite (bind_ok _ _ _ _ _ Hbg).
  repeat step_getitem Hcols.
  rewrite (bind_ok _ _ _ _ _ (lift_histogram2d _ 15 w' ltac:(lia))).
  repeat step_getitem Hcols.
  reflexivity.
Qed.

Lemma contact_panel_draws (df : DataFrame) (a : axes) (idx : nat) (c : string) (w : world)
    (first_row : point) (more : list point) :
  columns df = field_names ->
  rows_with contactType c (rows df) = first_row :: more ->
  idx < length a ->
  usable (disk w) (png (figure first_row)) = true ->
  exists p w',
    contact_drawing (disk w) (rows df) c = Some p /\
    contact_panel df a idx c w = (Ok (put a idx p), w') /\ quiet w w' /\
    accessed w' = accessed w ++ probes (disk w) (png (figure first_row)).
Proof.
  intros Hcols Hsub Hidx Huse.
  destruct (panel_background_usable a idx (png (figure first_row)) w Hidx Huse)
    as [w' [Hbg [Hq Hacc]]].
  unfold contact_drawing. rewrite Hsub.
  eexists. exists w'. split; [reflexivity|]. split; [|exact (conj Hq Hacc)].
  unfold contact_panel.
  rewrite (bind_ok _ _ _ _ _ (select_ok df "contactType" contactType c w
                                ltac:(now rewrite Hcols))).
  rewrite Hsub.
  erewrite bind_ok by (apply (iloc0_ok _ _ _ _ first_row more);
                       [reflexivity | simpl; rewrite Hcols; reflexivity]).
  rewrite (bind_ok _ _ _ _ _ Hbg).
  repeat step_getitem Hcols.
  rewrite (bind_ok _ _ _ _ _ (lift_histogram2d _ 12 w' ltac:(lia))).
  repeat step_getitem Hcols.
  reflexivity.
Qed.

Lemma direction_panel_draws (df : DataFrame) (a : axes) (idx : nat) (d : string) (w : world)
    (first_row : point) (more : list point) (label : string) :
  columns df = field_names ->
  rows_with direction d (rows df) = first_row :: more ->
  labels_get direction_labels d = Some label ->
  idx < length a ->
  usable (disk w) (png (figure first_row)) = true ->
  exists p w',
    direction_drawing (disk w) (rows df) d = Some p /\
    direction_panel df a idx d w = (Ok (put a idx p), w') /\ quiet w w' /\
    accessed w' = accessed w ++ probes (disk w) (png (figure first_row)).
Proof.
  intros Hcols Hsub Hlabel Hidx Huse.
  destruct (panel_background_usable a idx (png (figure first_row)) w Hidx Huse)
    as [w' [Hbg [Hq Hacc]]].
  unfold direction_drawing. rewrite Hsub, Hlabel.
  eexists. exists w'. split; [reflexivity|]. split; [|exact (conj Hq Hacc)].
  unfold direction_panel.
  rewrite (bind_ok _ _ _ _ _ (select_ok df "direction" direction d w
                                ltac:(now rewrite Hcols))).
  rewrite Hsub.
  erewrite bind_ok by (apply (iloc0_ok _ _ _ _ first_row more);
                       [reflexivity | simpl; rewrite Hcols; reflexivity]).
  rewrite (bind_ok _ _ _ _ _ Hbg).
  repeat step_getitem Hcols.
  rewrite (bind_ok _ _ _ _ _ (lift_histogram2d _ 12 w' ltac:(lia))).
  repeat step_getitem Hcols.
  unfold bind, direction_label. rewrite Hlabel.
  reflexivity.
Qed.

(** C10. In the contact-type and direction breakdowns the background of a
    panel is taken from the [figure] field of the first row of the panel's
    rows (the rows of the table with the panel's value, in table order),
    whatever the other rows and the panel's own value are: that file alone is
    looked for, and it is the picture behind the panel when it exists. *)
Theorem panel_image_from_first_row (df : DataFrame) (a : axes) (idx : nat) (w : world)
    (value : string) (first_row : point) (more : list point) :
  columns df = field_names ->
  idx < length a ->
  usable (disk w) (png (figure first_row)) = true ->
  (rows_with contactType value (rows df) = first_row :: more ->
   exists p w',
     contact_panel df a idx value w = (Ok (put a idx p), w') /\
     backdrop p = backdrop_in (disk w) (png (figure first_row)) /\
     accessed w' = accessed w ++ probes (disk w) (png (figure first_row))) /\
  (rows_with direction value (rows df) = first_row :: more ->
   forall label, labels_get direction_labels value = Some label ->
   exists p w',
     direction_panel df a idx value w = (Ok (put a idx p), w') /\
     backdrop p = backdrop_in (disk w) (png (figure first_row)) /\
     accessed w' = accessed w ++ probes (disk w) (png (figure first_row))).
Proof.
  intros Hcols Hidx Huse. split.
  - intro Hsub.
    destruct (contact_panel_draws df a idx value w first_row more Hcols Hsub Hidx Huse)
      as [p [w' [Hp [Hrun [_ Hacc]]]]].
    exists p, w'. split; [exact Hrun|]. split; [|exact Hacc].
    unfold contact_drawing in Hp. rewrite Hsub in Hp. injection Hp as <-. reflexivity.
  - intros Hsub label Hlabel.
    destruct (direction_panel_draws df a idx value w first_row more label
                Hcols Hsub Hlabel Hidx Huse) as [p [w' [Hp [Hrun [_ Hacc]]]]].
    exists p, w'. split; [exact Hrun|]. split; [|exact Hacc].
    unfold direction_drawing in Hp. rewrite Hsub, Hlabel in Hp. injection Hp as <-.
    reflexivity.
Qed.

(** On a table whose "pat" rows are on the leg and then on the arm, with both
    pictures on the disk, the "pat" panel and the "touched" panel are drawn
    over the leg. *)
Lemma panel_image_from_first_row_witness :
  let w := fresh [("arm.png", Image); ("leg.png", Image)] in
  (exists p w',
     contact_panel two_figures [None; None] 0 "pat" w = (Ok (put [None; None] 0 p), w') /\
     backdrop p = Picture "leg.png" /\
     accessed w' = ["leg.png"; "leg.png"]) /\
  (exists p w',
     direction_panel two_figures [None; None] 0 "touched" w = (Ok (put [None; None] 0 p), w') /\
     backdrop p = Picture "leg.png" /\
     accessed w' = ["leg.png"; "leg.png"]).
Proof.
  destruct (panel_image_from_first_row two_figures [None; None] 0
              (fresh [("arm.png", Image); ("leg.png", Image)])
              "pat" leg_row [scenario_row] eq_refl (le_S 1 1 (le_n 1)) eq_refl)
    as [Hcontact _].
  destruct (panel_image_from_first_row two_figures [None; None] 0
              (fresh [("arm.png", Image); ("leg.png", Image)])
              "touched" leg_row [scenario_row] eq_refl (le_S 1 1 (le_n 1)) eq_refl)
    as [_ Hdirection].
  split.
  - exact (Hcontact eq_refl).
  - exact (Hdirection eq_refl "I touched" eq_refl).
Defined.

(** C7. For a panel of any of the three breakdowns, when the picture of the
    relevant figure value is not on the disk, the panel is drawn all the same:
    its background is gray, and histogram, points and title follow.  The
    axes index is within the axes of the figure and, in the direction
    breakdown, the direction has a label: what can stop a panel is not the
    missing picture. *)
Theorem missing_image_gray_background (df : DataFrame) (a : axes) (idx : nat) (w : world)
    (value : string) (first_row : point) (more : list point) :
  columns df = field_names ->
  idx < length a ->
  (lookup (png value) (disk w) = None ->
   exists p w',
     figure_panel df a idx value w = (Ok (put a idx p), w') /\
     backdrop p = Gray /\
     figure_drawing (disk w) (rows df) value = Some p) /\
  (rows_with contactType value (rows df) = first_row :: more ->
   lookup (png (figure first_row)) (disk w) = None ->
   exists p w',
     contact_panel df a idx value w = (Ok (put a idx p), w') /\
     backdrop p = Gray /\
     contact_drawing (disk w) (rows df) value = Some p) /\
  (rows_with direction value (rows df) = first_row :: more ->
   lookup (png (figure first_row)) (disk w) = None ->
   forall label, labels_get direction_labels value = Some label ->
   exists p w',
     direction_panel df a idx value w = (Ok (put a idx p), w') /\
     backdrop p = Gray /\
     direction_drawing (disk w) (rows df) value = Some p).
Proof.
  intros Hcols Hidx. split; [|split].
  - intro Hnone.
    assert (Huse : usable (disk w) (png value) = true) by (unfold usable; now rewrite Hnone).
    destruct (figure_panel_draws df a idx value w Hcols Hidx Huse)
      as [p [w' [Hp [Hrun _]]]].
    exists p, w'. split; [exact Hrun|]. split; [|exact Hp].
    unfold figure_drawing in Hp. injection Hp as <-. simpl.
    unfold backdrop_in. now rewrite Hnone.
  - intros Hsub Hnone.
    assert (Huse : usable (disk w) (png (figure first_row)) = true)
      by (unfold usable; now rewrite Hnone).
    destruct (contact_panel_draws df a idx value w first_row more Hcols Hsub Hidx Huse)
      as [p [w' [Hp [Hrun _]]]].
    exists p, w'. split; [exact Hrun|]. split; [|exact Hp].
    unfold contact_drawing in Hp. rewrite Hsub in Hp. injection Hp as <-. simpl.
    unfold backdrop_in. now rewrite Hnone.
  - intros Hsub Hnone label Hlabel.
    assert (Huse : usable (disk w) (png (figure first_row)) = true)
      by (unfold usable; now rewrite Hnone).
    destruct (direction_panel_draws df a idx value w first_row more label
                Hcols Hsub Hlabel Hidx Huse) as [p [w' [Hp [Hrun _]]]].
    exists p, w'. split; [exact Hrun|]. split; [|exact Hp].
    unfold direction_drawing in Hp. rewrite Hsub, Hlabel in Hp. injection Hp as <-. simpl.
    unfold backdrop_in. now rewrite Hnone.
Qed.

Lemma missing_image_gray_background_witness :
  (exists p w',
     figure_panel scenario_table [None] 0 "arm" (fresh []) = (Ok (put [None] 0 p), w') /\
     backdrop p = Gray /\
     figure_drawing [] (rows scenario_table) "arm" = Some p) /\
  (exists p w',
     contact_panel scenario_table [None; None] 0 "pat" (fresh [])
     = (Ok (put [None; None] 0 p), w') /\
     backdrop p = Gray /\
     contact_drawing [] (rows scenario_table) "pat" = Some p) /\
  (exists p w',
     direction_panel scenario_table [None; None] 0 "touched" (fresh [])
     = (Ok (put [None; None] 0 p), w') /\
     backdrop p = Gray /\
     direction_drawing [] (rows scenario_table) "touched" = Some p).
Proof.
  destruct (missing_image_gray_background scenario_table [None] 0 (fresh []) "arm"
              scenario_row [] eq_refl (le_n 1)) as [Hfigure _].
  destruct (missing_image_gray_background scenario_table [None; None] 0 (fresh []) "pat"
              scenario_row [] eq_refl (le_S 1 1 (le_n 1))) as [_ [Hcontact _]].
  destruct (missing_image_gray_background scenario_table [None; None] 0 (fresh []) "touched"
              scenario_row [] eq_refl (le_S 1 1 (le_n 1))) as [_ [_ Hdirection]].
  split; [|split].
  - exact (Hfigure eq_refl).
  - exact (Hcontact eq_refl eq_refl).
  - exact (Hdirection eq_refl eq_refl "I touched" eq_refl).
Defined.

(** ** Distinct values *)

Lemma mem_In (x : string) (l : list string) : mem x l = true <-> In x l.
Proof.
  unfold mem. rewrite existsb_exists. split.
  - intros [y [Hy Heq]]. apply String.eqb_eq in Heq. now subst.
  - intro H. exists x. split; [exact H | apply String.eqb_refl].
Qed.

Lemma filter_twice {A : Type} (p q : A -> bool) (l : list A) :
  filter p (filter q l) = filter (fun y => q y && p y) l.
Proof.
  induction l as [|a l IH]; simpl; [reflexivity|].
  destruct (q a); simpl; [destruct (p a)|]; now rewrite IH.
Qed.

Lemma unique_from (l : list string) :
  forall seen,
    fold_left (fun seen x => if mem x seen then seen else seen ++ [x]) l seen =
    seen ++ filter (fun y => negb (mem y seen)) (first_occurrences l).
Proof.
  induction l as [|x l IH]; intro seen; simpl.
  - now rewrite app_nil_r.
  - rewrite IH. destruct (mem x seen) eqn:E; simpl.
    + f_equal. rewrite filter_twice. apply filter_ext. intro y.
      destruct (String.eqb x y) eqn:Exy; [|reflexivity].
      apply String.eqb_eq in Exy. subst y. now rewrite E.
    + rewrite <- app_assoc. simpl. f_equal. f_equal.
      rewrite filter_twice. apply filter_ext. intro y.
      unfold mem. rewrite existsb_app. simpl. rewrite orb_false_r.
      rewrite negb_orb, andb_comm. now rewrite (String.eqb_sym x y).
Qed.

(** [unique] lists the distinct values in order of first occurrence. *)
Lemma unique_first_occurrences (l : list string) : unique l = first_occurrences l.
Proof.
  unfold unique. rewrite unique_from. simpl.
  induction (first_occurrences l) as [|y t IH]; simpl; [reflexivity|]. now rewrite IH.
Qed.

Lemma first_occurrences_In (x : string) (l : list string) :
  In x (first_occurrences l) <-> In x l.
Proof.
  induction l as [|y l IH]; simpl; [tauto|].
  rewrite filter_In, IH. split.
  - intros [H | [H _]]; auto.
  - intros [H | H]; [now left|].
    destruct (String.eqb y x) eqn:E.
    + apply String.eqb_eq in E. now left.
    + right. split; [exact H | reflexivity].
Qed.

Lemma first_occurrences_NoDup (l : list string) : NoDup (first_occurrences l).
Proof.
  induction l as [|y l IH]; simpl; constructor.
  - rewrite filter_In. intros [_ H]. cbv beta in H. now rewrite String.eqb_refl in H.
  - now apply NoDup_filter.
Qed.

Lemma unique_In (x : string) (l : list string) : In x (unique l) <-> In x l.
Proof. rewrite unique_first_occurrences. apply first_occurrences_In. Qed.

Lemma unique_NoDup (l : list string) : NoDup (unique l).
Proof. rewrite unique_first_occurrences. apply first_occurrences_NoDup. Qed.

Lemma rows_with_first (field : point -> string) (value : string) (rs : list point) :
  In value (unique (map field rs)) ->
  exists first_row more,
    rows_with field value rs = first_row :: more /\ In first_row rs.
Proof.
  intro H. apply unique_In, in_map_iff in H. destruct H as [r [Hr Hin]].
  assert (Hsub : In r (rows_with field value rs)).
  { apply filter_In. split; [exact Hin|]. now apply String.eqb_eq. }
  destruct (rows_with field value rs) as [|r0 more] eqn:E; [contradiction|].
  exists r0, more. split; [reflexivity|].
  assert (Hr0 : In r0 (rows_with field value rs)) by (rewrite E; now left).
  now apply filter_In in Hr0.
Qed.

(** ** The axes of a figure *)

Lemma put_length (p : panel) (a : axes) : forall idx, length (put a idx p) = length a.
Proof.
  induction a as [|x a IH]; intro idx; simpl; [reflexivity|].
  destruct idx; simpl; [reflexivity|]. now rewrite IH.
Qed.

Lemma firstn_put (p : panel) (a : axes) :
  forall idx, idx < length a -> firstn (S idx) (put a idx p) = firstn idx a ++ [Some p].
Proof.
  induction a as [|x a IH]; intros idx H; simpl in H; [lia|].
  destruct idx; [reflexivity|].
  change (put (x :: a) (S idx) p) with (x :: put a idx p).
  change (firstn (S (S idx)) (x :: put a idx p)) with (x :: firstn (S idx) (put a idx p)).
  rewrite IH by lia. reflexivity.
Qed.

Lemma skipn_put (p : panel) (a : axes) :
  forall idx n, idx < n -> skipn n (put a idx p) = skipn n a.
Proof.
  induction a as [|x a IH]; intros idx n H; simpl; [reflexivity|].
  destruct n; [lia|]. destruct idx; simpl; [reflexivity|].
  apply IH. lia.
Qed.


(** ** Loops over the distinct values *)

Section Loop.

Variable body : axes -> nat -> string -> M axes.
Variable drawing : string -> option panel.
Variable d : list (string * content).
Variable good : string -> Prop.

Hypothesis body_draws :
  forall v a idx w,
    good v -> disk w = d -> idx < length a ->
    exists p w',
      drawing v = Some p /\ body a idx v w = (Ok (put a idx p), w') /\ quiet w w'.

(** A loop whose rounds all draw fills the axes from [idx] on, one panel per
    value, in the order of the values. *)
Lemma for_enumerate_draws (values : list string) :
  forall idx a w,
    Forall good values -> disk w = d -> idx + length values <= length a ->
    exists w',
      for_enumerate body idx values a w =
      (Ok (firstn idx a ++ map drawing values ++ skipn (idx + length values) a), w') /\
      quiet w w'.
Proof.
  induction values as [|v rest IH]; intros idx a w Hgood Hdisk Hlen; simpl.
  - exists w. split; [|apply quiet_refl].
    unfold ret. now rewrite Nat.add_0_r, firstn_skipn.
  - inversion Hgood as [|? ? Hv Hrest]; subst. simpl in Hlen.
    destruct (body_draws v a idx w Hv eq_refl ltac:(lia)) as [p [w1 [Hp [Hrun Hq1]]]].
    rewrite (bind_ok _ _ _ _ _ Hrun).
    assert (Hdisk1 : disk w1 = disk w) by apply Hq1.
    destruct (IH (S idx) (put a idx p) w1 Hrest Hdisk1
                 ltac:(rewrite put_length; lia)) as [w2 [Hloop Hq2]].
    exists w2. split; [|eapply quiet_trans; eassumption].
    rewrite Hloop. f_equal. f_equal.
    rewrite firstn_put by lia. rewrite skipn_put by lia.
    rewrite Hp, <- app_assoc. simpl.
    now replace (idx + S (length rest)) with (S idx + length rest) by lia.
Qed.

End Loop.

(** ** The three renderings *)

Lemma unique_nonempty (field : point -> string) (rs : list point) :
  rs <> [] -> (length (unique (map field rs)) =? 0) = false.
Proof.
  intro H. destruct rs as [|r rs]; [contradiction|].
  apply Nat.eqb_neq. intro Hlen.
  apply length_zero_iff_nil in Hlen.
  assert (Hin : In (field r) (unique (map field (r :: rs)))) by (apply unique_In; now left).
  now rewrite Hlen in Hin.
Qed.

Lemma subplots_ok (ncols : nat) (w : world) :
  (ncols =? 0) = false -> subplots ncols w = (Ok (repeat None ncols), w).
Proof. intro H. unfold subplots. now rewrite H. Qed.


(** The figure by figure, 6 inches wide for each panel, is accepted up to 36
    panels and refused from 37 panels on. *)
Lemma renders_panels (num_figures : nat) :
  renders (6 * num_figures, 8) = true <-> num_figures < 37.
Proof.
  unfold renders, pixels. cbn [fst snd].
  rewrite andb_true_iff, !Z.ltb_lt. change (2 ^ 16)%Z with 65536%Z. lia.
Qed.


(** From 37 distinct figures on the panels are drawn, and the figure is too
    wide to be saved. *)
Lemma render_on_figures_refused (df : DataFrame) (w : world) :
  columns df = field_names ->
  37 <= length (unique (map figure (rows df))) ->
  (forall r, In r (rows df) -> usable (disk w) (png (figure r)) = true) ->
  exists w',
    render_on_figures df w = (Raise ValueError, w') /\
    saved w' = saved w /\ disk w' = disk w /\ current w' = current w.
Proof.
  intros Hcols Hwide Huse.
  assert (Hrefused : renders (6 * length (unique (map figure (rows df))), 8) = false).
  { destruct (renders (6 * length (unique (map figure (rows df))), 8)) eqn:E; [|reflexivity].
    apply renders_panels in E. lia. }
  assert (Hrows : rows df <> []).
  { intro H. rewrite H in Hwide. simpl in Hwide. lia. }
  unfold render_on_figures. step_getitem Hcols.
  set (figures := unique (map figure (rows df))) in *.
  rewrite (bind_ok _ _ _ _ _ (subplots_ok _ w (unique_nonempty figure (rows df) Hrows))).
  fold figures.
  destruct (for_enumerate_draws (figure_panel df) (figure_drawing (disk w) (rows df)) (disk w)
              (fun v => usable (disk w) (png v) = true)) with
    (values := figures) (idx := 0) (a := repeat (@None panel) (length figures)) (w := w)
    as [w1 [Hloop [Hd [Hs Hc]]]].
  - intros v a idx w0 Hv Hdisk Hidx.
    rewrite <- Hdisk in Hv.
    destruct (figure_panel_draws df a idx v w0 Hcols Hidx Hv) as [p [w' [Hp [Hrun [Hq _]]]]].
    exists p, w'. rewrite <- Hdisk. exact (conj Hp (conj Hrun Hq)).
  - apply Forall_forall. intros v Hv.
    apply unique_In, in_map_iff in Hv. destruct Hv as [r [<- Hr]]. now apply Huse.
  - reflexivity.
  - rewrite repeat_length. simpl. lia.
  - rewrite (bind_ok _ _ _ _ _ Hloop).
    exists w1. split; [|now repeat split].
    unfold bind, savefig. now rewrite Hrefused.
Qed.


Lemma labels_get_known (dir : string) :
  known_direction dir ->
  exists label, labels_get direction_labels dir = Some label.
Proof. intros [-> | ->]; eexists; reflexivity. Qed.






(** Three contact types need a third axes, and the figure has two. *)
Example three_contact_types :
  let row c := {| participantId := "p1"; figure := "arm"; contactType := c;
                  direction := "touched"; xNorm := 1 # 2; yNorm := 1 # 2;
                  confidence := 1 # 2 |} in
  let df := {| columns := field_names; rows := [row "pat"; row "stroke"; row "grab"] |} in
  fst (render_by_contacttype df (fresh [])) = Raise IndexError /\
  fst (render_on_figures df (fresh [])) = Ok tt.
Proof. split; reflexivity. Qed.

(** ** Stage and saved figures along a run *)

Lemma sound_ret {A : Type} (a : A) : sound (ret a).
Proof. intro w. now split. Qed.

Lemma sound_raise {A : Type} (e : exn) : sound (@raise A e).
Proof. intro w. now split. Qed.

Lemma sound_bind {A B : Type} (m : M A) (k : A -> M B) :
  sound m -> (forall a, sound (k a)) -> sound (bind m k).
Proof.
  intros Hm Hk w. unfold bind. specialize (Hm w).
  destruct (m w) as [[a|e|] w1]; [|exact Hm|contradiction].
  specialize (Hk a w1). destruct Hm as [Hc Hs].
  destruct (k a w1) as [[b|e|] w2]; [| |contradiction];
    destruct Hk as [Hc' Hs']; split; congruence.
Qed.

Lemma sound_print (l : line) : sound (print l).
Proof. intro w. now split. Qed.

Lemma sound_getitem {A : Type} (df : DataFrame) (name : string) (field : point -> A) :
  sound (getitem df name field).
Proof. intro w. unfold getitem. destruct (mem name (columns df)); now split. Qed.

Lemma sound_select (df : DataFrame) (name : string) (field : point -> string) (value : string) :
  sound (select df name field value).
Proof. apply sound_bind; [apply sound_getitem | intro; apply sound_ret]. Qed.

Lemma sound_iloc0 {A : Type} (df : DataFrame) (name : string) (field : point -> A) :
  sound (iloc0 df name field).
Proof.
  intro w. unfold iloc0. destruct (rows df); [now split|].
  destruct (mem name (columns df)); now split.
Qed.

Lemma sound_histogram2d (x y : list Q) (bins : nat) : sound (lift (histogram2d x y bins)).
Proof.
  intro w. unfold lift, histogram2d.
  destruct (negb (length x =? length y)); [now split|].
  destruct (bins =? 0); now split.
Qed.

Lemma sound_os_path_exists (path : string) : sound (os_path_exists path).
Proof. intro w. unfold os_path_exists. destruct (lookup path (disk w)); now split. Qed.

Lemma sound_Image_open (path : string) : sound (Image_open path).
Proof.
  intro w. unfold Image_open. destruct (lookup path (disk w)) as [[t|]|]; now split.
Qed.

Lemma sound_axes_at (a : axes) (idx : nat) : sound (axes_at a idx).
Proof. intro w. unfold axes_at. destruct (idx <? length a); now split. Qed.

Lemma sound_subplots (ncols : nat) : sound (subplots ncols).
Proof. intro w. unfold subplots. destruct (ncols =? 0); now split. Qed.

Lemma sound_direction_label (dir : string) : sound (direction_label dir).
Proof.
  intro w. unfold direction_label. destruct (labels_get direction_labels dir); now split.
Qed.

Ltac sound_steps :=
  repeat first
    [ apply sound_ret | apply sound_raise | apply sound_print | apply sound_getitem
    | apply sound_select | apply sound_iloc0 | apply sound_histogram2d
    | apply sound_os_path_exists | apply sound_Image_open | apply sound_axes_at
    | apply sound_subplots | apply sound_direction_label
    | apply sound_bind; [|intro] ].

Lemma sound_panel_background (a : axes) (idx : nat) (path : string) :
  sound (panel_background a idx path).
Proof.
  unfold panel_background. apply sound_bind; [apply sound_os_path_exists|].
  intros []; sound_steps.
Qed.

Lemma sound_figure_background (a : axes) (idx : nat) (path : string) :
  sound (figure_background a idx path).
Proof.
  unfold figure_background. apply sound_bind; [apply sound_os_path_exists|].
  intros []; sound_steps.
Qed.

Lemma sound_figure_panel (df : DataFrame) (a : axes) (idx : nat) (fig : string) :
  sound (figure_panel df a idx fig).
Proof.
  unfold figure_panel. apply sound_bind; [apply sound_select | intro].
  apply sound_bind; [apply sound_figure_background | intro]. sound_steps.
Qed.

Lemma sound_contact_panel (df : DataFrame) (a : axes) (idx : nat) (c : string) :
  sound (contact_panel df a idx c).
Proof.
  unfold contact_panel. apply sound_bind; [apply sound_select | intro].
  apply sound_bind; [apply sound_iloc0 | intro].
  apply sound_bind; [apply sound_panel_background | intro]. sound_steps.
Qed.

Lemma sound_direction_panel (df : DataFrame) (a : axes) (idx : nat) (dir : string) :
  sound (direction_panel df a idx dir).
Proof.
  unfold direction_panel. apply sound_bind; [apply sound_select | intro].
  apply sound_bind; [apply sound_iloc0 | intro].
  apply sound_bind; [apply sound_panel_background | intro]. sound_steps.
Qed.

Lemma sound_for_enumerate (body : axes -> nat -> string -> M axes) (values : list string) :
  (forall a idx v, sound (body a idx v)) ->
  forall idx a, sound (for_enumerate body idx values a).
Proof.
  intro Hbody. induction values as [|v rest IH]; intros idx a; simpl.
  - apply sound_ret.
  - apply sound_bind; [apply Hbody | intro; apply IH].
Qed.

Lemma stops_bind_l {A B : Type} (m : M A) (k : A -> M B) : stops m -> stops (bind m k).
Proof.
  intros Hm w. destruct (Hm w) as [e [w' [Hrun Hrest]]].
  exists e, w'. split; [|exact Hrest]. now apply bind_raise.
Qed.

Lemma stops_bind_r {A B : Type} (m : M A) (k : A -> M B) :
  sound m -> (forall a, stops (k a)) -> stops (bind m k).
Proof.
  intros Hm Hk w. unfold bind. specialize (Hm w).
  destruct (m w) as [[a|e|] w1]; [| |contradiction]; destruct Hm as [Hc Hs].
  - destruct (Hk a w1) as [e [w2 [Hrun [Hc' Hs']]]].
    exists e, w2. split; [exact Hrun|]. split; congruence.
  - exists e, w1. now repeat split.
Qed.

(** A panel of the direction breakdown whose direction has no label is never
    completed. *)
Lemma direction_panel_stops (df : DataFrame) (a : axes) (idx : nat) (dir : string) :
  labels_get direction_labels dir = None ->
  stops (direction_panel df a idx dir).
Proof.
  intro Hnone. unfold direction_panel.
  apply stops_bind_r; [apply sound_select | intro].
  apply stops_bind_r; [apply sound_iloc0 | intro].
  apply stops_bind_r; [apply sound_panel_background | intro].
  do 5 (apply stops_bind_r; [sound_steps | intro]).
  apply stops_bind_l. intro w. unfold direction_label. rewrite Hnone.
  exists (KeyError dir), w. now repeat split.
Qed.

Lemma for_enumerate_stops (body : axes -> nat -> string -> M axes) (values : list string)
    (bad : string) :
  (forall a idx v, sound (body a idx v)) ->
  (forall a idx, stops (body a idx bad)) ->
  In bad values ->
  forall idx a, stops (for_enumerate body idx values a).
Proof.
  intros Hsound Hbad. induction values as [|v rest IH]; intros Hin idx a; simpl.
  - contradiction.
  - destruct (String.string_dec v bad) as [-> | Hne].
    + apply stops_bind_l, Hbad.
    + apply stops_bind_r; [apply Hsound|]. intro a'. apply IH.
      destruct Hin as [H | H]; [contradiction | exact H].
Qed.

Lemma render_by_direction_stops (df : DataFrame) (r : point) :
  columns df = field_names ->
  In r (rows df) ->
  labels_get direction_labels (direction r) = None ->
  stops (render_by_direction df).
Proof.
  intros Hcols Hr Hnone. unfold render_by_direction.
  apply stops_bind_r; [apply sound_subplots | intro a].
  intro w. step_getitem Hcols. revert w.
  apply stops_bind_l.
  apply (for_enumerate_stops _ _ (direction r)).
  - intros; apply sound_direction_panel.
  - intros; now apply direction_panel_stops.
  - apply unique_In, in_map. exact Hr.
Qed.

Lemma saves_at_end {A : Type} (name : string) (figsize : nat * nat) (m : M A)
    (k : A -> axes) (l : line) :
  sound m -> saves name (a <- m ;; savefig name figsize (k a) ;; print l).
Proof.
  intros Hm w. unfold bind. specialize (Hm w).
  destruct (m w) as [[a|e|] w1]; [| exact Hm | contradiction].
  destruct Hm as [Hc Hs]. unfold savefig. destruct (renders figsize); simpl.
  - split; [exact Hc|]. eexists. now rewrite Hs.
  - now split.
Qed.

Lemma saves_bind {A : Type} (name : string) (m : M A) (k : A -> M unit) :
  sound m -> (forall a, saves name (k a)) -> saves name (bind m k).
Proof.
  intros Hm Hk w. unfold bind. specialize (Hm w).
  destruct (m w) as [[a|e|] w1]; [| exact Hm | contradiction].
  destruct Hm as [Hc Hs]. specialize (Hk a w1).
  destruct (k a w1) as [[u|e|] w2]; [| |contradiction].
  - destruct Hk as [Hc' [ax Hs']]. split; [congruence|]. exists ax. congruence.
  - destruct Hk as [Hc' Hs']. split; congruence.
Qed.

Lemma render_on_figures_saves (df : DataFrame) :
  saves "heatmaps_on_figures.png" (render_on_figures df).
Proof.
  unfold render_on_figures.
  apply saves_bind; [apply sound_getitem | intro col].
  apply saves_bind; [apply sound_subplots | intro a].
  apply (saves_at_end _ _ _ (fun a' => a')).
  apply sound_for_enumerate. intros; apply sound_figure_panel.
Qed.

Lemma render_by_contacttype_saves (df : DataFrame) :
  saves "heatmaps_by_contacttype.png" (render_by_contacttype df).
Proof.
  unfold render_by_contacttype.
  apply saves_bind; [apply sound_subplots | intro a].
  apply saves_bind; [apply sound_getitem | intro col].
  apply (saves_at_end _ _ _ (fun a' => a')).
  apply sound_for_enumerate. intros; apply sound_contact_panel.
Qed.

(** A table with a direction outside the vocabulary does not get through the
    Renderer: the run stops there, with at most the first two figures
    saved. *)
Lemma render_stops (df : DataFrame) (r : point) (w : world) :
  columns df = field_names ->
  In r (rows df) ->
  labels_get direction_labels (direction r) = None ->
  exists e w',
    render df w = (Raise e, w') /\
    current w' = Renderer /\
    exists figs,
      saved w' = saved w ++ figs /\ ~ In "heatmaps_by_direction.png" (map fst figs).
Proof.
  intros Hcols Hr Hnone. unfold render.
  unfold bind at 1. unfold enter at 1.
  set (w0 := {| disk := disk w; accessed := accessed w; stdout := stdout w;
                saved := saved w; current := Renderer |}).
  assert (Hc0 : current w0 = Renderer) by reflexivity.
  assert (Hs0 : saved w0 = saved w) by reflexivity.
  clearbody w0.
  pose proof (render_on_figures_saves df w0) as H1.
  unfold bind at 1.
  destruct (render_on_figures df w0) as [[[]|e|] w1]; [| |contradiction].
  - destruct H1 as [Hc1 [a1 Hs1]].
    pose proof (render_by_contacttype_saves df w1) as H2.
    unfold bind at 1.
    destruct (render_by_contacttype df w1) as [[[]|e|] w2]; [| |contradiction].
    + destruct H2 as [Hc2 [a2 Hs2]].
      destruct (render_by_direction_stops df r Hcols Hr Hnone w2) as [e [w3 [Hrun [Hc3 Hs3]]]].
      exists e, w3. split; [exact Hrun|]. split; [congruence|].
      exists [("heatmaps_on_figures.png", a1); ("heatmaps_by_contacttype.png", a2)].
      split.
      * rewrite Hs3, Hs2, Hs1, Hs0, <- app_assoc. reflexivity.
      * simpl. intros [H | [H | H]]; [discriminate | discriminate | exact H].
    + destruct H2 as [Hc2 Hs2].
      exists e, w2. split; [reflexivity|]. split; [congruence|].
      exists [("heatmaps_on_figures.png", a1)]. split.
      * now rewrite Hs2, Hs1, Hs0.
      * simpl. intros [H | H]; [discriminate | exact H].
  - destruct H1 as [Hc1 Hs1].
    exists e, w1. split; [reflexivity|]. split; [congruence|].
    exists []. split; [now rewrite app_nil_r, Hs1, Hs0 | intros []].
Qed.

Lemma summary_ok (df : DataFrame) (w : world) :
  columns df = field_names ->
  exists w', summary df w = (Ok tt, w') /\ saved w' = saved w.
Proof.
  intro Hcols. unfold summary.
  unfold bind, enter, print, getitem, ret. simpl. rewrite Hcols. simpl.
  eexists. split; reflexivity.
Qed.

Lemma DataFrame_of_rows (points : list json) (rs : list point) (r : point) :
  points_of_json points = Some rs ->
  In r rs ->
  DataFrame_of points = Ok {| columns := field_names; rows := rs |}.
Proof.
  intros Hp Hr. unfold DataFrame_of. rewrite Hp.
  destruct rs; [contradiction | reflexivity].
Qed.

Lemma labels_get_spec (dir label : string) :
  labels_get direction_labels dir = Some label <->
  (dir = "touched" /\ label = "I touched") \/
  (dir = "touched_by" /\ label = "I was touched").
Proof.
  unfold direction_labels. cbn [labels_get].
  destruct (String.eqb "touched_by" dir) eqn:Eby.
  - apply String.eqb_eq in Eby. subst dir. split.
    + intro H. injection H as H. subst label. now right.
    + intros [[H _] | [_ H]]; [discriminate | now subst label].
  - apply String.eqb_neq in Eby.
    destruct (String.eqb "touched" dir) eqn:Et.
    + apply String.eqb_eq in Et. subst dir. split.
      * intro H. injection H as H. subst label. now left.
      * intros [[_ H] | [H _]]; [now subst label | discriminate].
    + apply String.eqb_neq in Et. split; [discriminate|].
      intros [[H _] | [H _]]; congruence.
Qed.

Lemma labels_get_unknown (dir : string) :
  ~ known_direction dir -> labels_get direction_labels dir = None.
Proof.
  intro H. destruct (labels_get direction_labels dir) as [label|] eqn:E; [|reflexivity].
  exfalso. apply H. apply labels_get_spec in E.
  destruct E as [[-> _] | [-> _]]; [now left | now right].
Qed.

(** C4, as the code has it.  The label lookup succeeds for "touched" (with
    "I touched") and "touched_by" (with "I was touched") and for no other
    value; for any other value it raises [KeyError].  In a run, a table with
    such a value stops in the Renderer (the title of the direction panel is
    the first lookup, line 209; a third panel has no axes): the figure by
    direction is not saved, and the lookup of the Reporter is not reached. *)
Theorem direction_label_lookup :
  (forall dir label,
     labels_get direction_labels dir = Some label <->
     (dir = "touched" /\ label = "I touched") \/
     (dir = "touched_by" /\ label = "I was touched")) /\
  (forall dir w,
     ~ known_direction dir -> direction_label dir w = (Raise (KeyError dir), w)) /\
  (forall prog path rest w data points rs r,
     lookup path (disk w) = Some (Text (Some data)) ->
     flatten data = Ok points ->
     points_of_json points = Some rs ->
     In r rs ->
     ~ known_direction (direction r) ->
     exists e w',
       main (prog :: path :: rest) w = (Raise e, w') /\
       current w' = Renderer /\
       exists figs,
         saved w' = saved w ++ figs /\ ~ In "heatmaps_by_direction.png" (map fst figs)).
Proof.
  split; [exact labels_get_spec|]. split.
  - intros dir w H. unfold direction_label. now rewrite (labels_get_unknown dir H).
  - intros prog path rest w data points rs r Hfile Hflat Hpoints Hr Hunknown.
    rewrite main_opens_argument.
    unfold bind at 1. unfold open_json. simpl disk. rewrite Hfile.
    unfold bind at 1. unfold enter at 1.
    unfold bind at 1. unfold lift at 1. rewrite Hflat.
    unfold bind at 1. unfold enter at 1.
    unfold bind at 1. unfold lift at 1. rewrite (DataFrame_of_rows points rs r Hpoints Hr).
    match goal with
    | |- context [bind (summary ?df) _ ?w0] =>
        destruct (summary_ok df w0 eq_refl) as [w1 [Hsum Hs1]];
        rewrite (bind_ok _ _ _ _ _ Hsum)
    end.
    destruct (render_stops {| columns := field_names; rows := rs |} r w1 eq_refl Hr
                (labels_get_unknown _ Hunknown)) as [e [w2 [Hrun [Hc [figs [Hs2 Hnot]]]]]].
    exists e, w2. split; [now apply bind_raise|]. split; [exact Hc|].
    exists figs. split; [|exact Hnot].
    rewrite Hs2, Hs1. reflexivity.
Qed.

Lemma direction_label_lookup_witness :
  exists e w',
    main ["parse_bodymap.py"; "log.json"] (fresh [("log.json", Text (Some sideways_log))])
    = (Raise e, w') /\
    current w' = Renderer /\
    exists figs,
      saved w' = [] ++ figs /\ ~ In "heatmaps_by_direction.png" (map fst figs).
Proof.
  refine (proj2 (proj2 direction_label_lookup) "parse_bodymap.py" "log.json" []
            (fresh [("log.json", Text (Some sideways_log))])
            sideways_log [sideways_point] [sideways_row] sideways_row
            eq_refl eq_refl eq_refl (or_introl eq_refl) _).
  intros [H | H]; discriminate H.
Defined.

(** The run on a log whose only direction is "sideways": the lookup fails in
    the Renderer, after two figures have been saved and before the statistics
    of the Reporter. *)
Lemma sideways_fails_in_renderer :
  let run := main ["parse_bodymap.py"; "log.json"]
                  (fresh [("log.json", Text (Some sideways_log))]) in
  fst run = Raise (KeyError "sideways") /\
  current (snd run) = Renderer /\
  current (snd run) <> Reporter /\
  map fst (saved (snd run)) = ["heatmaps_on_figures.png"; "heatmaps_by_contacttype.png"] /\
  stdout (snd run) =
    [SummaryHeader; TotalPoints 1; Participants ["p1"]; Figures ["arm"];
     ContactTypes ["pat"]; Directions ["sideways"]; NotFound "arm.png";
     SavedOnFigures; SavedByContactType].
Proof.
  cbv zeta.
  split; [vm_compute; reflexivity|].
  split; [vm_compute; reflexivity|].
  split; [vm_compute; discriminate|].
  split; vm_compute; reflexivity.
Qed.

(** * Further properties *)

(** ** Errors of the Flattener *)

Lemma flatten_loop_app (before rest : list json) :
  Forall valid_entry before ->
  forall points,
    flatten_loop (before ++ rest) points =
    flatten_loop rest (points ++ flat_map participant_points before).
Proof.
  induction 1 as [|j js Hj _ IH]; intro points; simpl.
  - now rewrite app_nil_r.
  - destruct Hj as [-> | [ms ->]]; simpl.
    + apply IH.
    + rewrite IH, append_points_spec. now rewrite <- app_assoc.
Qed.

(** X1. An entry of the ['data'] list that is neither null nor a map stops
    the Flattener with [AttributeError], whatever the entries after it; the
    entries before it do not matter as long as they are null or maps. *)
Theorem flatten_stops_at_invalid_entry (members : list (string * json))
    (before after : list json) (bad : json) :
  dict_get "data" members = Some (JArr (before ++ bad :: after)) ->
  Forall valid_entry before ->
  ~ valid_entry bad ->
  flatten (JObj members) = Raise AttributeError.
Proof.
  intros Hdata Hbefore Hbad.
  unfold flatten, subscript_data. rewrite Hdata. simpl iterate. cbv iota.
  rewrite (flatten_loop_app before (bad :: after) Hbefore). simpl.
  destruct bad; try reflexivity.
  - exfalso. apply Hbad. now left.
  - exfalso. apply Hbad. right. now eexists.
Qed.

Lemma flatten_stops_at_invalid_entry_witness :
  flatten (JObj [("data", JArr ([JNull; JObj [("t0", scenario_point)]]
                                 ++ JStr "n/a" :: [JNull]))])
  = Raise AttributeError.
Proof.
  apply (flatten_stops_at_invalid_entry
           [("data", JArr ([JNull; JObj [("t0", scenario_point)]] ++ JStr "n/a" :: [JNull]))]
           [JNull; JObj [("t0", scenario_point)]] [JNull] (JStr "n/a")).
  - reflexivity.
  - apply Forall_cons; [now left|].
    apply Forall_cons; [right; now eexists | apply Forall_nil].
  - intros [H | [ms H]]; discriminate H.
Defined.

Lemma main_flatten_raises (prog path : string) (rest : list string) (w : world)
    (data : json) (e : exn) :
  lookup path (disk w) = Some (Text (Some data)) ->
  flatten data = Raise e ->
  main (prog :: path :: rest) w = (Raise e, at_stage Flattener (touch path w)).
Proof.
  intros Hfile Hflat. rewrite main_opens_argument.
  unfold bind at 1. unfold open_json. simpl disk. rewrite Hfile.
  unfold bind at 1. unfold enter at 1.
  unfold bind at 1. unfold lift at 1. rewrite Hflat.
  reflexivity.
Qed.

(** X2. A document that is an object without the key ['data'] stops the run
    with [KeyError('data')], and a document that is not an object stops it
    with [TypeError]; in both cases the run ends in the Flattener, with
    nothing printed and no figure saved. *)
Theorem document_without_data_aborts (prog path : string) (rest : list string) (w : world)
    (data : json) :
  lookup path (disk w) = Some (Text (Some data)) ->
  (forall members, data = JObj members -> dict_get "data" members = None ->
   main (prog :: path :: rest) w =
   (Raise (KeyError "data"), at_stage Flattener (touch path w))) /\
  ((forall members, data <> JObj members) ->
   main (prog :: path :: rest) w = (Raise TypeError, at_stage Flattener (touch path w))) /\
  stdout (at_stage Flattener (touch path w)) = stdout w /\
  saved (at_stage Flattener (touch path w)) = saved w.
Proof.
  intro Hfile. split; [|split; [|split; reflexivity]].
  - intros members -> Hnone.
    apply (main_flatten_raises _ _ _ _ _ _ Hfile).
    unfold flatten, subscript_data. now rewrite Hnone.
  - intro Hnot.
    apply (main_flatten_raises _ _ _ _ _ _ Hfile).
    destruct data; try reflexivity.
    exfalso. now apply (Hnot members).
Qed.

Lemma document_without_data_aborts_witness :
  main ["parse_bodymap.py"; "log.json"]
       (fresh [("log.json", Text (Some (JObj [("points", JArr [])])))])
  = (Raise (KeyError "data"),
     at_stage Flattener
       (touch "log.json" (fresh [("log.json", Text (Some (JObj [("points", JArr [])])))]))) /\
  main ["parse_bodymap.py"; "log.json"] (fresh [("log.json", Text (Some (JArr [])))])
  = (Raise TypeError,
     at_stage Flattener (touch "log.json" (fresh [("log.json", Text (Some (JArr [])))]))).
Proof.
  split.
  - refine (proj1 (document_without_data_aborts "parse_bodymap.py" "log.json" []
                     (fresh [("log.json", Text (Some (JObj [("points", JArr [])])))])
                     (JObj [("points", JArr [])]) eq_refl)
                  [("points", JArr [])] eq_refl eq_refl).
  - refine (proj1 (proj2 (document_without_data_aborts "parse_bodymap.py" "log.json" []
                            (fresh [("log.json", Text (Some (JArr [])))])
                            (JArr []) eq_refl)) _).
    intros members H. discriminate H.
Defined.

(** ** Groups of rows *)


Lemma sum_indicator_once (c : nat) (L : list string) :
  NoDup L ->
  forall x,
    sum_nat (map (fun v => if String.eqb x v then c else 0) L) =
    if mem x L then c else 0.
Proof.
  induction 1 as [|y L Hy Hnd IH]; intro x; [reflexivity|].
  simpl. rewrite IH. rewrite (String.eqb_sym x y).
  destruct (String.eqb y x) eqn:E; simpl; [|reflexivity].
  apply String.eqb_eq in E. subst y.
  destruct (mem x L) eqn:Em; [|lia].
  apply mem_In in Em. contradiction.
Qed.

(** Summing over the groups of a key is summing over the rows, as soon as
    the keys are listed once each. *)
Lemma partition_sum {A : Type} (key : A -> string) (g : A -> nat) (L : list string) :
  NoDup L ->
  forall rs,
    (forall r, In r rs -> In (key r) L) ->
    sum_nat (map (fun v => sum_nat (map g (filter (fun r => String.eqb (key r) v) rs))) L)
    = sum_nat (map g rs).
Proof.
  intro Hnd. induction rs as [|r rs IH]; intro Hkeys; simpl.
  - apply sum_nat_map_zero.
  - rewrite (sum_nat_map_ext _
               (fun v => (if String.eqb (key r) v then g r else 0)
                         + sum_nat (map g (filter (fun r => String.eqb (key r) v) rs)))).
    + rewrite sum_nat_map_plus, IH by (intros; apply Hkeys; now right).
      rewrite (sum_indicator_once _ L Hnd).
      assert (Hm : mem (key r) L = true) by (apply mem_In, Hkeys; now left).
      now rewrite Hm.
    + intro v. destruct (String.eqb (key r) v); reflexivity.
Qed.

Lemma sum_nat_ones {A : Type} (l : list A) : sum_nat (map (fun _ => 1) l) = length l.
Proof. induction l as [|a l IH]; simpl; [reflexivity|]. now rewrite IH. Qed.

Lemma groups_cover (field : point -> string) (rs : list point) :
  sum_nat (map (fun v => length (rows_with field v rs)) (unique (map field rs))) = length rs.
Proof.
  rewrite <- (sum_nat_ones rs).
  rewrite <- (partition_sum field (fun _ => 1) (unique (map field rs)) (unique_NoDup _) rs).
  - apply sum_nat_map_ext. intro v. unfold rows_with. now rewrite sum_nat_ones.
  - intros r Hr. apply unique_In, in_map, Hr.
Qed.

(** X3. [value_counts] has one entry for each distinct value of the column
    and no other, each with the number of rows that carry the value, and the
    counts add up to the number of rows. *)
Theorem value_counts_total (col : list string) :
  NoDup (map fst (value_counts col)) /\
  sum_nat (map snd (value_counts col)) = length col /\
  (forall v n, In (v, n) (value_counts col) <->
               In v col /\ n = length (filter (String.eqb v) col)) /\
  (forall v n, In (v, n) (value_counts col) -> 0 < n).
Proof.
  assert (Hkeys : map fst (value_counts col) = unique col).
  { unfold value_counts. rewrite map_map. simpl. apply map_id. }
  assert (Hiff : forall v n, In (v, n) (value_counts col) <->
                             In v col /\ n = length (filter (String.eqb v) col)).
  { intros v n. unfold value_counts. rewrite in_map_iff. split.
    - intros [v' [Heq Hv]]. injection Heq as Hv' Hn. subst v' n.
      apply (proj1 (unique_In _ _)) in Hv. now split.
    - intros [Hv ->]. exists v. split; [reflexivity | now apply unique_In]. }
  split; [rewrite Hkeys; apply unique_NoDup|]. split; [|split; [exact Hiff|]].
  - unfold value_counts. rewrite map_map. simpl.
    rewrite <- (sum_nat_ones col).
    rewrite <- (partition_sum (fun x : string => x) (fun _ => 1) (unique col)
                  (unique_NoDup _) col) by (intros; now apply unique_In).
    apply sum_nat_map_ext. intro v. rewrite sum_nat_ones.
    f_equal. apply filter_ext. intro x. apply String.eqb_sym.
  - intros v n Hin. apply Hiff in Hin. destruct Hin as [Hv ->].
    assert (H : In v (filter (String.eqb v) col)).
    { apply filter_In. split; [exact Hv | apply String.eqb_refl]. }
    destruct (filter (String.eqb v) col); [contradiction | simpl; lia].
Qed.

(** ** The statistics of the Reporter *)

Lemma enter_at (s : stage) (w : world) : enter s w = (Ok tt, at_stage s w).
Proof. reflexivity. Qed.

Lemma print_printed (l : line) (w : world) : print l w = (Ok tt, printed [l] w).
Proof. reflexivity. Qed.

Lemma printed_printed (l1 l2 : list line) (w : world) :
  printed l2 (printed l1 w) = printed (l1 ++ l2) w.
Proof. unfold printed. simpl. now rewrite app_assoc. Qed.

Lemma printed_nil (w : world) : printed [] w = w.
Proof. destruct w. unfold printed. simpl. now rewrite app_nil_r. Qed.

Lemma report_direction_known (df : DataFrame) (dir label : string) (w : world) :
  columns df = field_names ->
  labels_get direction_labels dir = Some label ->
  report_direction df dir w = (Ok tt, printed [direction_line (rows df) dir] w).
Proof.
  intros Hcols Hlabel. unfold report_direction.
  unfold bind at 1. unfold direction_label. rewrite Hlabel. unfold ret at 1.
  rewrite (bind_ok _ _ _ _ _ (select_ok df "direction" direction dir w
                                ltac:(now rewrite Hcols))).
  rewrite print_printed. unfold direction_line, label_of. now rewrite Hlabel.
Qed.

Lemma for_each_known (df : DataFrame) (values : list string) :
  columns df = field_names ->
  Forall known_direction values ->
  forall w,
    for_each (report_direction df) values w =
    (Ok tt, printed (map (direction_line (rows df)) values) w).
Proof.
  intros Hcols. induction 1 as [|v rest Hv _ IH]; intro w; simpl.
  - now rewrite printed_nil.
  - destruct (labels_get_known v Hv) as [label Hlabel].
    rewrite (bind_ok _ _ _ _ _ (report_direction_known df v label w Hcols Hlabel)).
    rewrite IH. now rewrite printed_printed.
Qed.

Lemma for_each_unknown (df : DataFrame) (before after : list string) (dir : string) :
  columns df = field_names ->
  Forall known_direction before ->
  ~ known_direction dir ->
  forall w,
    for_each (report_direction df) (before ++ dir :: after) w =
    (Raise (KeyError dir), printed (map (direction_line (rows df)) before) w).
Proof.
  intros Hcols Hbefore Hdir. induction Hbefore as [|v rest Hv _ IH]; intro w; simpl.
  - rewrite printed_nil. unfold bind, report_direction, bind, direction_label.
    now rewrite (labels_get_unknown dir Hdir).
  - destruct (labels_get_known v Hv) as [label Hlabel].
    rewrite (bind_ok _ _ _ _ _ (report_direction_known df v label w Hcols Hlabel)).
    rewrite IH. now rewrite printed_printed.
Qed.

Lemma mean_confidence_ok (df : DataFrame) (w : world) :
  columns df = field_names ->
  mean_confidence_by_contacttype df w = (Ok (confidence_means (rows df)), w).
Proof. intro Hcols. unfold mean_confidence_by_contacttype. now rewrite Hcols. Qed.

Lemma statistics_begins (df : DataFrame) (w : world) (k : M unit) :
  columns df = field_names ->
  (enter Reporter ;;
   print StatisticsHeader ;;
   print ContactTypesHeader ;;
   cs <- getitem df "contactType" contactType ;;
   print (ValueCounts (value_counts cs)) ;;
   print DirectionsHeader ;;
   ds <- getitem df "direction" direction ;;
   for_each (report_direction df) (unique ds) ;;
   k) w =
  (for_each (report_direction df) (unique (map direction (rows df))) ;; k)
    (printed (statistics_head (rows df)) (at_stage Reporter w)).
Proof.
  intro Hcols.
  rewrite (bind_ok _ _ _ _ _ (enter_at Reporter w)).
  rewrite (bind_ok _ _ _ _ _ (print_printed _ _)).
  rewrite (bind_ok _ _ _ _ _ (print_printed _ _)).
  step_getitem Hcols.
  rewrite (bind_ok _ _ _ _ _ (print_printed _ _)).
  rewrite (bind_ok _ _ _ _ _ (print_printed _ _)).
  step_getitem Hcols.
  now rewrite !printed_printed.
Qed.

Lemma statistics_runs (df : DataFrame) (w : world) :
  columns df = field_names ->
  (forall r, In r (rows df) -> known_direction (direction r)) ->
  statistics df w =
  (Ok tt,
   printed (statistics_head (rows df)
            ++ map (direction_line (rows df)) (unique (map direction (rows df)))
            ++ [AverageHeader; AverageConfidence (confidence_means (rows df)); Complete])
           (at_stage Reporter w)).
Proof.
  intros Hcols Hknown.
  unfold statistics. rewrite (statistics_begins df w _ Hcols).
  erewrite bind_ok.
  2:{ apply (for_each_known df _ Hcols). apply Forall_forall. intros v Hv.
      apply (proj1 (unique_In _ _)), in_map_iff in Hv.
      destruct Hv as [r [<- Hr]]. now apply Hknown. }
  rewrite (bind_ok _ _ _ _ _ (print_printed _ _)).
  rewrite (bind_ok _ _ _ _ _ (mean_confidence_ok df _ Hcols)).
  rewrite (bind_ok _ _ _ _ _ (print_printed _ _)).
  rewrite print_printed. rewrite !printed_printed.
  reflexivity.
Qed.

(** X4. On a table whose directions are all in the vocabulary the statistics
    run to their end: they print the contact-type counts, one line per
    distinct direction in order of first occurrence with its label and its
    number of rows, the means, and the closing line; the per-direction
    numbers add up to the number of rows of the table.  The stage is the
    Reporter and no file is touched. *)
Theorem statistics_report (df : DataFrame) (w : world) :
  columns df = field_names ->
  (forall r, In r (rows df) -> known_direction (direction r)) ->
  statistics df w =
  (Ok tt,
   printed (statistics_head (rows df)
            ++ map (direction_line (rows df)) (first_occurrences (map direction (rows df)))
            ++ [AverageHeader; AverageConfidence (confidence_means (rows df)); Complete])
           (at_stage Reporter w)) /\
  sum_nat (map (fun dir => length (rows_with direction dir (rows df)))
               (first_occurrences (map direction (rows df))))
  = length (rows df).
Proof.
  intros Hcols Hknown. rewrite <- unique_first_occurrences.
  split; [apply (statistics_runs df w Hcols Hknown) | apply groups_cover].
Qed.

Lemma statistics_report_witness :
  statistics scenario_table (fresh []) =
  (Ok tt,
   printed (statistics_head (rows scenario_table)
            ++ map (direction_line (rows scenario_table))
                   (first_occurrences (map direction (rows scenario_table)))
            ++ [AverageHeader; AverageConfidence (confidence_means (rows scenario_table));
                Complete])
           (at_stage Reporter (fresh []))) /\
  sum_nat (map (fun dir => length (rows_with direction dir (rows scenario_table)))
               (first_occurrences (map direction (rows scenario_table))))
  = length (rows scenario_table).
Proof.
  apply (statistics_report scenario_table (fresh []) eq_refl).
  intros r [<- | []]. now left.
Defined.

(** X5. Taken alone, the statistics stop at the first direction, in order of
    first occurrence, that is outside the vocabulary: they raise
    [KeyError] of that direction after the lines of the directions before
    it, and print neither the means nor the closing line. *)
Theorem statistics_stops_at_unknown_direction (df : DataFrame) (w : world)
    (before after : list string) (dir : string) :
  columns df = field_names ->
  first_occurrences (map direction (rows df)) = before ++ dir :: after ->
  Forall known_direction before ->
  ~ known_direction dir ->
  statistics df w =
  (Raise (KeyError dir),
   printed (statistics_head (rows df) ++ map (direction_line (rows df)) before)
           (at_stage Reporter w)).
Proof.
  intros Hcols Hsplit Hbefore Hdir. rewrite <- unique_first_occurrences in Hsplit.
  unfold statistics. rewrite (statistics_begins df w _ Hcols). rewrite Hsplit.
  erewrite bind_raise by (apply (for_each_unknown df before after dir Hcols Hbefore Hdir)).
  now rewrite printed_printed.
Qed.

Lemma statistics_stops_at_unknown_direction_witness :
  statistics mixed_directions (fresh []) =
  (Raise (KeyError "sideways"),
   printed (statistics_head (rows mixed_directions)
            ++ map (direction_line (rows mixed_directions)) ["touched"])
           (at_stage Reporter (fresh []))).
Proof.
  apply (statistics_stops_at_unknown_direction mixed_directions (fresh [])
           ["touched"] [] "sideways" eq_refl eq_refl).
  - apply Forall_cons; [now left | apply Forall_nil].
  - intros [H | H]; discriminate H.
Defined.

(** ** A complete run *)

Lemma summary_runs (df : DataFrame) (w : world) :
  columns df = field_names ->
  summary df w =
  (Ok tt,
   printed [SummaryHeader; TotalPoints (length (rows df));
            Participants (unique (map participantId (rows df)));
            Figures (unique (map figure (rows df)));
            ContactTypes (unique (map contactType (rows df)));
            Directions (unique (map direction (rows df)))]
           (at_stage Reporter w)).
Proof.
  intro Hcols. unfold summary.
  rewrite (bind_ok _ _ _ _ _ (enter_at Reporter w)).
  rewrite (bind_ok _ _ _ _ _ (print_printed _ _)).
  rewrite (bind_ok _ _ _ _ _ (print_printed _ _)).
  step_getitem Hcols. rewrite (bind_ok _ _ _ _ _ (print_printed _ _)).
  step_getitem Hcols. rewrite (bind_ok _ _ _ _ _ (print_printed _ _)).
  step_getitem Hcols. rewrite (bind_ok _ _ _ _ _ (print_printed _ _)).
  step_getitem Hcols. rewrite print_printed.
  now rewrite !printed_printed.
Qed.





(** ** The files a run writes *)

Lemma inert_ret {A : Type} (a : A) : inert (ret a).
Proof. intro w. now split. Qed.

Lemma inert_raise {A : Type} (e : exn) : inert (@raise A e).
Proof. intro w. now split. Qed.

Lemma inert_lift {A : Type} (r : result A) : inert (lift r).
Proof. intro w. now split. Qed.

Lemma inert_bind {A B : Type} (m : M A) (k : A -> M B) :
  inert m -> (forall a, inert (k a)) -> inert (bind m k).
Proof.
  intros Hm Hk w. unfold bind. specialize (Hm w).
  destruct (m w) as [[a|e|] w1]; simpl in *; try exact Hm.
  specialize (Hk a w1). destruct Hm as [Hs Hd], Hk as [Hs' Hd']. split; congruence.
Qed.

Lemma inert_print (l : line) : inert (print l).
Proof. intro w. now split. Qed.

Lemma inert_enter (s : stage) : inert (enter s).
Proof. intro w. now split. Qed.

Lemma inert_getitem {A : Type} (df : DataFrame) (name : string) (field : point -> A) :
  inert (getitem df name field).
Proof. intro w. unfold getitem. destruct (mem name (columns df)); now split. Qed.

Lemma inert_iloc0 {A : Type} (df : DataFrame) (name : string) (field : point -> A) :
  inert (iloc0 df name field).
Proof.
  intro w. unfold iloc0. destruct (rows df); [now split|].
  destruct (mem name (columns df)); now split.
Qed.

Lemma inert_open_json (path : string) : inert (open_json path).
Proof.
  intro w. unfold open_json. destruct (lookup path (disk w)) as [[[j|]|]|]; now split.
Qed.

Lemma inert_os_path_exists (path : string) : inert (os_path_exists path).
Proof. intro w. unfold os_path_exists. destruct (lookup path (disk w)); now split. Qed.

Lemma inert_Image_open (path : string) : inert (Image_open path).
Proof.
  intro w. unfold Image_open. destruct (lookup path (disk w)) as [[t|]|]; now split.
Qed.

Lemma inert_axes_at (a : axes) (idx : nat) : inert (axes_at a idx).
Proof. intro w. unfold axes_at. destruct (idx <? length a); now split. Qed.

Lemma inert_subplots (ncols : nat) : inert (subplots ncols).
Proof. intro w. unfold subplots. destruct (ncols =? 0); now split. Qed.

Lemma inert_direction_label (dir : string) : inert (direction_label dir).
Proof.
  intro w. unfold direction_label. destruct (labels_get direction_labels dir); now split.
Qed.

Ltac inert_steps :=
  repeat first
    [ apply inert_ret | apply inert_raise | apply inert_lift | apply inert_print
    | apply inert_enter | apply inert_getitem | apply inert_iloc0 | apply inert_open_json
    | apply inert_os_path_exists | apply inert_Image_open | apply inert_axes_at
    | apply inert_subplots | apply inert_direction_label
    | apply inert_bind; [|intro] ].

Lemma inert_select (df : DataFrame) (name : string) (field : point -> string) (value : string) :
  inert (select df name field value).
Proof. unfold select. inert_steps. Qed.

Lemma inert_panel_background (a : axes) (idx : nat) (path : string) :
  inert (panel_background a idx path).
Proof.
  unfold panel_background. apply inert_bind; [apply inert_os_path_exists|].
  intros []; inert_steps.
Qed.

Lemma inert_figure_background (a : axes) (idx : nat) (path : string) :
  inert (figure_background a idx path).
Proof.
  unfold figure_background. apply inert_bind; [apply inert_os_path_exists|].
  intros []; inert_steps.
Qed.

Lemma inert_figure_panel (df : DataFrame) (a : axes) (idx : nat) (fig : string) :
  inert (figure_panel df a idx fig).
Proof.
  unfold figure_panel. apply inert_bind; [apply inert_select | intro].
  apply inert_bind; [apply inert_figure_background | intro]. inert_steps.
Qed.

Lemma inert_contact_panel (df : DataFrame) (a : axes) (idx : nat) (c : string) :
  inert (contact_panel df a idx c).
Proof.
  unfold contact_panel. apply inert_bind; [apply inert_select | intro].
  apply inert_bind; [apply inert_iloc0 | intro].
  apply inert_bind; [apply inert_panel_background | intro]. inert_steps.
Qed.

Lemma inert_direction_panel (df : DataFrame) (a : axes) (idx : nat) (dir : string) :
  inert (direction_panel df a idx dir).
Proof.
  unfold direction_panel. apply inert_bind; [apply inert_select | intro].
  apply inert_bind; [apply inert_iloc0 | intro].
  apply inert_bind; [apply inert_panel_background | intro]. inert_steps.
Qed.

Lemma inert_for_enumerate (body : axes -> nat -> string -> M axes) (values : list string) :
  (forall a idx v, inert (body a idx v)) ->
  forall idx a, inert (for_enumerate body idx values a).
Proof.
  intro Hbody. induction values as [|v rest IH]; intros idx a; simpl.
  - apply inert_ret.
  - apply inert_bind; [apply Hbody | intro; apply IH].
Qed.

Lemma inert_for_each (body : string -> M unit) (values : list string) :
  (forall v, inert (body v)) -> inert (for_each body values).
Proof.
  intro Hbody. induction values as [|v rest IH]; simpl.
  - apply inert_ret.
  - apply inert_bind; [apply Hbody | intro; apply IH].
Qed.

Lemma inert_summary (df : DataFrame) : inert (summary df).
Proof. unfold summary. inert_steps. Qed.

Lemma inert_statistics (df : DataFrame) : inert (statistics df).
Proof.
  unfold statistics.
  do 7 (apply inert_bind; [inert_steps | intro]).
  apply inert_bind.
  - apply inert_for_each. intro v. unfold report_direction.
    apply inert_bind; [apply inert_direction_label | intro].
    apply inert_bind; [apply inert_select | intro]. apply inert_print.
  - intro. apply inert_bind; [apply inert_print | intro].
    apply inert_bind; [|intro; inert_steps].
    intro w. unfold mean_confidence_by_contacttype.
    destruct (mem "contactType" (columns df)); [|now split].
    destruct (mem "confidence" (columns df)); now split.
Qed.

Lemma inert_json_file_argument (argv : list string) : inert (json_file_argument argv).
Proof.
  unfold json_file_argument. destruct (length argv <? 2).
  - destruct argv; inert_steps.
  - destruct (nth_error argv 1); inert_steps.
Qed.

Lemma writes_inert {A : Type} (m : M A) : inert m -> writes [] m.
Proof.
  intros Hm w. destruct (Hm w) as [Hs Hd]. exists []. split; [now rewrite app_nil_r|].
  split; [exact Hd|]. split; [now exists [] | reflexivity].
Qed.

Lemma writes_bind_inert {A B : Type} (names : list string) (m : M A) (k : A -> M B) :
  inert m -> (forall a, writes names (k a)) -> writes names (bind m k).
Proof.
  intros Hm Hk w. unfold bind. specialize (Hm w).
  destruct (m w) as [[a|e|] w1]; simpl in Hm; destruct Hm as [Hs Hd].
  - destruct (Hk a w1) as [figs [Hs' [Hd' [Hp Hall]]]].
    exists figs. rewrite Hs', Hd', Hs, Hd. now repeat split.
  - exists []. simpl. rewrite app_nil_r. repeat split; try assumption.
    + now exists names.
    + intros a H. discriminate H.
  - exists []. simpl. rewrite app_nil_r. repeat split; try assumption.
    + now exists names.
    + intros a H. discriminate H.
Qed.

Lemma writes_then {A B : Type} (names1 names2 : list string) (m : M A) (k : M B) :
  writes names1 m -> writes names2 k -> writes (names1 ++ names2) (m ;; k).
Proof.
  intros Hm Hk w. unfold bind.
  destruct (Hm w) as [figs1 [Hs1 [Hd1 [[rest1 Hp1] Hall1]]]].
  destruct (m w) as [[a|e|] w1]; simpl in *.
  - destruct (Hk w1) as [figs2 [Hs2 [Hd2 [[rest2 Hp2] Hall2]]]].
    exists (figs1 ++ figs2). rewrite Hs2, Hd2, Hs1, Hd1.
    split; [now rewrite app_assoc|]. split.
    + unfold files_of. now rewrite map_app, rev_app_distr, app_assoc.
    + rewrite map_app. rewrite (Hall1 a eq_refl). split.
      * exists rest2. now rewrite <- app_assoc, Hp2.
      * intros b Hb. now rewrite (Hall2 b Hb).
  - exists figs1. split; [exact Hs1|]. split; [exact Hd1|]. split.
    + exists (rest1 ++ names2). now rewrite app_assoc, Hp1.
    + intros a H. discriminate H.
  - exists figs1. split; [exact Hs1|]. split; [exact Hd1|]. split.
    + exists (rest1 ++ names2). now rewrite app_assoc, Hp1.
    + intros a H. discriminate H.
Qed.

Lemma writes_at_end {A : Type} (name : string) (figsize : nat * nat) (m : M A)
    (k : A -> axes) (l : line) :
  inert m -> writes [name] (a <- m ;; savefig name figsize (k a) ;; print l).
Proof.
  intros Hm w. unfold bind. specialize (Hm w).
  destruct (m w) as [[a|e|] w1]; simpl in Hm; destruct Hm as [Hs Hd];
    [unfold savefig; destruct (renders figsize)| |]; simpl.
  - exists [(name, k a)]. rewrite Hs, Hd. repeat split. now exists [].
  - exists []. rewrite app_nil_r. repeat split; try assumption.
    + now exists [name].
    + intros a0 H. discriminate H.
  - exists []. rewrite app_nil_r. repeat split; try assumption.
    + now exists [name].
    + intros a H. discriminate H.
  - exists []. rewrite app_nil_r. repeat split; try assumption.
    + now exists [name].
    + intros a H. discriminate H.
Qed.

Lemma render_on_figures_writes (df : DataFrame) :
  writes ["heatmaps_on_figures.png"] (render_on_figures df).
Proof.
  unfold render_on_figures.
  apply writes_bind_inert; [apply inert_getitem | intro col].
  apply writes_bind_inert; [apply inert_subplots | intro a].
  apply (writes_at_end _ _ _ (fun a' => a')).
  apply inert_for_enumerate. intros; apply inert_figure_panel.
Qed.

Lemma render_by_contacttype_writes (df : DataFrame) :
  writes ["heatmaps_by_contacttype.png"] (render_by_contacttype df).
Proof.
  unfold render_by_contacttype.
  apply writes_bind_inert; [apply inert_subplots | intro a].
  apply writes_bind_inert; [apply inert_getitem | intro col].
  apply (writes_at_end _ _ _ (fun a' => a')).
  apply inert_for_enumerate. intros; apply inert_contact_panel.
Qed.

Lemma render_by_direction_writes (df : DataFrame) :
  writes ["heatmaps_by_direction.png"] (render_by_direction df).
Proof.
  unfold render_by_direction.
  apply writes_bind_inert; [apply inert_subplots | intro a].
  apply writes_bind_inert; [apply inert_getitem | intro col].
  apply (writes_at_end _ _ _ (fun a' => a')).
  apply inert_for_enumerate. intros; apply inert_direction_panel.
Qed.

Lemma render_writes (df : DataFrame) : writes output_names (render df).
Proof.
  unfold render.
  apply writes_bind_inert; [apply inert_enter | intros _].
  apply (writes_then ["heatmaps_on_figures.png"]
           ["heatmaps_by_contacttype.png"; "heatmaps_by_direction.png"]).
  - apply render_on_figures_writes.
  - apply (writes_then ["heatmaps_by_contacttype.png"] ["heatmaps_by_direction.png"]).
    + apply render_by_contacttype_writes.
    + apply render_by_direction_writes.
Qed.

Lemma main_writes (argv : list string) : writes output_names (main argv).
Proof.
  unfold main.
  apply writes_bind_inert; [apply inert_enter | intros _].
  apply writes_bind_inert; [apply inert_json_file_argument | intro path].
  apply writes_bind_inert; [apply inert_open_json | intro data].
  apply writes_bind_inert; [apply inert_enter | intros _].
  apply writes_bind_inert; [apply inert_lift | intro points].
  apply writes_bind_inert; [apply inert_enter | intros _].
  apply writes_bind_inert; [apply inert_lift | intro df].
  apply writes_bind_inert; [apply inert_summary | intros _].
  rewrite <- (app_nil_r output_names).
  apply writes_then; [apply render_writes | apply writes_inert, inert_statistics].
Qed.

(** X7. Whatever the arguments and the files, a run writes no file but the
    three figures: the figures saved are the first ones of the sequence by
    figure, by contact type, by direction, in this order; each is a new image
    on the disk and the rest of the disk is unchanged; and a run that returns
    has saved all three. *)
Theorem run_writes_only_figures (argv : list string) (w : world) :
  exists figs,
    saved (snd (main argv w)) = saved w ++ figs /\
    disk (snd (main argv w)) = files_of figs ++ disk w /\
    (exists rest, map fst figs ++ rest = output_names) /\
    (fst (main argv w) = Ok tt -> map fst figs = output_names).
Proof.
  destruct (main_writes argv w) as [figs [Hs [Hd [Hp Hall]]]].
  exists figs. repeat split; try assumption. apply Hall.
Qed.

(** ** The bins of the histogram *)

Lemma searchsorted_ge (l1 l2 : list Q) (v : Q) :
  Forall (fun e => (e <= v)%Q) l1 -> length l1 <= searchsorted_right (l1 ++ l2) v.
Proof.
  induction 1 as [|e l He _ IH]; simpl; [lia|].
  apply Qle_bool_iff in He. rewrite He. lia.
Qed.

Lemma searchsorted_le (l1 l2 : list Q) (e v : Q) :
  Qle_bool e v = false -> searchsorted_right (l1 ++ e :: l2) v <= length l1.
Proof.
  intro He. induction l1 as [|x l IH]; simpl.
  - now rewrite He.
  - destruct (Qle_bool x v); lia.
Qed.

Lemma edge_inner (bins k : nat) :
  k < bins ->
  edge bins k = fmul (inject_Z (Z.of_nat k)) (fdiv 1 (inject_Z (Z.of_nat bins))).
Proof.
  intro H. unfold edge, linspace01. cbv zeta.
  rewrite app_nth1 by (now rewrite length_map, length_seq).
  set (F := fun j : nat => fmul (inject_Z (Z.of_nat j)) (fdiv 1 (inject_Z (Z.of_nat bins)))).
  rewrite (nth_indep _ 1%Q (F 0)) by (now rewrite length_map, length_seq).
  rewrite map_nth, seq_nth by exact H. reflexivity.
Qed.

Lemma edge_last (bins k : nat) : bins <= k -> edge bins k = 1%Q.
Proof.
  intro H. unfold edge, linspace01. cbv zeta.
  rewrite app_nth2 by (rewrite length_map, length_seq; exact H).
  rewrite length_map, length_seq.
  destruct (k - bins) as [|[|n]]; reflexivity.
Qed.

Lemma linspace01_edges (bins : nat) : linspace01 bins = map (edge bins) (seq 0 (S bins)).
Proof.
  rewrite seq_S, map_app. cbn [map]. rewrite (edge_last bins (0 + bins)) by lia.
  unfold linspace01. cbv zeta. f_equal.
  apply map_ext_in. intros k Hk. apply in_seq in Hk.
  symmetry. apply edge_inner. lia.
Qed.

Lemma edge_below_one (bins k : nat) : (edge bins k <= 1)%Q.
Proof.
  destruct (Nat.lt_ge_cases k bins) as [H | H].
  - rewrite (edge_inner bins k H). now apply edge_below_stop.
  - rewrite (edge_last bins k H). apply Qle_refl.
Qed.

(** The edges are in increasing order: rounding keeps the order of the
    products [k * step]. *)
Lemma edge_le (bins j k : nat) : j <= k -> (edge bins j <= edge bins k)%Q.
Proof.
  intro Hjk. destruct (Nat.lt_ge_cases k bins) as [H | H].
  - rewrite (edge_inner bins j) by lia. rewrite (edge_inner bins k H).
    unfold fmul.
    assert (Hs : (0 <= fdiv 1 (inject_Z (Z.of_nat bins)))%Q).
    { unfold fdiv. apply fl64_nonneg. apply Qle_shift_div_l.
      - change 0%Q with (inject_Z 0). rewrite <- Zlt_Qlt. lia.
      - rewrite Qmult_0_l. discriminate. }
    assert (Hj : (0 <= inject_Z (Z.of_nat j))%Q).
    { change 0%Q with (inject_Z 0). rewrite <- Zle_Qle. lia. }
    apply fl64_mono.
    + now apply Qmult_le_0_compat.
    + apply Qmult_le_compat_r; [|exact Hs]. rewrite <- Zle_Qle. lia.
  - rewrite (edge_last bins k H). apply edge_below_one.
Qed.

(** The edges before the one of index [i], that edge, and the edges after
    it. *)
Lemma linspace01_split (bins i : nat) :
  i <= bins ->
  linspace01 bins =
  map (edge bins) (seq 0 i) ++ edge bins i :: map (edge bins) (seq (S i) (bins - i)).
Proof.
  intro Hi. rewrite linspace01_edges.
  replace (S bins) with (i + S (bins - i)) by lia.
  rewrite seq_app, map_app. reflexivity.
Qed.

Lemma edges_before (bins k : nat) (v : Q) :
  (edge bins k <= v)%Q ->
  Forall (fun e => (e <= v)%Q) (map (edge bins) (seq 0 (S k))).
Proof.
  intro H. apply Forall_forall. intros e He.
  apply in_map_iff in He. destruct He as [j [<- Hj]]. apply in_seq in Hj.
  eapply Qle_trans; [apply edge_le | exact H]. lia.
Qed.

Lemma Qle_bool_false (a b : Q) : Qle_bool a b = false <-> (b < a)%Q.
Proof.
  split.
  - intro H. apply Qnot_le_lt. intro Hle. apply Qle_bool_iff in Hle. congruence.
  - intro H. destruct (Qle_bool a b) eqn:E; [|reflexivity].
    apply Qle_bool_iff in E. exfalso. now apply (Qlt_not_le _ _ H).
Qed.

Lemma Qeq_bool_false (a b : Q) : ~ (a == b)%Q -> Qeq_bool a b = false.
Proof.
  intro H. destruct (Qeq_bool a b) eqn:E; [|reflexivity].
  apply Qeq_bool_iff in E. contradiction.
Qed.

Lemma linspace01_last (bins : nat) : last (linspace01 bins) 0%Q = 1%Q.
Proof. unfold linspace01. apply last_last. Qed.

(** A value from edge [k] on and below edge [k + 1] has the bin number
    [k + 1]. *)
Lemma bin_index_inside (bins k : nat) (v : Q) :
  k < bins ->
  (edge bins k <= v)%Q ->
  (v < edge bins (S k))%Q ->
  bin_index (linspace01 bins) v = S k.
Proof.
  intros Hk Hlo Hhi. unfold bin_index. rewrite linspace01_last.
  assert (Hne : Qeq_bool v 1 = false).
  { apply Qeq_bool_false. intro Heq. rewrite Heq in Hhi.
    apply (Qlt_not_le _ _ Hhi). apply edge_below_one. }
  rewrite Hne.
  rewrite (linspace01_split bins (S k)) by lia.
  pose proof (searchsorted_le (map (edge bins) (seq 0 (S k)))
                (map (edge bins) (seq (S (S k)) (bins - S k))) (edge bins (S k)) v
                (proj2 (Qle_bool_false _ _) Hhi)) as Hle.
  pose proof (searchsorted_ge (map (edge bins) (seq 0 (S k)))
                (edge bins (S k) :: map (edge bins) (seq (S (S k)) (bins - S k))) v
                (edges_before bins k v Hlo)) as Hge.
  rewrite length_map, length_seq in Hle, Hge. lia.
Qed.

(** The stop value has the number of the last bin. *)
Lemma bin_index_stop (bins : nat) (v : Q) :
  0 < bins -> (v == 1)%Q -> bin_index (linspace01 bins) v = bins.
Proof.
  intros Hbins Hv. unfold bin_index. rewrite linspace01_last.
  assert (Heq : Qeq_bool v 1 = true) by now apply Qeq_bool_iff.
  rewrite Heq. rewrite searchsorted_all.
  - rewrite linspace01_edges, length_map, length_seq. lia.
  - rewrite linspace01_edges. apply Forall_forall. intros e He.
    apply in_map_iff in He. destruct He as [j [<- _]].
    rewrite Hv. apply edge_below_one.
Qed.

(** The bin number tells the cell, and the cell the bin number. *)
Lemma bin_index_in_cell (bins i : nat) (v : Q) :
  i < bins ->
  (bin_index (linspace01 bins) v =? S i) = in_cell bins i v.
Proof.
  intro Hi. unfold in_cell.
  destruct (Qle_bool (edge bins i) v) eqn:Elo.
  - apply Qle_bool_iff in Elo.
    destruct (Qle_bool (edge bins (S i)) v) eqn:Ehi; simpl.
    + apply Qle_bool_iff in Ehi.
      destruct (Qeq_bool v 1) eqn:Eone.
      * apply Qeq_bool_iff in Eone.
        rewrite (bin_index_stop bins v ltac:(lia) Eone).
        rewrite andb_true_r. apply Nat.eqb_sym.
      * rewrite andb_false_r. apply Nat.eqb_neq.
        unfold bin_index. rewrite linspace01_last, Eone.
        rewrite (linspace01_split bins (S i)) by lia.
        set (before := map (edge bins) (seq 0 (S i))).
        set (after := map (edge bins) (seq (S (S i)) (bins - S i))).
        change (before ++ edge bins (S i) :: after)
          with (before ++ [edge bins (S i)] ++ after).
        rewrite app_assoc.
        assert (Hall : Forall (fun e0 => (e0 <= v)%Q) (before ++ [edge bins (S i)])).
        { apply Forall_app. split; [now apply edges_before|].
          constructor; [exact Ehi | constructor]. }
        pose proof (searchsorted_ge (before ++ [edge bins (S i)]) after v Hall) as Hge.
        rewrite length_app in Hge. unfold before in Hge at 1.
        rewrite length_map, length_seq in Hge. cbn [length] in Hge. lia.
    + apply Nat.eqb_eq.
      apply bin_index_inside; [exact Hi | exact Elo | now apply Qle_bool_false].
  - simpl. apply Qle_bool_false in Elo.
    assert (Hone : Qeq_bool v 1 = false).
    { apply Qeq_bool_false. intro Heq. rewrite Heq in Elo.
      apply (Qlt_not_le _ _ Elo). apply edge_below_one. }
    rewrite Hone, andb_false_r. apply Nat.eqb_neq.
    unfold bin_index. rewrite linspace01_last, Hone.
    rewrite (linspace01_split bins i) by lia.
    pose proof (searchsorted_le (map (edge bins) (seq 0 i))
                  (map (edge bins) (seq (S i) (bins - i))) (edge bins i) v) as Hle.
    rewrite length_map, length_seq in Hle.
    assert (Hfalse : Qle_bool (edge bins i) v = false) by now apply Qle_bool_false.
    specialize (Hle Hfalse). lia.
Qed.

Lemma nth_map_seq {A : Type} (F : nat -> A) (d : A) (n i : nat) :
  i < n -> nth i (map F (seq 1 n)) d = F (S i).
Proof.
  intro H. rewrite (nth_indep _ d (F 0)) by (now rewrite length_map, length_seq).
  rewrite map_nth, seq_nth by exact H. reflexivity.
Qed.

Lemma heat_of_cells (sub : list point) (bins : nat) :
  0 < bins ->
  heat_of sub bins =
  map (fun i => map (fun j =>
         bincount2 (map (fun r => (bin_index (linspace01 bins) (xNorm r),
                                   bin_index (linspace01 bins) (yNorm r))) sub) i j)
       (seq 1 bins)) (seq 1 bins).
Proof.
  intro H. unfold heat_of, histogram2d.
  rewrite !length_map, Nat.eqb_refl. simpl negb. cbv iota.
  destruct bins; [lia|]. change (S bins =? 0) with false. cbv iota zeta.
  now rewrite !map_map, combine_map_fields.
Qed.

(** X8. The cells of the histogram are the bins between consecutive edges:
    for [i, j < bins], cell [(i, j)] of the grid (row [i] for x, column [j]
    for y) holds the number of rows whose x is at least edge [i] and below
    edge [i + 1], and whose y is at least edge [j] and below edge [j + 1],
    the last bin of each axis holding the value 1 as well.  The edges are
    the binary64 values [k * (1 / bins)] that [np.linspace] computes, in
    increasing order from 0 to 1; they are not always the binary64 values
    nearest to [k / bins] ([edge_nine_of_fifteen]). *)
Theorem histogram_cells (subset : list point) (bins i j : nat) :
  i < bins -> j < bins ->
  exists g,
    histogram2d (map xNorm subset) (map yNorm subset) bins = Ok g /\
    cell g i j =
    length (filter (fun r => in_cell bins i (xNorm r) && in_cell bins j (yNorm r)) subset).
Proof.
  intros Hi Hj. exists (heat_of subset bins).
  split; [apply histogram2d_defined; lia|].
  rewrite heat_of_cells by lia. unfold cell.
  rewrite (nth_map_seq _ [] bins i Hi), (nth_map_seq _ 0 bins j Hj).
  unfold bincount2. rewrite length_filter_map. f_equal.
  apply filter_ext. intro r. cbn [fst snd].
  now rewrite (bin_index_in_cell bins i _ Hi), (bin_index_in_cell bins j _ Hj).
Qed.

Lemma histogram_cells_witness :
  exists g,
    histogram2d (map xNorm (rows two_figures)) (map yNorm (rows two_figures)) 12 = Ok g /\
    cell g 3 9 =
    length (filter (fun r => in_cell 12 3 (xNorm r) && in_cell 12 9 (yNorm r))
                   (rows two_figures)).
Proof.
  apply (histogram_cells (rows two_figures) 12 3 9); repeat constructor.
Defined.

(** With 15 bins, edge 9 is the binary64 value of 0.6, below 9/15: the
    coordinate 0.6 falls into bin 9 (counted from 0), not into bin 8. *)
Example edge_nine_of_fifteen :
  edge 15 9 = (5404319552844595 # 9007199254740992)%Q /\
  (edge 15 9 < 9 # 15)%Q /\
  in_cell 15 9 (5404319552844595 # 9007199254740992) = true /\
  in_cell 15 8 (5404319552844595 # 9007199254740992) = false.
Proof. repeat split; vm_compute; reflexivity. Qed.

(** ** Every row in one panel *)












(** ** The report of the means *)

Lemma reported_none_iff {A : Type} (c : string) (l : list (string * A)) :
  reported c l = None <-> ~ In c (map fst l).
Proof.
  induction l as [|[k v] l IH]; simpl; [tauto|].
  destruct (String.eqb k c) eqn:E.
  - apply String.eqb_eq in E. split; [discriminate | intro H; exfalso; apply H; now left].
  - apply String.eqb_neq in E. rewrite IH. tauto.
Qed.

Lemma sorted_keys (groups : list (string * list point)) :
  StronglySorted key_lt groups -> StronglySorted String_as_OT.lt (map fst groups).
Proof.
  induction 1 as [|kg rest Hs IH Hall]; simpl; constructor; [exact IH|].
  apply Forall_map. exact Hall.
Qed.

Lemma sorted_NoDup (l : list string) : StronglySorted String_as_OT.lt l -> NoDup l.
Proof.
  induction 1 as [|x l Hs IH Hall]; constructor; [|exact IH].
  intro Hin. rewrite Forall_forall in Hall.
  apply (String_as_OT.lt_not_eq _ _ (Hall x Hin)). reflexivity.
Qed.

Lemma confidence_means_keys (rs : list point) :
  map fst (confidence_means rs) = map fst (groupby contactType rs).
Proof. unfold confidence_means. rewrite map_map. reflexivity. Qed.

(** X10. The report of the mean confidence has one entry for each contact
    type of the table and no other, and its entries are in increasing order
    of the contact type. *)
Theorem mean_report_keys (df : DataFrame) :
  columns df = field_names ->
  exists means,
    (forall w, mean_confidence_by_contacttype df w = (Ok means, w)) /\
    StronglySorted String_as_OT.lt (map fst means) /\
    NoDup (map fst means) /\
    (forall c, In c (map fst means) <-> In c (map contactType (rows df))).
Proof.
  intro Hcols. exists (confidence_means (rows df)).
  destruct (groupby_spec contactType (rows df)) as [Hsorted Hrep].
  assert (Hkeys : StronglySorted String_as_OT.lt (map fst (confidence_means (rows df)))).
  { rewrite confidence_means_keys. now apply sorted_keys. }
  split; [intro w; now apply mean_confidence_ok|].
  split; [exact Hkeys|]. split; [now apply sorted_NoDup|].
  intro c. rewrite confidence_means_keys. split.
  - intro Hin.
    destruct (reported c (groupby contactType (rows df))) as [g|] eqn:E.
    + rewrite Hrep in E.
      destruct (filter (fun r => String.eqb (contactType r) c) (rows df)) as [|r l] eqn:Ef;
        [discriminate|].
      assert (Hr : In r (filter (fun r => String.eqb (contactType r) c) (rows df)))
        by (rewrite Ef; now left).
      apply filter_In in Hr. destruct Hr as [Hr Hc]. apply String.eqb_eq in Hc.
      subst c. now apply in_map.
    + apply reported_none_iff in E. contradiction.
  - intro Hin. apply in_map_iff in Hin. destruct Hin as [r [<- Hr]].
    destruct (in_dec String.string_dec (contactType r) (map fst (groupby contactType (rows df))))
      as [H | H]; [exact H|].
    apply reported_none_iff in H. rewrite Hrep in H.
    assert (Hf : In r (filter (fun r0 => String.eqb (contactType r0) (contactType r)) (rows df))).
    { apply filter_In. split; [exact Hr | apply String.eqb_refl]. }
    destruct (filter (fun r0 => String.eqb (contactType r0) (contactType r)) (rows df));
      [contradiction | discriminate].
Qed.

Lemma mean_report_keys_witness :
  exists means,
    (forall w, mean_confidence_by_contacttype two_figures w = (Ok means, w)) /\
    StronglySorted String_as_OT.lt (map fst means) /\
    NoDup (map fst means) /\
    (forall c, In c (map fst means) <-> In c (map contactType (rows two_figures))).
Proof.
  apply (mean_report_keys two_figures). reflexivity.
Defined.

(** ** Rounding of the means *)

(** X11. [round(2)] of a value of [[0,1]] is the binary64 value nearest to
    [z / 100] for a whole number [z] of hundredths from 0 to 100, the integer
    nearest to 100 times the value as computed in binary64; it lies in
    [[0,1]] and differs from the value by at most 0.005 and the rounding
    error [2^-52] of the two operations. *)
Theorem round2_error (q : Q) :
  (0 <= q)%Q -> (q <= 1)%Q ->
  exists z : Z,
    (0 <= z <= 100)%Z /\
    round2 q = fl64 (inject_Z z / 100) /\
    (inject_Z z - (1 # 2) <= fl64 (q * 100))%Q /\
    (fl64 (q * 100) <= inject_Z z + (1 # 2))%Q /\
    (0 <= round2 q)%Q /\ (round2 q <= 1)%Q /\
    (q - (1 # 200) - (1 # 4503599627370496) <= round2 q)%Q /\
    (round2 q <= q + (1 # 200) + (1 # 4503599627370496))%Q.
Proof.
  intros Hq0 Hq1. unfold round2, fmul, fdiv.
  set (p := fl64 (q * 100)).
  destruct (fl64_error (q * 100)) as [Hp1 Hp2]. fold p in Hp1, Hp2.
  assert (Habs : (Qabs (q * 100) == q * 100)%Q) by (apply Qabs_pos; lra).
  rewrite Habs in Hp1, Hp2.
  destruct (rint_near p) as [Hz1 Hz2].
  set (z := rint p) in *.
  assert (Hz : (0 <= z <= 100)%Z).
  { split.
    - assert (H : (-1 < z)%Z); [|lia].
      rewrite Zlt_Qlt. change (inject_Z (-1)) with (-1)%Q. lra.
    - assert (H : (z < 101)%Z); [|lia].
      rewrite Zlt_Qlt. change (inject_Z 101) with 101%Q. lra. }
  destruct Hz as [Hza Hzb].
  assert (Hza' : (0 <= inject_Z z)%Q)
    by (change 0%Q with (inject_Z 0); now rewrite <- Zle_Qle).
  assert (Hzb' : (inject_Z z <= 100)%Q)
    by (change 100%Q with (inject_Z 100); now rewrite <- Zle_Qle).
  set (h := (inject_Z z / 100)%Q).
  assert (Hh : (h == inject_Z z * (1 # 100))%Q) by (unfold h; field).
  assert (Hh0 : (0 <= h)%Q) by lra.
  assert (Hh1 : (h <= 1)%Q) by lra.
  destruct (fl64_error h) as [Hr1 Hr2].
  assert (Habsh : (Qabs h == h)%Q) by (apply Qabs_pos; exact Hh0).
  rewrite Habsh in Hr1, Hr2.
  pose proof (fl64_nonneg h Hh0) as Hr0.
  pose proof (fl64_mono h 1 Hh0 Hh1) as Hr3. rewrite fl64_one in Hr3.
  exists z. repeat split; try assumption; try lra.
Qed.

Lemma round2_error_witness :
  exists z : Z,
    (0 <= z <= 100)%Z /\
    round2 (confidence scenario_row) = fl64 (inject_Z z / 100) /\
    (inject_Z z - (1 # 2) <= fl64 (confidence scenario_row * 100))%Q /\
    (fl64 (confidence scenario_row * 100) <= inject_Z z + (1 # 2))%Q /\
    (0 <= round2 (confidence scenario_row))%Q /\ (round2 (confidence scenario_row) <= 1)%Q /\
    (confidence scenario_row - (1 # 200) - (1 # 4503599627370496)
     <= round2 (confidence scenario_row))%Q /\
    (round2 (confidence scenario_row)
     <= confidence scenario_row + (1 # 200) + (1 # 4503599627370496))%Q.
Proof.
  apply (round2_error (confidence scenario_row)); discriminate.
Defined.

(** ** Bounds of the means *)

(** The groups hold rows of the table, and none is empty. *)
Lemma group_insert_groups (P : list point -> Prop) (key : string) (r : point)
    (groups : list (string * list point)) :
  P [r] -> (forall g, P g -> P (g ++ [r])) ->
  Forall (fun kg => P (snd kg)) groups ->
  Forall (fun kg => P (snd kg)) (group_insert key r groups).
Proof.
  intros Hnew Hadd. induction 1 as [|[k g] rest Hk Hrest IH]; simpl.
  - now repeat constructor.
  - destruct (String.eqb k key).
    + constructor; [now apply Hadd | exact Hrest].
    + destruct (String.ltb key k); repeat constructor; assumption.
Qed.

Lemma groupby_groups (field : point -> string) (Q0 : point -> Prop) (rs : list point) :
  Forall Q0 rs ->
  Forall (fun kg => snd kg <> [] /\ Forall Q0 (snd kg)) (groupby field rs).
Proof.
  intro Hall. unfold groupby.
  assert (Hgen : forall groups,
             Forall (fun kg => snd kg <> [] /\ Forall Q0 (snd kg)) groups ->
             Forall (fun kg => snd kg <> [] /\ Forall Q0 (snd kg))
                    (fold_left (fun gs r => group_insert (field r) r gs) rs groups)).
  { induction Hall as [|r rs Hr _ IH]; intros groups Hg; simpl; [exact Hg|].
    apply IH.
    apply (group_insert_groups (fun g => g <> [] /\ Forall Q0 g)).
    - split; [discriminate | now repeat constructor].
    - intros g [Hne Hg0]. split.
      + destruct g; discriminate.
      + apply Forall_app. split; [exact Hg0 | now repeat constructor].
    - exact Hg. }
  apply Hgen. constructor.
Qed.

(** The groups share out the rows. *)
Lemma group_insert_total (key : string) (r : point) (groups : list (string * list point)) :
  sum_nat (map (fun kg => length (snd kg)) (group_insert key r groups)) =
  S (sum_nat (map (fun kg => length (snd kg)) groups)).
Proof.
  induction groups as [|[k g] rest IH]; simpl; [reflexivity|].
  destruct (String.eqb k key); simpl.
  - rewrite length_app. simpl. lia.
  - destruct (String.ltb key k); simpl; [reflexivity|]. rewrite IH. lia.
Qed.

Lemma groupby_total (field : point -> string) (rs : list point) :
  sum_nat (map (fun kg => length (snd kg)) (groupby field rs)) = length rs.
Proof.
  unfold groupby.
  assert (Hgen : forall groups,
             sum_nat (map (fun kg => length (snd kg))
                          (fold_left (fun gs r => group_insert (field r) r gs) rs groups)) =
             sum_nat (map (fun kg => length (snd kg)) groups) + length rs).
  { induction rs as [|r rs IH]; intro groups; simpl; [lia|].
    rewrite IH, group_insert_total. lia. }
  now rewrite Hgen.
Qed.

Lemma sum_nat_In (x : nat) (l : list nat) : In x l -> x <= sum_nat l.
Proof.
  induction l as [|y l IH]; simpl; [contradiction|].
  intros [-> | H]; [lia|]. specialize (IH H). lia.
Qed.

(** X12. When the confidence of every row lies in [[0,1]], so does every
    mean of the report, for a table of at most [2^32] rows: the compensated
    sum of [n] such values is within [n / 2^18] of their sum, and the rounding
    to two decimals takes the mean back into [[0,1]]. *)
Theorem reported_means_in_unit_interval (df : DataFrame) :
  columns df = field_names ->
  (Z.of_nat (length (rows df)) <= 2 ^ 32)%Z ->
  (forall r, In r (rows df) -> (0 <= confidence r)%Q /\ (confidence r <= 1)%Q) ->
  exists means,
    (forall w, mean_confidence_by_contacttype df w = (Ok means, w)) /\
    forall c m, In (c, m) means -> (0 <= m)%Q /\ (m <= 1)%Q.
Proof.
  intros Hcols Hsize Hconf. exists (confidence_means (rows df)).
  split; [intro w; now apply mean_confidence_ok|].
  intros c m Hin. unfold confidence_means in Hin.
  apply in_map_iff in Hin. destruct Hin as [[k g] [Heq Hkg]].
  injection Heq as Hk Hm. subst c m. cbn [snd].
  pose proof (groupby_groups contactType
                (fun r => (0 <= confidence r)%Q /\ (confidence r <= 1)%Q) (rows df)
                ltac:(apply Forall_forall; exact Hconf)) as Hgroups.
  rewrite Forall_forall in Hgroups. destruct (Hgroups _ Hkg) as [Hne Hg]. cbn [snd] in *.
  assert (Hlen : length g <= length (rows df)).
  { rewrite <- (groupby_total contactType (rows df)). apply sum_nat_In.
    apply in_map_iff. exists (k, g). split; [reflexivity | exact Hkg]. }
  destruct (mean_close (map confidence g)) as [H0 [H1 [H2 H3]]].
  - destruct g; [contradiction | discriminate].
  - rewrite length_map. change (2 ^ 32)%Z with 4294967296%Z in Hsize. lia.
  - apply Forall_map. exact Hg.
  - destruct (round2_close (mean (map confidence g))) as [Hr0 [Hr1 _]]; [lra | lra |].
    now split.
Qed.

Lemma reported_means_in_unit_interval_witness :
  exists means,
    (forall w, mean_confidence_by_contacttype faint_and_firm w = (Ok means, w)) /\
    forall c m, In (c, m) means -> (0 <= m)%Q /\ (m <= 1)%Q.
Proof.
  apply (reported_means_in_unit_interval faint_and_firm eq_refl).
  - discriminate.
  - intros r [<- | [<- | []]]; split; discriminate.
Defined.

(** ** A background file that is not an image *)

Section LoopStops.

Variable body : axes -> nat -> string -> M axes.
Variable drawing : string -> option panel.
Variable d : list (string * content).
Variable good : string -> Prop.
Variable bad : string.
Variable e : exn.

Hypothesis body_draws :
  forall v a idx w,
    good v -> disk w = d -> idx < length a ->
    exists p w',
      drawing v = Some p /\ body a idx v w = (Ok (put a idx p), w') /\ quiet w w'.

Hypothesis body_stops :
  forall a idx w,
    disk w = d -> idx < length a ->
    exists w', body a idx bad w = (Raise e, w') /\ quiet w w'.

(** A loop whose rounds draw until one of them raises. *)
Lemma for_enumerate_stops_after (before after : list string) :
  forall idx a w,
    Forall good before -> disk w = d -> idx + length before < length a ->
    exists w',
      for_enumerate body idx (before ++ bad :: after) a w = (Raise e, w') /\ quiet w w'.
Proof.
  induction before as [|v rest IH]; intros idx a w Hgood Hdisk Hlen; simpl.
  - simpl in Hlen. destruct (body_stops a idx w Hdisk ltac:(lia)) as [w' [Hrun Hq]].
    exists w'. split; [now apply bind_raise | exact Hq].
  - inversion Hgood as [|? ? Hv Hrest]; subst. simpl in Hlen.
    destruct (body_draws v a idx w Hv eq_refl ltac:(lia)) as [p [w1 [Hp [Hrun Hq1]]]].
    rewrite (bind_ok _ _ _ _ _ Hrun).
    assert (Hdisk1 : disk w1 = disk w) by apply Hq1.
    destruct (IH (S idx) (put a idx p) w1 Hrest Hdisk1
                 ltac:(rewrite put_length; lia)) as [w2 [Hloop Hq2]].
    exists w2. split; [exact Hloop | eapply quiet_trans; eassumption].
Qed.

End LoopStops.

Lemma figure_panel_unreadable (df : DataFrame) (a : axes) (idx : nat) (fig : string)
    (w : world) (t : option json) :
  columns df = field_names ->
  lookup (png fig) (disk w) = Some (Text t) ->
  exists w',
    figure_panel df a idx fig w = (Raise (UnidentifiedImageError (png fig)), w') /\
    quiet w w'.
Proof.
  intros Hcols Hfile. unfold figure_panel.
  rewrite (bind_ok _ _ _ _ _ (select_ok df "figure" figure fig w ltac:(now rewrite Hcols))).
  unfold bind at 1. unfold figure_background.
  unfold bind at 1. unfold os_path_exists. rewrite Hfile.
  unfold bind at 1. unfold Image_open. simpl disk. rewrite Hfile.
  eexists. split; [reflexivity|]. now repeat split.
Qed.

(** X13. Only the absence of a background file is tolerated: when the file of
    a figure exists and is not an image, the rendering by figure raises
    [UnidentifiedImageError] for the first such figure, in order of first
    occurrence, and saves nothing (the figures before it have usable
    files). *)
Theorem unreadable_background_stops_rendering (df : DataFrame) (w : world)
    (before after : list string) (bad : string) (t : option json) :
  columns df = field_names ->
  first_occurrences (map figure (rows df)) = before ++ bad :: after ->
  (forall f, In f before -> usable (disk w) (png f) = true) ->
  lookup (png bad) (disk w) = Some (Text t) ->
  exists w',
    render_on_figures df w = (Raise (UnidentifiedImageError (png bad)), w') /\
    saved w' = saved w /\ disk w' = disk w.
Proof.
  intros Hcols Hsplit Huse Hfile. rewrite <- unique_first_occurrences in Hsplit.
  unfold render_on_figures. step_getitem Hcols.
  assert (Hnum : (length (unique (map figure (rows df))) =? 0) = false).
  { rewrite Hsplit, length_app. simpl. apply Nat.eqb_neq. lia. }
  rewrite (bind_ok _ _ _ _ _ (subplots_ok _ w Hnum)).
  destruct (for_enumerate_stops_after (figure_panel df) (figure_drawing (disk w) (rows df))
              (disk w) (fun v => usable (disk w) (png v) = true) bad
              (UnidentifiedImageError (png bad))) with
    (before := before) (after := after) (idx := 0)
    (a := repeat (@None panel) (length (unique (map figure (rows df))))) (w := w)
    as [w1 [Hloop [Hd [Hs Hc]]]].
  - intros v a idx w0 Hv Hdisk Hidx. rewrite <- Hdisk in Hv.
    destruct (figure_panel_draws df a idx v w0 Hcols Hidx Hv) as [p [w' [Hp [Hrun [Hq _]]]]].
    exists p, w'. rewrite <- Hdisk. exact (conj Hp (conj Hrun Hq)).
  - intros a idx w0 Hdisk _. rewrite <- Hdisk in Hfile.
    apply (figure_panel_unreadable df a idx bad w0 t Hcols Hfile).
  - apply Forall_forall. exact Huse.
  - reflexivity.
  - rewrite repeat_length, Hsplit, length_app. simpl. lia.
  - rewrite <- Hsplit in Hloop. exists w1. split; [now apply bind_raise|]. now split.
Qed.

Lemma unreadable_background_stops_rendering_witness :
  exists w',
    render_on_figures two_figures (fresh [("arm.png", Text None)])
    = (Raise (UnidentifiedImageError (png "arm")), w') /\
    saved w' = saved (fresh [("arm.png", Text None)]) /\
    disk w' = disk (fresh [("arm.png", Text None)]).
Proof.
  apply (unreadable_background_stops_rendering two_figures (fresh [("arm.png", Text None)])
           ["leg"] [] "arm" None eq_refl eq_refl).
  - intros f [<- | []]. reflexivity.
  - reflexivity.
Defined.

(** ** A run that stops in the rendering by direction *)





(** ** The data summary of a run *)

Lemma grows_same {A : Type} (m : M A) :
  (forall w, stdout (snd (m w)) = stdout w) -> grows m.
Proof. intros H w. exists []. now rewrite app_nil_r. Qed.

Lemma grows_bind {A B : Type} (m : M A) (k : A -> M B) :
  grows m -> (forall a, grows (k a)) -> grows (bind m k).
Proof.
  intros Hm Hk w. unfold bind. destruct (Hm w) as [l1 H1].
  destruct (m w) as [[a|e|] w1]; simpl in *; try (now exists l1).
  destruct (Hk a w1) as [l2 H2]. exists (l1 ++ l2). now rewrite H2, H1, app_assoc.
Qed.

Lemma grows_print (l : line) : grows (print l).
Proof. intro w. now exists [l]. Qed.

Lemma grows_ret {A : Type} (a : A) : grows (ret a).
Proof. now apply grows_same. Qed.

Lemma grows_raise {A : Type} (e : exn) : grows (@raise A e).
Proof. now apply grows_same. Qed.

Lemma grows_lift {A : Type} (r : result A) : grows (lift r).
Proof. now apply grows_same. Qed.

Lemma grows_enter (s : stage) : grows (enter s).
Proof. now apply grows_same. Qed.

Lemma grows_savefig (name : string) (figsize : nat * nat) (a : axes) :
  grows (savefig name figsize a).
Proof.
  apply grows_same. intro w. unfold savefig. now destruct (renders figsize).
Qed.

Lemma grows_getitem {A : Type} (df : DataFrame) (name : string) (field : point -> A) :
  grows (getitem df name field).
Proof.
  apply grows_same. intro w. unfold getitem. now destruct (mem name (columns df)).
Qed.

Lemma grows_iloc0 {A : Type} (df : DataFrame) (name : string) (field : point -> A) :
  grows (iloc0 df name field).
Proof.
  apply grows_same. intro w. unfold iloc0. destruct (rows df); [reflexivity|].
  now destruct (mem name (columns df)).
Qed.

Lemma grows_os_path_exists (path : string) : grows (os_path_exists path).
Proof.
  apply grows_same. intro w. unfold os_path_exists. now destruct (lookup path (disk w)).
Qed.

Lemma grows_Image_open (path : string) : grows (Image_open path).
Proof.
  apply grows_same. intro w. unfold Image_open.
  now destruct (lookup path (disk w)) as [[t|]|].
Qed.

Lemma grows_axes_at (a : axes) (idx : nat) : grows (axes_at a idx).
Proof. apply grows_same. intro w. unfold axes_at. now destruct (idx <? length a). Qed.

Lemma grows_subplots (ncols : nat) : grows (subplots ncols).
Proof. apply grows_same. intro w. unfold subplots. now destruct (ncols =? 0). Qed.

Lemma grows_direction_label (dir : string) : grows (direction_label dir).
Proof.
  apply grows_same. intro w. unfold direction_label.
  now destruct (labels_get direction_labels dir).
Qed.

Lemma grows_mean_confidence (df : DataFrame) : grows (mean_confidence_by_contacttype df).
Proof.
  apply grows_same. intro w. unfold mean_confidence_by_contacttype.
  destruct (mem "contactType" (columns df)); [|reflexivity].
  now destruct (mem "confidence" (columns df)).
Qed.

Ltac grows_steps :=
  repeat first
    [ apply grows_ret | apply grows_raise | apply grows_lift | apply grows_print
    | apply grows_enter | apply grows_savefig | apply grows_getitem | apply grows_iloc0
    | apply grows_os_path_exists | apply grows_Image_open | apply grows_axes_at
    | apply grows_subplots | apply grows_direction_label | apply grows_mean_confidence
    | apply grows_bind; [|intro] ].

Lemma grows_select (df : DataFrame) (name : string) (field : point -> string) (value : string) :
  grows (select df name field value).
Proof. unfold select. grows_steps. Qed.

Lemma grows_backgrounds (a : axes) (idx : nat) (path : string) :
  grows (panel_background a idx path) /\ grows (figure_background a idx path).
Proof.
  split; [unfold panel_background | unfold figure_background];
    (apply grows_bind; [apply grows_os_path_exists|]); intros []; grows_steps.
Qed.

Lemma grows_for_enumerate (body : axes -> nat -> string -> M axes) (values : list string) :
  (forall a idx v, grows (body a idx v)) ->
  forall idx a, grows (for_enumerate body idx values a).
Proof.
  intro Hbody. induction values as [|v rest IH]; intros idx a; simpl.
  - apply grows_ret.
  - apply grows_bind; [apply Hbody | intro; apply IH].
Qed.

Lemma grows_for_each (body : string -> M unit) (values : list string) :
  (forall v, grows (body v)) -> grows (for_each body values).
Proof.
  intro Hbody. induction values as [|v rest IH]; simpl.
  - apply grows_ret.
  - apply grows_bind; [apply Hbody | intro; apply IH].
Qed.

Lemma grows_render (df : DataFrame) : grows (render df).
Proof.
  unfold render, render_on_figures, render_by_contacttype, render_by_direction.
  apply grows_bind; [apply grows_enter | intros _].
  apply grows_bind; [|intros _; apply grows_bind; [|intros _]].
  - apply grows_bind; [apply grows_getitem | intro].
    apply grows_bind; [apply grows_subplots | intro].
    apply grows_bind; [|intro; grows_steps].
    apply grows_for_enumerate. intros ax idx v. unfold figure_panel.
    apply grows_bind; [apply grows_select | intro].
    apply grows_bind; [apply grows_backgrounds | intro]. grows_steps.
  - apply grows_bind; [apply grows_subplots | intro].
    apply grows_bind; [apply grows_getitem | intro].
    apply grows_bind; [|intro; grows_steps].
    apply grows_for_enumerate. intros ax idx v. unfold contact_panel.
    apply grows_bind; [apply grows_select | intro].
    apply grows_bind; [apply grows_iloc0 | intro].
    apply grows_bind; [apply grows_backgrounds | intro]. grows_steps.
  - apply grows_bind; [apply grows_subplots | intro].
    apply grows_bind; [apply grows_getitem | intro].
    apply grows_bind; [|intro; grows_steps].
    apply grows_for_enumerate. intros ax idx v. unfold direction_panel.
    apply grows_bind; [apply grows_select | intro].
    apply grows_bind; [apply grows_iloc0 | intro].
    apply grows_bind; [apply grows_backgrounds | intro]. grows_steps.
Qed.

Lemma grows_statistics (df : DataFrame) : grows (statistics df).
Proof.
  unfold statistics.
  do 7 (apply grows_bind; [grows_steps | intro]).
  apply grows_bind; [|intro; grows_steps].
  apply grows_for_each. intro v. unfold report_direction.
  apply grows_bind; [apply grows_direction_label | intro].
  apply grows_bind; [apply grows_select | intro]. apply grows_print.
Qed.

Lemma points_of_json_length (points : list json) :
  forall rs, points_of_json points = Some rs -> length rs = length points.
Proof.
  induction points as [|j points IH]; intros rs H; simpl in H.
  - injection H as <-. reflexivity.
  - destruct (point_of_json j); [|discriminate].
    destruct (points_of_json points) as [ps|]; [|discriminate].
    injection H as <-. simpl. now rewrite (IH ps eq_refl).
Qed.

(** X15. The total of the data summary is the number of timestamp entries of
    the input.  On a log whose entries are null or maps of points that follow
    the input format, with at least one point, the output of the run begins
    with the data summary: the header, the total, which is the sum over the
    participants of the number of their timestamp entries, and the distinct
    values of the four categorical columns in order of first occurrence;
    whatever happens afterwards only adds lines. *)
Theorem summary_reports_total (prog path : string) (rest : list string) (w : world)
    (members : list (string * json)) (entries : list json) (rs : list point) :
  lookup path (disk w) = Some (Text (Some (JObj members))) ->
  dict_get "data" members = Some (JArr entries) ->
  Forall valid_entry entries ->
  points_of_json (flat_map participant_points entries) = Some rs ->
  rs <> [] ->
  exists ls,
    stdout (snd (main (prog :: path :: rest) w)) =
    stdout w
    ++ [SummaryHeader; TotalPoints (sum_nat (map timestamp_count entries));
        Participants (first_occurrences (map participantId rs));
        Figures (first_occurrences (map figure rs));
        ContactTypes (first_occurrences (map contactType rs));
        Directions (first_occurrences (map direction rs))]
    ++ ls.
Proof.
  intros Hfile Hdata Hvalid Hpoints Hrows.
  rewrite <- !unique_first_occurrences.
  assert (Hflat : flatten (JObj members) = Ok (flat_map participant_points entries)).
  { unfold flatten, subscript_data. rewrite Hdata. simpl.
    now rewrite (flatten_loop_valid entries Hvalid []). }
  assert (Hdf : DataFrame_of (flat_map participant_points entries)
                = Ok {| columns := field_names; rows := rs |}).
  { unfold DataFrame_of. rewrite Hpoints. destruct rs; [contradiction | reflexivity]. }
  assert (Htotal : length rs = sum_nat (map timestamp_count entries)).
  { rewrite (points_of_json_length _ rs Hpoints). apply length_flat_map_points. }
  set (df := {| columns := field_names; rows := rs |}) in *.
  assert (Hmain : main (prog :: path :: rest) w =
                  (summary df ;; render df ;; statistics df)
                    (at_stage Tabulator (touch path w))).
  { rewrite main_opens_argument.
    unfold bind at 1. unfold open_json. simpl disk. rewrite Hfile.
    unfold bind at 1. unfold enter at 1.
    unfold bind at 1. unfold lift at 1. rewrite Hflat.
    unfold bind at 1. unfold enter at 1.
    unfold bind at 1. unfold lift at 1. rewrite Hdf. reflexivity. }
  rewrite Hmain.
  rewrite (bind_ok _ _ _ _ _ (summary_runs df _ eq_refl)).
  match goal with
  | |- context [bind (render df) _ ?w0] =>
      destruct (grows_bind (render df) (fun _ => statistics df) (grows_render df)
                  (fun _ => grows_statistics df) w0) as [ls Hls]
  end.
  exists ls. rewrite Hls. simpl stdout. rewrite <- Htotal.
  now rewrite <- !app_assoc.
Qed.

Lemma summary_reports_total_witness :
  exists ls,
    stdout (snd (main ["parse_bodymap.py"; "log.json"]
                      (fresh [("log.json", Text (Some scenario))]))) =
    stdout (fresh [("log.json", Text (Some scenario))])
    ++ [SummaryHeader;
        TotalPoints (sum_nat (map timestamp_count [JObj [("t0", scenario_point)]; JNull]));
        Participants (first_occurrences (map participantId [scenario_row]));
        Figures (first_occurrences (map figure [scenario_row]));
        ContactTypes (first_occurrences (map contactType [scenario_row]));
        Directions (first_occurrences (map direction [scenario_row]))]
    ++ ls.
Proof.
  apply (summary_reports_total "parse_bodymap.py" "log.json" []
           (fresh [("log.json", Text (Some scenario))])
           [("data", JArr [JObj [("t0", scenario_point)]; JNull])]
           [JObj [("t0", scenario_point)]; JNull] [scenario_row] eq_refl eq_refl).
  - apply Forall_cons; [right; now eexists|].
    apply Forall_cons; [now left | apply Forall_nil].
  - reflexivity.
  - discriminate.
Defined.

(** ** A third panel on two axes *)

Section LoopOverflow.

Variable body : axes -> nat -> string -> M axes.
Variable drawing : string -> option panel.
Variable d : list (string * content).
Variable good : string -> Prop.
Variable bad : string.
Variable e : exn.

Hypothesis body_draws :
  forall v a idx w,
    good v -> disk w = d -> idx < length a ->
    exists p w',
      drawing v = Some p /\ body a idx v w = (Ok (put a idx p), w') /\ quiet w w'.

Hypothesis body_overflows :
  forall a idx w,
    disk w = d -> length a <= idx ->
    exists w', body a idx bad w = (Raise e, w') /\ quiet w w'.

(** A loop that has one value more than the figure has axes. *)
Lemma for_enumerate_overflows (before after : list string) :
  forall idx a w,
    Forall good before -> disk w = d -> idx + length before = length a ->
    exists w',
      for_enumerate body idx (before ++ bad :: after) a w = (Raise e, w') /\ quiet w w'.
Proof.
  induction before as [|v rest IH]; intros idx a w Hgood Hdisk Hlen; simpl.
  - simpl in Hlen. destruct (body_overflows a idx w Hdisk ltac:(lia)) as [w' [Hrun Hq]].
    exists w'. split; [now apply bind_raise | exact Hq].
  - inversion Hgood as [|? ? Hv Hrest]; subst. simpl in Hlen.
    destruct (body_draws v a idx w Hv eq_refl ltac:(lia)) as [p [w1 [Hp [Hrun Hq1]]]].
    rewrite (bind_ok _ _ _ _ _ Hrun).
    assert (Hdisk1 : disk w1 = disk w) by apply Hq1.
    destruct (IH (S idx) (put a idx p) w1 Hrest Hdisk1
                 ltac:(rewrite put_length; lia)) as [w2 [Hloop Hq2]].
    exists w2. split; [exact Hloop | eapply quiet_trans; eassumption].
Qed.

End LoopOverflow.

Lemma panel_background_overflows (a : axes) (idx : nat) (path : string) (w : world) :
  length a <= idx ->
  usable (disk w) path = true ->
  exists w', panel_background a idx path w = (Raise IndexError, w') /\ quiet w w'.
Proof.
  intros Hidx Huse. apply Nat.ltb_ge in Hidx.
  unfold panel_background, usable in *.
  unfold bind, os_path_exists, Image_open, axes_at, ret, raise.
  destruct (lookup path (disk w)) as [[t|]|] eqn:E; [discriminate| |].
  - simpl. rewrite E, Hidx. eexists. split; [reflexivity|]. now repeat split.
  - rewrite Hidx. eexists. split; [reflexivity|]. now repeat split.
Qed.

Lemma contact_panel_overflows (df : DataFrame) (a : axes) (idx : nat) (c : string) (w : world)
    (first_row : point) (more : list point) :
  columns df = field_names ->
  rows_with contactType c (rows df) = first_row :: more ->
  length a <= idx ->
  usable (disk w) (png (figure first_row)) = true ->
  exists w', contact_panel df a idx c w = (Raise IndexError, w') /\ quiet w w'.
Proof.
  intros Hcols Hsub Hidx Huse.
  destruct (panel_background_overflows a idx (png (figure first_row)) w Hidx Huse)
    as [w' [Hbg Hq]].
  exists w'. split; [|exact Hq]. unfold contact_panel.
  rewrite (bind_ok _ _ _ _ _ (select_ok df "contactType" contactType c w
                                ltac:(now rewrite Hcols))).
  rewrite Hsub.
  erewrite bind_ok by (apply (iloc0_ok _ _ _ _ first_row more);
                       [reflexivity | simpl; rewrite Hcols; reflexivity]).
  now apply bind_raise.
Qed.

(** X16. The figure by contact type has two axes whatever the table: with
    three or more distinct contact types (and usable background files) the
    rendering by contact type raises [IndexError] at the third panel and
    saves nothing. *)
Theorem third_contact_type_overflows (df : DataFrame) (w : world)
    (c1 c2 c3 : string) (more : list string) :
  columns df = field_names ->
  (forall r, In r (rows df) -> usable (disk w) (png (figure r)) = true) ->
  first_occurrences (map contactType (rows df)) = c1 :: c2 :: c3 :: more ->
  exists w',
    render_by_contacttype df w = (Raise IndexError, w') /\
    saved w' = saved w /\ disk w' = disk w.
Proof.
  intros Hcols Huse Hsplit. rewrite <- unique_first_occurrences in Hsplit.
  assert (Hvalues : forall v, In v (c1 :: c2 :: c3 :: more) ->
                      exists r0 rest, rows_with contactType v (rows df) = r0 :: rest /\
                                      In r0 (rows df)).
  { intros v Hv. rewrite <- Hsplit in Hv. now apply rows_with_first. }
  unfold render_by_contacttype.
  rewrite (bind_ok _ _ _ _ _ (subplots_ok 2 w eq_refl)).
  step_getitem Hcols. rewrite Hsplit.
  destruct (for_enumerate_overflows (contact_panel df)
              (contact_drawing (disk w) (rows df)) (disk w)
              (fun v => In v (c1 :: c2 :: c3 :: more)) c3 IndexError) with
    (before := [c1; c2]) (after := more) (idx := 0) (a := repeat (@None panel) 2) (w := w)
    as [w1 [Hloop [Hd [Hs Hc]]]].
  - intros v a idx w0 Hv Hdisk Hidx.
    destruct (Hvalues v Hv) as [r0 [rest [Hsub Hr0]]].
    assert (Hu : usable (disk w0) (png (figure r0)) = true) by (rewrite Hdisk; now apply Huse).
    destruct (contact_panel_draws df a idx v w0 r0 rest Hcols Hsub Hidx Hu)
      as [p [w' [Hp [Hrun [Hq _]]]]].
    exists p, w'. rewrite <- Hdisk. exact (conj Hp (conj Hrun Hq)).
  - intros a idx w0 Hdisk Hidx.
    destruct (Hvalues c3 ltac:(simpl; auto)) as [r0 [rest [Hsub Hr0]]].
    assert (Hu : usable (disk w0) (png (figure r0)) = true) by (rewrite Hdisk; now apply Huse).
    apply (contact_panel_overflows df a idx c3 w0 r0 rest Hcols Hsub Hidx Hu).
  - apply Forall_cons; [now left|]. apply Forall_cons; [right; now left | apply Forall_nil].
  - reflexivity.
  - reflexivity.
  - exists w1. split; [now apply bind_raise | now split].
Qed.

Lemma third_contact_type_overflows_witness :
  exists w',
    render_by_contacttype three_contacts (fresh []) = (Raise IndexError, w') /\
    saved w' = saved (fresh []) /\ disk w' = disk (fresh []).
Proof.
  apply (third_contact_type_overflows three_contacts (fresh []) "pat" "stroke" "grab" []
           eq_refl).
  - intros r [<- | [<- | [<- | []]]]; reflexivity.
  - reflexivity.
Defined.
